(* ===== verification/_CoqProject ===== *)
-Q . S2P
Prelude.v
RustStr.v
Labels.v
Parser.v
Encoder.v
Decoder.v
VM.v
Trace.v
ISA.v
Pipeline.v
Printer.v
Source.v
Output.v
