(* ===== verification/Prelude.v ===== *)
(** * SIMJI-Rust: a verification development of the assembler and virtual machine

    The repository (NightlySide/SIMJI-Rust) is a simulator for a small
    32-bit instruction set, written in Rust:

    - [src/assembler.rs]: an assembler.  [read_file] normalises the source
      text into trimmed logical lines; [get_label_adresses] is the first
      pass, giving every label the index of the next instruction line;
      [split_instruction] and [parse_argument] split a line into a mnemonic
      and operands and resolve each operand (register [rN], label, or
      decimal literal); [lines_to_instr] is the second pass, producing per
      line a vector [op :: fields] of [u32]; [instr_to_machine_code] packs
      each vector into one 32-bit word, choosing the layout by the vector's
      length (formats A to E of the spec).
    - [src/vm.rs]: the virtual machine.  [Instruction::decode] extracts
      every field of every format from a word by fixed mask/shift pairs;
      [VM] owns eight [u32] registers, the program and the [pc];
      [VM::fetch] reads [program[pc]] and increments [pc]; [VM::eval]
      dispatches on the opcode; [VM::run] loops until [eval] says halt.
    - [src/main.rs] and [src/args.rs]: the command line front end (glue).

    The data flow is [read_file -> lines_to_instr -> instr_to_machine_code
    -> VM::new -> VM::run]: the assembler's output vectors are the
    encoder's input, the encoder's words are the VM's program.

    ** Modelling conventions (this file)

    - A Rust [u32] is a [Z] in [0, 2^32).  Rust arithmetic depends on the
      build profile: with overflow checks (debug builds, the default of
      [cargo run]) [+], [-], [*] panic on overflow and [<<], [>>] panic on
      a shift amount of 32 or more; without them (release builds) they
      wrap around and the shift amount is taken modulo 32.  Division by
      zero panics in both.  The profile is the parameter [profile] of
      every operation that does arithmetic ([add32], [sub32], ...).
    - Every panic or [exit] of the code is a value of [fault], and fallible
      code returns [res A] ([Ok] or [Err]), a monad with stdpp's
      [x ← c; k] notation.  A panic ends the program, so a fault is
      propagated unchanged to the top.
    - Printing ([println!]) never feeds back into the state.  The pure
      models leave it out; [Output] puts every [println!] back, in a
      writer-over-error monad [io] (a result and the lines printed), and
      shows that erasing the output gives the pure models.

    ** Files (in dependency order)

    - [Prelude]: this file.  [res] and [fault], u32 arithmetic per profile,
      bit-field lemmas, the tactics and the hint database [simji].
    - [RustStr]: the Rust string operations the assembler uses ([trim],
      [split] on a character, [parse::<u32>], [chars().last()], ...), and
      integer numerals in a base [b] (a Section whose digit functions are
      its [Context]).
    - [Labels]: [read_file] ([read_file_at] reads the file from a
      [file_system], a map from paths to contents; [read_file] normalises
      the contents) and [get_label_adresses].
    - [Parser]: [OP_CODES], [split_instruction], [parse_argument],
      [lines_to_instr].
    - [Encoder]: [instr_to_machine_code].
    - [Decoder]: [Instruction] and [Instruction::decode]; the round trip
      of every format, and the interface between the two halves of the
      program: the class [Codec] of an encoder and a decoder with the
      laws [CodecLaws] (per format, a word of fitting fields decodes to
      those fields), instantiated by [encode_instr] and [decode].  The
      VM's lemmas on assembled words are proved from the laws.
    - [VM] (Module [Machine]): the machine state [VM] (registers as a
      list, program, [pc]), [new], [fetch], [eval] split per opcode group
      ([eval_alu], [eval_jmp], [eval_braz], [eval_branz]), one loop
      iteration [cycle], [run] with fuel, the states [reachable] from
      [new] (an inductive closure of [cycle]) and the invariant [vm_inv].
    - [Trace]: [VM::show_regs] ([format!("{:04X} ")] per register) and
      the reading back of zero-padded hexadecimal fields.
    - [ISA]: the spec's own description of the machine, independent of
      the encoding: abstract instructions [instr] with register or
      immediate operands, the operators [spec_alu] (unsigned wraparound,
      fatal division by zero), the abstract step [astep] and run [arun]
      on registers and a program counter, and the abstraction [abs] of
      a [VM].  It holds the refinement theorems.
    - [Pipeline]: [main] of [src/main.rs] ([main_args] from the [Args]
      record, [main] from the file's contents) as the composition of the
      models above, and the spec's example programs run end to end.
    - [Printer]: source text for abstract programs ([print_prog], the
      syntax of the spec's §6) and the proof that the assembler reads it
      back, which closes the chain from source text to the abstract
      machine.  [print_with] writes an instruction whose immediate slot
      is any text, a numeral or a label name.
    - [Source]: assembler sources with labels (the spec's §4.1 and §6):
      [item]s that define labels or refer to them, forward or backward,
      their text [print_source], and their meaning [resolve] (each
      reference replaced by [addr_of], the number of instructions before
      the label's last definition).  It holds the theorems on the two
      passes together.
    - [Output]: the standard output.  [eval_io], [run_io],
      [line_to_instr_io], [collect_io], [lines_to_instr_io], [encode_io]
      and [main_io] are [VM::eval], [VM::run], the loop of
      [lines_to_instr], [instr_to_machine_code] and [main] with their
      [println!] calls in place ([lines_to_instr]'s operand arms are the
      shared [Parser.operands_vec]).

    Each Rust function is one definition of the same name (or, for a
    loop body, [<function>_go], [line_to_instr], [encode_instr], [cycle]);
    a loop over a vector is a [Fixpoint] on the list ([collect], [mapM],
    [get_label_adresses_go]) or [run]'s fuel.

    ** What the theorems show

    - Round trips ([Decoder]): for each format, decoding the word the
      encoder produces gives back every field the format carries, when the
      fields fit their widths ([decode_encode_E], [_D], [_C], [_AB]);
      conversely every [u32] word is re-encoded exactly from its decoded
      fields ([encode_decode]).  Fields that do not fit carry into the
      fields above them ([encode_wide_fields]): the assembler never
      checks widths.
    - Assembler ([Labels], [Parser], [Encoder]): [read_file] never yields
      an empty line; the first pass computes [label_spec] (the number of
      instruction lines before the label's last definition), so a label
      resolves to the vector of the next instruction line wherever it is
      used; an unknown mnemonic anywhere aborts the assembly; the
      encoder returns the word of the spec's format table modulo [2^32]
      for every vector, or, in a debug build only, the panic of an
      overflowing [+=] ([encode_spec]).
    - VM ([VM]): the effect of one cycle on each assembled instruction
      (arithmetic and comparisons, [jmp], [braz], [branz], [stop]) in
      terms of the spec's operation; a run halts only after executing a
      [stop] or a word with an opcode outside the table (proved over the
      states [reachable] from [VM::new], which keep eight [u32] registers
      and the program); and a straight-line program of [n] words
      followed by [stop] halts after exactly [n + 1] cycles.
    - Refinement ([ISA], [Printer]): a release build's operators are
      the spec's [spec_alu], and a debug build's agree whenever they do
      not panic; one [cycle] on the word of a well-formed instruction is
      one [astep] on the abstracted state; [run] on an assembled program
      simulates [arun] (exactly in a release build, up to extra overflow
      panics in a debug build); the assembler reads a printed program
      back ([read_file] and [lines_to_instr] recover the vectors), so
      [main] on the text of a program runs the abstract program; and a
      program whose jumps all go forward ([forward_only]) has stopped,
      halted or crashed, within one cycle more than its length.
    - Labels end to end ([Source]): on the text of a source with labels,
      the first pass builds [addr_of], the second pass returns the
      vectors of the program [resolve] gives, and [main] runs that
      program as [arun] does.
    - Register dump ([Trace]): the dump reads back as the exact register
      values.
    - Output ([Output]): printing does not change the program
      ([main_io] ends as [main]); in a release build the lines [VM::run]
      prints for an assembled program are the trace of the abstract
      machine: its register dump before each step, then the message of
      the instruction at its [pc] ([run_io_trace]); the assembler prints, per instruction line, its
      vector at its index, the missing-[stop] warning exactly when there
      is no [stop], and a listing of the words that reads back as the
      program; a division by zero panics after its message; the line
      [eval] prints for the word of any well-formed instruction is its
      mnemonic and operands ([instr_msg]), except that a [jmp] to a
      literal prints the message of a [seq] read from the word's bits
      ([eval_msg]).
    - Examples ([Pipeline]): computations on fixed sources that document
      the findings: the spec's branch example, and the places
      where the code departs from the spec: [#] immediates are rejected, a label starting with [r] is read
      as a register, a one-operand [jmp] loops forever, a line with a wrong
      operand count still emits a word, a label named like a numeral
      shadows the numeral, and a [jmp] links [pc + 2] rather
      than the next instruction's address.

    ** Fuel and bounds

    [VM::run] need not terminate, so [run] takes a fuel argument [n]: the
    number of cycles allowed, and [Running] means the fuel ran out.  A
    straight-line program needs [n + 1] cycles; for a forward-only program
    [length prog + 1] cycles are enough: the variant [length prog - pc]
    decreases at every cycle that continues.  Counters that are [u32] in
    the code (label index, [pc]) are kept at their width with the
    profile's overflow behaviour; theorems that need them not to overflow
    assume fewer than [2^32 - 1] lines or words (the refinement
    theorems fewer than [2^32 - 2], so that a [jmp]'s link [pc + 2] does
    not wrap), which is far beyond what the VM can address anyway (a
    [braz] address has 22 bits).  The printer writes numerals with at
    most ten digits, enough for every [u32].  Sources with labels are
    shorter than [2^16] items, so that every label address fits the
    narrowest immediate field (16 bits, format E).

    ** Not modelled

    The parsing of the command line into [Args] (generated by clap's
    derive macro), and the messages of the panics ([expect] and the
    arithmetic checks write them on the standard error; the model keeps
    the [fault] only).  The [pc] counter of [lines_to_instr] is an
    untyped integer literal (an [i32]); the model counts in [Z], which
    agrees below [2^31] instruction lines.  [load], [store] and [scall] only print in the
    code and are no-ops in the model.  Strings are byte strings
    ([String.string]); Rust's [char::is_whitespace] is modelled on its
    ASCII part, which is all a source in the spec's syntax contains. *)

From stdpp Require Export base list gmap strings.
From Stdlib Require Export ZArith Lia.

Declare Scope simji_scope.
Delimit Scope simji_scope with simji.
Open Scope Z_scope.

(** ** Faults: the panics and exits of the program *)

(** The arithmetic operation whose overflow check fired. *)
Inductive arith_op := OpAdd | OpSub | OpMul | OpShl | OpShr.

Inductive fault :=
| Overflow (op : arith_op)          (** "attempt to add with overflow", ... *)
| DivByZero                         (** "attempt to divide by zero" *)
| IndexOOB (index len : Z)          (** slice or array index out of bounds *)
| UnwrapNone                        (** [Option::unwrap] on [None] *)
| BadRegister (arg : string)        (** [expect] on a register parse *)
| BadImmediate (arg : string)       (** [expect] on an immediate parse *)
| UnknownInstr (name : string)     (** [exit(1)] on an unknown mnemonic *)
| FileNotFound (path : string).     (** [expect] on [fs::read_to_string] *)

#[export] Instance arith_op_eq_dec : EqDecision arith_op.
Proof. solve_decision. Defined.
#[export] Instance fault_eq_dec : EqDecision fault.
Proof. solve_decision. Defined.

(** ** The result monad *)

Inductive res (A : Type) : Type :=
| Ok (a : A)
| Err (f : fault).
Arguments Ok {A} a.
Arguments Err {A} f.

#[export] Instance res_ret : MRet res := λ A a, Ok a.
#[export] Instance res_bind : MBind res :=
  λ A B k r, match r with Ok a => k a | Err f => Err f end.
#[export] Instance res_fmap : FMap res :=
  λ A B f r, match r with Ok a => Ok (f a) | Err e => Err e end.

(** [opt_res e o] turns an [Option] into a result, failing with [e]:
    what [unwrap] and [expect] do. *)
Definition opt_res {A} (e : fault) (o : option A) : res A :=
  match o with Some a => Ok a | None => Err e end.

(** Indexing a slice: [v[i]] panics when [i >= v.len()]. *)
Definition nth_res {A} (l : list A) (i : Z) : res A :=
  opt_res (IndexOOB i (Z.of_nat (length l))) (l !! Z.to_nat i).

(** Sequencing over a list, failing at the first error (a [for] loop
    whose body may panic, collecting the results). *)
Fixpoint mapM {A B} (f : A -> res B) (l : list A) : res (list B) :=
  match l with
  | [] => Ok []
  | x :: l' => y ← f x; ys ← mapM f l'; Ok (y :: ys)
  end.

(** ** Rust [u32] arithmetic *)

Definition u32_modulus : Z := 2 ^ 32.

(** [is_u32 z]: [z] is a value of type [u32]. *)
Definition is_u32 (z : Z) : Prop := 0 <= z < u32_modulus.
#[export] Instance is_u32_dec z : Decision (is_u32 z).
Proof. unfold is_u32. apply _. Defined.

Definition wrap32 (z : Z) : Z := z mod u32_modulus.

(** The build profile decides what an overflowing operation does. *)
Inductive profile := Debug | Release.

Definition overflow_checks (p : profile) : bool :=
  match p with Debug => true | Release => false end.

(** [x << k] for a constant [k < 32]: the high bits are lost. *)
Definition shl_wrap (x k : Z) : Z := wrap32 (Z.shiftl x k).

Definition add32 (p : profile) (a b : Z) : res Z :=
  if overflow_checks p && bool_decide (u32_modulus <= a + b)
  then Err (Overflow OpAdd) else Ok (wrap32 (a + b)).

Definition sub32 (p : profile) (a b : Z) : res Z :=
  if overflow_checks p && bool_decide (a < b)
  then Err (Overflow OpSub) else Ok (wrap32 (a - b)).

Definition mul32 (p : profile) (a b : Z) : res Z :=
  if overflow_checks p && bool_decide (u32_modulus <= a * b)
  then Err (Overflow OpMul) else Ok (wrap32 (a * b)).

(** Division panics on a zero divisor whatever the profile. *)
Definition div32 (a b : Z) : res Z :=
  if bool_decide (b = 0) then Err DivByZero else Ok (a / b).

(** Shifts: with checks, an amount of 32 or more panics; without, the
    amount is masked to its low five bits. *)
Definition shl32 (p : profile) (a b : Z) : res Z :=
  if overflow_checks p && bool_decide (32 <= b)
  then Err (Overflow OpShl) else Ok (shl_wrap a (Z.land b 31)).

Definition shr32 (p : profile) (a b : Z) : res Z :=
  if overflow_checks p && bool_decide (32 <= b)
  then Err (Overflow OpShr) else Ok (Z.shiftr a (Z.land b 31)).

(** ** Lemmas on the monad *)

Create HintDb simji discriminated.
Create Rewrite HintDb simji_rw.

Lemma bind_Ok {A B} (c : res A) (k : A -> res B) v :
  (c ≫= k) = Ok v <-> exists a, c = Ok a /\ k a = Ok v.
Proof. destruct c; simpl; split; [eauto | intros (? & [= ->] & ?) | done | intros (? & ? & _)]; done. Qed.

Lemma bind_Err {A B} (c : res A) (k : A -> res B) e :
  (c ≫= k) = Err e <-> c = Err e \/ exists a, c = Ok a /\ k a = Err e.
Proof. destruct c; simpl; split; naive_solver. Qed.

Lemma bind_Ok_l {A B} (a : A) (k : A -> res B) : (Ok a ≫= k) = k a.
Proof. reflexivity. Qed.

Lemma bind_Err_l {A B} (e : fault) (k : A -> res B) : (Err e ≫= k) = Err e.
Proof. reflexivity. Qed.

#[export] Hint Rewrite @bind_Ok_l @bind_Err_l : simji_rw.

Lemma opt_res_Ok {A} e (o : option A) a : opt_res e o = Ok a <-> o = Some a.
Proof. destruct o; simpl; split; congruence. Qed.

Lemma nth_res_Ok {A} (l : list A) i x :
  0 <= i -> nth_res l i = Ok x <-> l !! Z.to_nat i = Some x.
Proof.
  intros. unfold nth_res, opt_res. destruct (l !! Z.to_nat i); naive_solver.
Qed.

Lemma nth_res_lt {A} (l : list A) i :
  0 <= i < Z.of_nat (length l) -> exists x, nth_res l i = Ok x.
Proof.
  intros Hi. unfold nth_res, opt_res.
  destruct (lookup_lt_is_Some_2 l (Z.to_nat i)) as [x ->]; [lia | eauto].
Qed.

Lemma nth_res_ge {A} (l : list A) i :
  Z.of_nat (length l) <= i -> nth_res l i = Err (IndexOOB i (Z.of_nat (length l))).
Proof.
  intros Hi. unfold nth_res, opt_res. rewrite lookup_ge_None_2; [done | lia].
Qed.

Lemma mapM_length {A B} (f : A -> res B) l ys :
  mapM f l = Ok ys -> length ys = length l.
Proof.
  revert ys. induction l as [|x l IH]; simpl; intros ys H.
  - by injection H as <-.
  - apply bind_Ok in H as (y & _ & H). apply bind_Ok in H as (ys' & H & [= <-]).
    simpl. by rewrite (IH ys').
Qed.

Lemma mapM_lookup {A B} (f : A -> res B) l ys i x :
  mapM f l = Ok ys -> l !! i = Some x -> exists y, f x = Ok y /\ ys !! i = Some y.
Proof.
  revert ys i. induction l as [|x' l IH]; simpl; intros ys i H Hi; [done|].
  apply bind_Ok in H as (y & Hy & H). apply bind_Ok in H as (ys' & H & [= <-]).
  destruct i as [|i]; simpl in *; [injection Hi as ->; eauto | eauto].
Qed.

(** A failure in any element makes the whole traversal fail. *)
Lemma mapM_Err {A B} (f : A -> res B) l x e :
  x ∈ l -> f x = Err e -> exists e', mapM f l = Err e'.
Proof.
  induction l as [|x' l IH]; simpl; intros Hx Hf; [by apply elem_of_nil in Hx|].
  apply elem_of_cons in Hx as [-> | Hx].
  - rewrite Hf. eauto.
  - destruct (f x') as [y|e']; simpl; [|eauto].
    destruct (IH Hx Hf) as [e' ->]. simpl. eauto.
Qed.

(** ** Lemmas on u32 arithmetic *)

Lemma wrap32_range z : 0 <= wrap32 z < u32_modulus.
Proof. unfold wrap32, u32_modulus. apply Z.mod_pos_bound. lia. Qed.

Lemma wrap32_small z : is_u32 z -> wrap32 z = z.
Proof. unfold wrap32, is_u32. intros. by apply Z.mod_small. Qed.

#[export] Hint Resolve wrap32_range : simji.

Lemma u32_modulus_eq : u32_modulus = 4294967296.
Proof. reflexivity. Qed.

(** [u32_lia] closes goals about u32 bounds by unfolding and [lia]. *)
Ltac u32_lia := unfold is_u32, u32_modulus in *; lia.

(** An addition that does not overflow gives the exact sum in both
    profiles. *)
Lemma add32_exact p a b :
  0 <= a -> 0 <= b -> a + b < u32_modulus -> add32 p a b = Ok (a + b).
Proof.
  intros. unfold add32. rewrite bool_decide_false by lia.
  rewrite andb_false_r, wrap32_small by u32_lia. done.
Qed.

Lemma add32_release a b : add32 Release a b = Ok (wrap32 (a + b)).
Proof. reflexivity. Qed.

Lemma add32_debug_overflow a b :
  u32_modulus <= a + b -> add32 Debug a b = Err (Overflow OpAdd).
Proof. intros. unfold add32. by rewrite bool_decide_true. Qed.

Lemma shl_wrap_range x k : 0 <= shl_wrap x k < u32_modulus.
Proof. apply wrap32_range. Qed.

(** ** Results of u32 operations are u32 *)

Lemma below_pow2_bits z k :
  0 <= z -> 0 <= k -> (forall i, k <= i -> Z.testbit z i = false) -> z < 2 ^ k.
Proof.
  intros Hz Hk Hb. assert (z mod 2 ^ k = z) as <-; [|apply Z.mod_pos_bound; lia].
  apply Z.bits_inj'. intros i Hi. destruct (Z.lt_ge_cases i k).
  - by rewrite Z.mod_pow2_bits_low.
  - rewrite Z.mod_pow2_bits_high by lia. by rewrite Hb.
Qed.

Lemma u32_testbit_high z i : is_u32 z -> 32 <= i -> Z.testbit z i = false.
Proof.
  intros Hz Hi. rewrite <- (Z.mod_small z (2 ^ 32)) by u32_lia.
  apply Z.mod_pow2_bits_high. lia.
Qed.

(** The bitwise operations keep values in [u32]: a bit set in the
    result is set in an operand. *)
Lemma bitwise_u32 f x y :
  (forall i, Z.testbit (f x y) i = true -> Z.testbit x i = true \/ Z.testbit y i = true) ->
  0 <= f x y -> is_u32 x -> is_u32 y -> is_u32 (f x y).
Proof.
  intros Hbits Hnn Hx Hy. split; [done|].
  apply (below_pow2_bits _ 32); [done|lia|]. intros i Hi.
  destruct (Z.testbit (f x y) i) eqn:E; [|done].
  destruct (Hbits i E) as [Hb | Hb]; by rewrite u32_testbit_high in Hb.
Qed.

Ltac bitwise_case spec :=
  intros i; rewrite spec; destruct (Z.testbit _ i), (Z.testbit _ i); auto.

Lemma land_u32 x y : is_u32 x -> is_u32 y -> is_u32 (Z.land x y).
Proof.
  intros. apply (bitwise_u32 Z.land); [bitwise_case Z.land_spec | apply Z.land_nonneg; u32_lia | done..].
Qed.

Lemma lor_u32 x y : is_u32 x -> is_u32 y -> is_u32 (Z.lor x y).
Proof.
  intros. apply (bitwise_u32 Z.lor); [bitwise_case Z.lor_spec | apply Z.lor_nonneg; u32_lia | done..].
Qed.

Lemma lxor_u32 x y : is_u32 x -> is_u32 y -> is_u32 (Z.lxor x y).
Proof.
  intros. apply (bitwise_u32 Z.lxor); [bitwise_case Z.lxor_spec | apply Z.lxor_nonneg; u32_lia | done..].
Qed.

Lemma div_u32 x y : is_u32 x -> 0 < y -> is_u32 (x / y).
Proof.
  intros Hx Hy. unfold is_u32 in *. split; [apply Z.div_pos; lia|].
  apply Z.le_lt_trans with x; [apply Z.div_le_upper_bound; nia | lia].
Qed.

Lemma wrap32_u32 z : is_u32 (wrap32 z).
Proof. apply wrap32_range. Qed.


Lemma add32_u32 p x y v : add32 p x y = Ok v -> is_u32 v.
Proof. unfold add32. case_match; intros [= <-]. apply wrap32_u32. Qed.

Lemma sub32_u32 p x y v : sub32 p x y = Ok v -> is_u32 v.
Proof. unfold sub32. case_match; intros [= <-]. apply wrap32_u32. Qed.

Lemma mul32_u32 p x y v : mul32 p x y = Ok v -> is_u32 v.
Proof. unfold mul32. case_match; intros [= <-]. apply wrap32_u32. Qed.

Lemma shl32_u32 p x y v : shl32 p x y = Ok v -> is_u32 v.
Proof. unfold shl32. case_match; intros [= <-]. apply wrap32_u32. Qed.

Lemma div32_u32 x y v : div32 x y = Ok v -> is_u32 x -> is_u32 y -> is_u32 v.
Proof.
  unfold div32. case_bool_decide; intros [= <-] Hx Hy.
  apply div_u32; [done | unfold is_u32 in Hy; lia].
Qed.

Lemma shr32_u32 p x y v : shr32 p x y = Ok v -> is_u32 x -> is_u32 v.
Proof.
  unfold shr32. case_match; intros [= <-] Hx.
  assert (0 <= Z.land y 31) by (apply Z.land_nonneg; lia).
  rewrite Z.shiftr_div_pow2 by done. apply div_u32; [done|]. apply Z.pow_pos_nonneg; lia.
Qed.

Lemma flag_u32 (P : Prop) `{Decision P} : is_u32 (if bool_decide P then 1 else 0).
Proof. case_bool_decide; u32_lia. Qed.

Lemma zero_u32 : is_u32 0.
Proof. u32_lia. Qed.

(** [u32_op] proves that the result of one machine operation is a [u32]. *)
Ltac u32_op :=
  first [ eapply add32_u32; eassumption | eapply sub32_u32; eassumption
        | eapply mul32_u32; eassumption | eapply shl32_u32; eassumption
        | eapply div32_u32; eassumption | eapply shr32_u32; eassumption
        | apply land_u32; assumption | apply lor_u32; assumption
        | apply lxor_u32; assumption | apply flag_u32 | apply zero_u32 ].

(** ** Bit fields *)

(** Masking with [n] ones at position [k] and shifting right by [k]
    reads the [n]-bit field at [k]: the decoder's mask/shift pairs. *)
Lemma land_mask_shiftr w n k :
  0 <= n -> 0 <= k ->
  Z.shiftr (Z.land w (Z.shiftl (Z.ones n) k)) k = (w / 2 ^ k) mod 2 ^ n.
Proof.
  intros Hn Hk. rewrite <- Z.shiftr_div_pow2, <- Z.land_ones by lia.
  apply Z.bits_inj'. intros i Hi.
  rewrite Z.shiftr_spec, !Z.land_spec, Z.shiftl_spec, Z.shiftr_spec by lia.
  by replace (i + k - k) with i by lia.
Qed.

(** Reading back a field packed above a low part that fits below it. *)
Lemma pack_div a b k :
  0 <= k -> 0 <= b < 2 ^ k -> (a * 2 ^ k + b) / 2 ^ k = a.
Proof.
  intros. rewrite Z.div_add_l by lia. rewrite Z.div_small by lia. lia.
Qed.

Lemma pack_mod a b k :
  0 <= k -> 0 <= b < 2 ^ k -> (a * 2 ^ k + b) mod 2 ^ k = b.
Proof.
  intros. rewrite Z.add_comm, Z.mod_add by lia. by apply Z.mod_small.
Qed.

#[export] Hint Rewrite pack_div pack_mod using lia : simji_rw.

(** [decide_prop] proves a closed decidable proposition by evaluation. *)
Ltac decide_prop := apply (bool_decide_unpack _); vm_compute; exact I.

(** A property checked on every integer of [lo .. lo + n - 1] (for
    instance by [decide_prop]) holds at each of them. *)
Lemma seqZ_forall (P : Z -> Prop) lo n x : Forall P (seqZ lo n) -> lo <= x < lo + n -> P x.
Proof. rewrite Forall_forall. intros H Hx. apply H, elem_of_seqZ. lia. Qed.

(** [solve_disj] proves a disjunction one of whose members holds by
    [reflexivity]. *)
Ltac solve_disj := repeat (first [left; reflexivity | right]); reflexivity.

Lemma Ok_inj {A} (x y : A) : Ok x = Ok y -> x = y.
Proof. by intros [= ->]. Qed.

(** [res_inv] splits every [bind = Ok] hypothesis into its steps. *)
Ltac res_inv :=
  repeat match goal with
  | H : (_ ≫= _) = Ok _ |- _ =>
      let a := fresh "a" in let Ha := fresh "Ha" in
      apply bind_Ok in H as (a & Ha & H)
  | H : Ok _ = Ok _ |- _ => apply Ok_inj in H
  | H : Err _ = Ok _ |- _ => discriminate H
  | H : Ok _ = Err _ |- _ => discriminate H
  end.
