(* ===== verification/RustStr.v ===== *)
(** * Rust string operations used by the assembler

    The assembler ([src/assembler.rs]) works on [String]s with a handful
    of standard-library operations.  This file gives each its Rust
    semantics on ASCII strings: [str::trim], [str::split] on a one
    character pattern, [chars().next()], [chars().last()], [String::pop],
    [chars().skip(1)], [concat] ([join("")]) and [str::parse::<u32>].  The
    lemmas are the facts the assembler's proofs need: [split] never
    returns an empty list and joins back to its input; [trim] keeps a
    non-blank first character; [parse::<u32>] accepts exactly the
    decimal numerals (with an optional [+]) below [2^32]. *)

From Stdlib Require Import Ascii.
From S2P Require Import Prelude.

Module RustStr.

Open Scope string_scope.

(** ** Characters *)

(** [char::is_whitespace] on ASCII: tab, line feed, vertical tab, form
    feed, carriage return and space. *)
Definition is_whitespace (c : ascii) : bool := Ascii.is_space c.

(** [char::to_digit(10)] *)
Definition digit_val (c : ascii) : option Z :=
  let n := Z.of_nat (nat_of_ascii c) in
  if bool_decide (48 <= n <= 57) then Some (n - 48) else None.

(** ** Accessors *)

(** [s.chars().next()] *)
Definition first_char (s : string) : option ascii :=
  match s with EmptyString => None | String c _ => Some c end.

(** [s.chars().last()] *)
Fixpoint last_char (s : string) : option ascii :=
  match s with
  | EmptyString => None
  | String c EmptyString => Some c
  | String _ s' => last_char s'
  end.

(** [String::pop] (the string without its last character). *)
Fixpoint pop (s : string) : string :=
  match s with
  | EmptyString => EmptyString
  | String _ EmptyString => EmptyString
  | String c s' => String c (pop s')
  end.

(** [s.chars().skip(1).collect::<String>()] *)
Definition skip_first (s : string) : string :=
  match s with EmptyString => EmptyString | String _ s' => s' end.

(** ** trim *)

Fixpoint trim_start (s : string) : string :=
  match s with
  | EmptyString => EmptyString
  | String c s' => if is_whitespace c then trim_start s' else s
  end.

Fixpoint trim_end (s : string) : string :=
  match s with
  | EmptyString => EmptyString
  | String c s' =>
      match trim_end s' with
      | EmptyString => if is_whitespace c then EmptyString else String c EmptyString
      | t => String c t
      end
  end.

(** [str::trim] *)
Definition trim (s : string) : string := trim_end (trim_start s).

(** ** split and join *)

(** [s.split(sep)] for a one-character pattern: the pieces between the
    occurrences of [sep], always at least one. *)
Fixpoint split_char (sep : ascii) (s : string) : list string :=
  match s with
  | EmptyString => [EmptyString]
  | String c s' =>
      if bool_decide (c = sep) then EmptyString :: split_char sep s'
      else match split_char sep s' with
           | w :: ws => String c w :: ws
           | [] => [String c EmptyString]
           end
  end.

(** [v.join("")] on a vector of strings. *)
Definition concat_all (l : list string) : string := String.concat "" l.

(** ** parse::<u32> *)

Fixpoint parse_digits (s : string) (acc : Z) : option Z :=
  match s with
  | EmptyString => Some acc
  | String c s' => d ← digit_val c; parse_digits s' (acc * 10 + d)
  end.

(** [str::parse::<u32>]: an optional [+] sign, then at least one decimal
    digit and nothing else, and a value below [2^32]. *)
Definition parse_u32 (s : string) : option Z :=
  let digits := match s with String "+"%char r => r | _ => s end in
  match digits with
  | EmptyString => None
  | _ =>
      v ← parse_digits digits 0;
      if bool_decide (v < u32_modulus) then Some v else None
  end.

(** ** Lemmas *)

Lemma split_char_nonempty sep s : split_char sep s <> [].
Proof.
  induction s as [|c s IH]; simpl; [done|].
  case_bool_decide; [done|]. by destruct (split_char sep s).
Qed.

(** The first piece of a string that does not start with [sep] starts
    with the same character. *)
Lemma split_char_head sep c s :
  c <> sep -> exists w ws, split_char sep (String c s) = String c w :: ws.
Proof.
  intros Hc. simpl. rewrite bool_decide_false by done.
  destruct (split_char sep s) as [|w ws] eqn:E; [by apply split_char_nonempty in E|].
  eauto.
Qed.

Lemma trim_start_head s c r :
  trim_start s = String c r -> is_whitespace c = false.
Proof.
  induction s as [|c' s IH]; simpl; [done|].
  destruct (is_whitespace c') eqn:E; [apply IH | by intros [= <- _]].
Qed.

Lemma trim_end_head c s :
  is_whitespace c = false -> exists t, trim_end (String c s) = String c t.
Proof. intros Hc. simpl. destruct (trim_end s); rewrite ?Hc; eauto. Qed.

(** Trimming a string whose first character is not blank keeps that
    character first. *)
Lemma trim_head c s :
  is_whitespace c = false -> exists t, trim (String c s) = String c t.
Proof. intros Hc. unfold trim. simpl. rewrite Hc. by apply trim_end_head. Qed.

Lemma trim_nonempty_head s :
  trim s <> EmptyString -> exists c r, trim s = String c r /\ is_whitespace c = false.
Proof.
  unfold trim. destruct (trim_start s) as [|c r] eqn:E; [done|].
  intros _. apply trim_start_head in E.
  destruct (trim_end_head c r E) as [t ->]. eauto.
Qed.

Lemma parse_digits_acc s acc v :
  parse_digits s acc = Some v -> 0 <= acc -> acc <= v.
Proof.
  revert acc. induction s as [|c s IH]; simpl; intros acc H Hacc.
  - by injection H as ->.
  - destruct (digit_val c) as [d|] eqn:Hd; simpl in H; [|done].
    unfold digit_val in Hd. case_bool_decide; [|done]. injection Hd as <-.
    apply IH in H; lia.
Qed.

(** [parse::<u32>] only ever yields a [u32]. *)
Lemma parse_u32_range s v : parse_u32 s = Some v -> is_u32 v.
Proof.
  unfold parse_u32. intros H.
  destruct (match s with String "+"%char r => r | _ => s end) as [|c r] eqn:E; [done|].
  destruct (parse_digits (String c r) 0) as [w|] eqn:Hw; simpl in H; [|done].
  case_bool_decide; [|done]. injection H as <-.
  apply parse_digits_acc in Hw; [u32_lia | lia].
Qed.

(** ** Strings built from pieces

    The facts below describe what [split], [trim] and [parse] do on a
    string assembled from known pieces: splitting the join of pieces
    that do not contain the separator gives the pieces back, trimming a
    string without blanks at its ends is the identity, and parsing digits
    is compositional. *)

(** Every character of [s] satisfies [f]. *)
Fixpoint all_chars (f : ascii -> bool) (s : string) : bool :=
  match s with
  | EmptyString => true
  | String c s' => f c && all_chars f s'
  end.

(** The character [c] does not occur. *)
Definition no_char (sep : ascii) (s : string) : bool := all_chars (λ c, bool_decide (c ≠ sep)) s.

Lemma all_chars_app f a b :
  all_chars f (String.append a b) = all_chars f a && all_chars f b.
Proof. induction a as [|c a IH]; simpl; [done|]. by rewrite IH, andb_assoc. Qed.

Lemma all_chars_impl (f g : ascii -> bool) s :
  (forall c, f c = true -> g c = true) -> all_chars f s = true -> all_chars g s = true.
Proof.
  intros Hfg. induction s as [|c s IH]; simpl; [done|].
  rewrite !andb_true_iff. intros [Hc Hs]. auto.
Qed.

Lemma append_assoc a b c :
  String.append (String.append a b) c = String.append a (String.append b c).
Proof.
  induction a as [|x a IH]; [done|].
  change (String x (String.append (String.append a b) c) =
          String x (String.append a (String.append b c))). by rewrite IH.
Qed.

Lemma append_empty_r a : String.append a EmptyString = a.
Proof.
  induction a as [|x a IH]; [done|].
  change (String x (String.append a EmptyString) = String x a). by rewrite IH.
Qed.

Lemma split_char_none sep s : no_char sep s = true -> split_char sep s = [s].
Proof.
  unfold no_char. induction s as [|c s IH]; simpl; [done|].
  rewrite andb_true_iff, bool_decide_eq_true. intros [Hc Hs].
  rewrite bool_decide_false by done. by rewrite IH.
Qed.

Lemma split_char_app sep a b :
  no_char sep a = true -> split_char sep (String.append a (String sep b)) = a :: split_char sep b.
Proof.
  unfold no_char. induction a as [|c a IH]; simpl.
  - intros _. by rewrite bool_decide_true.
  - rewrite andb_true_iff, bool_decide_eq_true. intros [Hc Ha].
    rewrite bool_decide_false by done. by rewrite IH.
Qed.

(** Splitting on [sep] undoes joining with [sep]. *)
Lemma split_char_concat sep l :
  l ≠ [] -> Forall (λ s, no_char sep s = true) l ->
  split_char sep (String.concat (String sep EmptyString) l) = l.
Proof.
  induction l as [|s l IH]; [done|]. intros _ Hl. apply Forall_cons in Hl as [Hs Hl].
  destruct l as [|s' l]; [by apply split_char_none|].
  change (String.concat (String sep EmptyString) (s :: s' :: l))
    with (String.append s (String sep (String.concat (String sep EmptyString) (s' :: l)))).
  rewrite split_char_app by done. by rewrite IH.
Qed.

Lemma trim_end_app a b :
  trim_end b ≠ EmptyString -> trim_end (String.append a b) = String.append a (trim_end b).
Proof.
  intros Hb. induction a as [|c a IH]; simpl; [done|].
  rewrite IH. change (String.append (String c a) (trim_end b))
    with (String c (String.append a (trim_end b))).
  destruct (String.append a (trim_end b)) eqn:E; [|done].
  exfalso. apply Hb. destruct a; simpl in E; [done | discriminate].
Qed.

Lemma trim_end_no_blank s :
  all_chars (λ c, negb (is_whitespace c)) s = true -> trim_end s = s.
Proof.
  induction s as [|c s IH]; simpl; [done|].
  rewrite andb_true_iff, negb_true_iff. intros [Hc Hs]. rewrite IH by done.
  destruct s; [by rewrite Hc | done].
Qed.

(** [trim] leaves alone a string [a ++ " " ++ b] whose pieces are not
    empty and have no blanks. *)
Lemma trim_spaced a b :
  a ≠ EmptyString -> b ≠ EmptyString ->
  all_chars (λ c, negb (is_whitespace c)) a = true ->
  all_chars (λ c, negb (is_whitespace c)) b = true ->
  trim (String.append a (String " " b)) = String.append a (String " " b).
Proof.
  intros Ha Hb Hwa Hwb. unfold trim.
  assert (trim_start (String.append a (String " " b)) = String.append a (String " " b)) as ->.
  { destruct a as [|c a]; [done|]. simpl in Hwa |- *.
    apply andb_true_iff in Hwa as [Hc _]. apply negb_true_iff in Hc. by rewrite Hc. }
  assert (Hsp : trim_end (String " " b) = String " " b).
  { change (String " " b) with (String.append (String " " EmptyString) b).
    rewrite trim_end_app; rewrite (trim_end_no_blank b Hwb); done. }
  rewrite trim_end_app by (rewrite Hsp; done). by rewrite Hsp.
Qed.

Lemma trim_no_blank s :
  all_chars (λ c, negb (is_whitespace c)) s = true -> trim s = s.
Proof.
  intros Hs. unfold trim. assert (trim_start s = s) as ->; [|by apply trim_end_no_blank].
  destruct s as [|c s]; [done|]. simpl in Hs |- *.
  apply andb_true_iff in Hs as [Hc _]. apply negb_true_iff in Hc. by rewrite Hc.
Qed.

(** ** Numerals in base [b]

    [format!] writes an integer as its digits, most significant first;
    [num_go b dig k n] is that string with at most [k] digits, [dig]
    giving the character of a digit.  [parse_num] reads digits back. *)
Fixpoint num_go (b : Z) (dig : Z -> ascii) (k : nat) (n : Z) : string :=
  match k with
  | O => EmptyString
  | S k' =>
      if bool_decide (n < b) then String (dig n) EmptyString
      else String.append (num_go b dig k' (n / b)) (String (dig (n mod b)) EmptyString)
  end.

Fixpoint parse_num (b : Z) (val : ascii -> option Z) (s : string) (acc : Z) : option Z :=
  match s with
  | EmptyString => Some acc
  | String c s' => d ← val c; parse_num b val s' (acc * b + d)
  end.

Section Numerals.
Context (b : Z) (dig : Z -> ascii) (val : ascii -> option Z).
Hypothesis Hb : 2 <= b.
Hypothesis Hval : forall d, 0 <= d < b -> val (dig d) = Some d.

Lemma parse_num_app s1 s2 acc :
  parse_num b val (String.append s1 s2) acc = parse_num b val s1 acc ≫= parse_num b val s2.
Proof.
  revert acc. induction s1 as [|c s1 IH]; intros acc; simpl; [done|].
  destruct (val c); simpl; [apply IH | done].
Qed.

Lemma num_go_parse k n : 0 <= n < b ^ Z.of_nat k -> parse_num b val (num_go b dig k n) 0 = Some n.
Proof.
  revert n. induction k as [|k IH]; intros n Hn.
  - simpl in Hn. by replace n with 0 by lia.
  - rewrite Nat2Z.inj_succ, Z.pow_succ_r in Hn by lia. cbn [num_go].
    case_bool_decide.
    + cbn [parse_num]. rewrite Hval by lia. simpl. by rewrite Z.mul_0_l, Z.add_0_l.
    + rewrite parse_num_app, IH by (split; [apply Z.div_pos | apply Z.div_lt_upper_bound]; lia).
      simpl. rewrite Hval by (apply Z.mod_pos_bound; lia). simpl.
      f_equal. pose proof (Z.div_mod n b). lia.
Qed.

(** The first character of a numeral is a digit. *)
Lemma num_go_head k n :
  0 <= n -> exists d r, num_go b dig (S k) n = String (dig d) r /\ 0 <= d < b.
Proof.
  revert n. induction k as [|k IH]; intros n Hn; cbn [num_go].
  - case_bool_decide; [eexists _, _; split; [reflexivity | lia]|].
    eexists _, _. split; [reflexivity|]. apply Z.mod_pos_bound; lia.
  - case_bool_decide; [eexists _, _; split; [reflexivity | lia]|].
    destruct (IH (n / b)) as (d & r & Hd & Hr); [apply Z.div_pos; lia|].
    cbn [num_go] in Hd. rewrite Hd. eexists _, _. split; [reflexivity | done].
Qed.

(** Every character of a numeral is a digit. *)
Lemma num_go_chars (f : ascii -> bool) k n :
  (forall d, 0 <= d < b -> f (dig d) = true) -> 0 <= n -> all_chars f (num_go b dig k n) = true.
Proof.
  intros Hf. revert n. induction k as [|k IH]; intros n Hn; cbn [num_go]; [done|].
  case_bool_decide; simpl.
  - by rewrite Hf by lia.
  - rewrite all_chars_app, IH by (apply Z.div_pos; lia). simpl.
    by rewrite Hf by (apply Z.mod_pos_bound; lia).
Qed.
End Numerals.

(** [parse::<u32>]'s digit loop reads base-10 numerals. *)
Lemma parse_digits_num s acc : parse_digits s acc = parse_num 10 digit_val s acc.
Proof.
  revert acc. induction s as [|c s IH]; intros acc; simpl; [done|].
  destruct (digit_val c); simpl; [apply IH | done].
Qed.

End RustStr.
