(* ===== verification/Labels.v ===== *)
(** * The source normaliser and the label resolver

    [read_file] ([src/assembler.rs], lines 20-40) turns the source text
    into trimmed logical lines (no blank lines, no comments);
    [get_label_adresses] (lines 44-61) is the assembler's first pass: a
    line ending in [:] is a label bound to the current instruction
    index, any other line advances the index by one.

    The specification [last_def] / [count_instrs] says where a label
    points: at the number of instruction lines before its last
    definition.  [get_label_adresses_spec] proves the code computes
    exactly that table, so a label used before its definition (a
    forward reference) resolves like any other.  [read_file_nonempty]
    shows the normaliser never yields an empty line, which is what keeps
    the resolver's [unwrap] from panicking. *)

From Stdlib Require Import Ascii.
From S2P Require Import Prelude RustStr.
Import RustStr.

Module Labels.

Open Scope string_scope.

(** ** The normaliser: [read_file] after [fs::read_to_string] *)

(** [line.split(";").next().unwrap().trim()]: the part of a line before
    its first [;], trimmed.  [split] never returns an empty iterator, so
    the [unwrap] cannot fail. *)
Definition strip_comment (line : string) : string :=
  match split_char ";"%char line with w :: _ => trim w | [] => EmptyString end.

(** The pure part of [read_file]: split on line feeds, trim, drop blank
    lines, drop lines starting with [;], cut trailing comments. *)
Definition read_file (content : string) : list string :=
  map strip_comment
    (filter (λ line, first_char line ≠ Some ";"%char)
      (filter (λ line, line ≠ EmptyString)
        (map trim (split_char "010"%char content)))).

(** The file system as [fs::read_to_string] sees it: the contents of
    the readable files, by path. *)
Definition file_system := gmap string string.

(** [read_file] itself: the file must be readable ([expect] panics with
    the path otherwise), then its contents are normalised. *)
Definition read_file_at (fs : file_system) (path : string) : res (list string) :=
  content ← opt_res (FileNotFound path) (fs !! path);
  Ok (read_file content).

(** A line that [read_file] keeps as it is: not empty, already trimmed,
    without line feed and without comment. *)
Definition clean_line (line : string) : Prop :=
  line ≠ EmptyString /\ trim line = line /\ no_char "010"%char line = true /\
  no_char ";"%char line = true.

Lemma strip_comment_clean line : clean_line line -> strip_comment line = line.
Proof. intros (_ & Ht & _ & Hs). unfold strip_comment. by rewrite split_char_none. Qed.

(** The normaliser gives back clean lines joined by line feeds. *)
Lemma read_file_join lines :
  lines ≠ [] -> Forall clean_line lines ->
  read_file (String.concat (String "010" EmptyString) lines) = lines.
Proof.
  intros Hne Hl. unfold read_file.
  rewrite split_char_concat by (done || (eapply Forall_impl; [done|]; by intros ? (_ & _ & ? & _))).
  clear Hne. induction Hl as [|l lines (Hne & Ht & Hn & Hs) _ IH]; [done|].
  cbn [map]. rewrite Ht, filter_cons_True by done. rewrite filter_cons_True.
  - cbn [map]. rewrite strip_comment_clean by done. by rewrite IH.
  - destruct l as [|c l]; [done|]. cbn [first_char]. intros [= ->].
    unfold no_char in Hs. cbn [all_chars] in Hs. apply andb_true_iff in Hs as [Hc _].
    by apply bool_decide_eq_true in Hc.
Qed.

(** ** The first pass *)

(** [line.chars().last().unwrap().eq(&':')] *)
Definition is_label (line : string) : res bool :=
  c ← opt_res UnwrapNone (last_char line); Ok (bool_decide (c = ":"%char)).

(** The [for_each] loop, with the captured [addresses] and [index] as
    accumulators.  [addresses.insert] overwrites: the last definition of
    a label wins. *)
Fixpoint get_label_adresses_go (p : profile) (lines : list string)
    (addresses : gmap string Z) (index : Z) : res (gmap string Z) :=
  match lines with
  | [] => Ok addresses
  | line :: rest =>
      is_label line ≫= λ lbl : bool,
      if lbl then get_label_adresses_go p rest (<[pop line := index]> addresses) index
      else (index' ← add32 p index 1; get_label_adresses_go p rest addresses index')
  end.

Definition get_label_adresses (p : profile) (lines : list string) : res (gmap string Z) :=
  get_label_adresses_go p lines ∅ 0.

(** ** Specification *)

(** A label line is a line whose last character is [:]. *)
Definition label_line (line : string) : bool :=
  bool_decide (last_char line = Some ":"%char).

(** The number of instruction (non-label) lines. *)
Fixpoint count_instrs (lines : list string) : nat :=
  match lines with
  | [] => O
  | l :: r => ((if label_line l then 0 else 1) + count_instrs r)%nat
  end.

(** The position of the last line defining label [name], if any. *)
Fixpoint last_def (lines : list string) (name : string) : option nat :=
  match lines with
  | [] => None
  | l :: r =>
      match last_def r name with
      | Some i => Some (S i)
      | None => if label_line l && bool_decide (pop l = name) then Some O else None
      end
  end.

(** The label table the first pass is meant to build. *)
Definition label_spec (lines : list string) (name : string) : option Z :=
  (λ i, Z.of_nat (count_instrs (take i lines))) <$> last_def lines name.

(** ** Lemmas *)

Lemma last_char_nonempty s : s ≠ EmptyString -> exists c, last_char s = Some c.
Proof.
  induction s as [|c s IH]; [done|]. intros _.
  destruct s as [|c' s']; simpl; [eauto|]. apply IH. done.
Qed.

Lemma is_label_ok line : line ≠ EmptyString -> is_label line = Ok (label_line line).
Proof.
  intros Hl. destruct (last_char_nonempty line Hl) as [c Hc].
  unfold is_label, label_line. rewrite Hc. simpl.
  f_equal. apply bool_decide_ext. naive_solver.
Qed.

Lemma count_instrs_take_label l r i :
  label_line l = true -> count_instrs (take (S i) (l :: r)) = count_instrs (take i r).
Proof. intros H. simpl. by rewrite H. Qed.

Lemma count_instrs_take_instr l r i :
  label_line l = false -> count_instrs (take (S i) (l :: r)) = S (count_instrs (take i r)).
Proof. intros H. simpl. by rewrite H. Qed.

Lemma count_instrs_app l1 l2 : count_instrs (l1 ++ l2) = (count_instrs l1 + count_instrs l2)%nat.
Proof. induction l1 as [|x l1 IH]; simpl; [done|]. rewrite IH. lia. Qed.

(** Label lines between [i] and [j] add no instruction. *)
Lemma count_instrs_take_labels lines i j :
  (i <= j)%nat ->
  (forall k l, (i <= k < j)%nat -> lines !! k = Some l -> label_line l = true) ->
  count_instrs (take j lines) = count_instrs (take i lines).
Proof.
  intros Hij Hlab. induction j as [|j IH].
  - by replace i with O by lia.
  - destruct (decide (i = S j)) as [->|Hne]; [done|].
    rewrite <- IH by first [lia | intros; apply (Hlab k); [lia | done]].
    destruct (lines !! j) as [l|] eqn:Hl.
    + rewrite (take_S_r _ _ l Hl), count_instrs_app. simpl.
      rewrite (Hlab j l) by (lia || done). lia.
    + apply lookup_ge_None_1 in Hl. by rewrite !take_ge by lia.
Qed.

(** The loop invariant of the first pass, from any start state. *)
Lemma get_label_adresses_go_spec p lines m idx :
  Forall (λ l, l ≠ EmptyString) lines -> 0 <= idx ->
  idx + Z.of_nat (length lines) < u32_modulus ->
  exists m', get_label_adresses_go p lines m idx = Ok m' /\
    forall name, m' !! name =
      match last_def lines name with
      | Some i => Some (idx + Z.of_nat (count_instrs (take i lines)))
      | None => m !! name
      end.
Proof.
  revert m idx. induction lines as [|l r IH]; intros m idx Hne Hidx Hlen.
  { exists m. simpl. auto. }
  apply Forall_cons in Hne as [Hl Hr]. simpl in Hlen.
  simpl. rewrite (is_label_ok l Hl). simpl.
  destruct (label_line l) eqn:Hlab.
  - destruct (IH (<[pop l := idx]> m) idx Hr Hidx ltac:(lia)) as (m' & Hgo & Hm').
    exists m'. split; [done|]. intros name. rewrite Hm'.
    destruct (last_def r name) as [i|]; [by rewrite count_instrs_take_label|].
    simpl. destruct (decide (pop l = name)) as [<-|Hne'].
    + rewrite bool_decide_true by done. rewrite lookup_insert_eq. simpl. f_equal. lia.
    + rewrite bool_decide_false by done. by rewrite lookup_insert_ne.
  - rewrite add32_exact by u32_lia. simpl.
    destruct (IH m (idx + 1) Hr ltac:(lia) ltac:(lia)) as (m' & Hgo & Hm').
    exists m'. split; [done|]. intros name. rewrite Hm'.
    destruct (last_def r name) as [i|]; [|done].
    rewrite count_instrs_take_instr by done. f_equal. lia.
Qed.

(** The label table only holds [u32] values, whatever the profile. *)
Lemma get_label_adresses_go_u32 p lines m idx m' :
  map_Forall (λ _ v, is_u32 v) m -> is_u32 idx ->
  get_label_adresses_go p lines m idx = Ok m' -> map_Forall (λ _ v, is_u32 v) m'.
Proof.
  revert m idx. induction lines as [|l r IH]; intros m idx Hm Hidx H; simpl in H.
  - by apply Ok_inj in H as <-.
  - destruct (is_label l) as [[]|] eqn:Hl; simpl in H; [| | done];
      try (destruct (add32 p idx 1) as [idx'|] eqn:Ha; simpl in H; [|done]);
      refine (IH _ _ _ _ H); first [done | by apply map_Forall_insert_2 | by eapply add32_u32].
Qed.

Lemma get_label_adresses_u32 p lines m :
  get_label_adresses p lines = Ok m -> map_Forall (λ _ v, is_u32 v) m.
Proof.
  apply get_label_adresses_go_u32; [apply map_Forall_empty | u32_lia].
Qed.

(** ** Theorems *)

(** The first pass computes [label_spec]. *)
Lemma label_table_spec p lines :
  Forall (λ l, l ≠ EmptyString) lines ->
  Z.of_nat (length lines) < u32_modulus ->
  exists m, get_label_adresses p lines = Ok m /\
    forall name, m !! name = label_spec lines name.
Proof.
  intros Hne Hlen.
  destruct (get_label_adresses_go_spec p lines ∅ 0 Hne ltac:(lia) ltac:(lia))
    as (m & Hgo & Hm).
  exists m. split; [done|]. intros name. rewrite Hm. unfold label_spec.
  destruct (last_def lines name); simpl; [done | apply lookup_empty].
Qed.

(** C22: the normaliser never produces an empty line. *)
Theorem read_file_nonempty content :
  Forall (λ l, l ≠ EmptyString) (read_file content).
Proof.
  unfold read_file. apply Forall_forall. intros l Hl.
  apply list_elem_of_fmap in Hl as (x & -> & Hx).
  apply list_elem_of_filter in Hx as [Hsemi Hx].
  apply list_elem_of_filter in Hx as [Hne Hx].
  apply list_elem_of_fmap in Hx as (y & -> & _).
  destruct (trim_nonempty_head y Hne) as (c & r & Htr & Hws).
  rewrite Htr in Hsemi |- *. simpl in Hsemi.
  destruct (split_char_head ";"%char c r) as (w & ws & Hs); [congruence|].
  unfold strip_comment. rewrite Hs.
  destruct (trim_head c w Hws) as [t ->]. done.
Qed.

(** C14: the first pass succeeds on lines that are not empty, and binds
    every label to the number of instruction lines before its last
    definition; names never defined are unbound. *)
Theorem get_label_adresses_spec p lines :
  Forall (λ l, l ≠ EmptyString) lines ->
  Z.of_nat (length lines) < u32_modulus ->
  exists m, get_label_adresses p lines = Ok m /\
    forall name, m !! name = label_spec lines name.
Proof. apply label_table_spec. Qed.

Lemma get_label_adresses_spec_witness :
  exists m, get_label_adresses Debug ["braz r1,end"; "loop:"; "end:"; "stop"; "end:"] = Ok m /\
    forall name, m !! name = label_spec ["braz r1,end"; "loop:"; "end:"; "stop"; "end:"] name.
Proof. apply get_label_adresses_spec; [decide_prop | simpl; u32_lia]. Defined.

End Labels.
