(* ===== verification/Parser.v ===== *)
(** * The instruction parser: the assembler's second pass

    [src/assembler.rs], lines 4-16 and 63-178.  [split_instruction] cuts
    a line at its spaces into a mnemonic and a comma separated operand
    list; [parse_argument] resolves one operand (a register [rN], a
    label, or a decimal literal); [lines_to_instr] runs the first pass,
    then turns every instruction line into a vector [op :: fields] whose
    length selects the encoder's format:

    - no operand: [[op]]; one operand: [[op; v]];
    - two operands: [[op; flag; v0; v1]] for [jmp] (flag 1 when the
      target is not a register), [[op; v0; v1]] otherwise;
    - three operands: [[op; r1; flag; v; r2]] (flag 1 when the second
      operand is not a register);
    - any other count: the message "Mauvais nombre d'arguments" is
      printed and the vector is [[op]], so the line still takes an
      address (the spec says it is skipped: see the findings).

    An unknown mnemonic ends the process ([exit(1)]), a malformed operand
    panics: both are faults, and no vector is returned at all. *)

From Stdlib Require Import Ascii.
From S2P Require Import Prelude RustStr Labels.
Import RustStr Labels.

Module Parser.

Open Scope string_scope.

(** ** The opcode table [OP_CODES] *)

Definition OP_CODES : list (string * Z) :=
  [("stop", 0); ("add", 1); ("sub", 2); ("mul", 3); ("div", 4); ("and", 5);
   ("or", 6); ("xor", 7); ("shl", 8); ("shr", 9); ("slt", 10); ("sle", 11);
   ("seq", 12); ("load", 13); ("store", 14); ("jmp", 15); ("braz", 16);
   ("branz", 17); ("scall", 18)].

(** [OP_CODES.get(name)] *)
Fixpoint assoc (name : string) (tbl : list (string * Z)) : option Z :=
  match tbl with
  | [] => None
  | (k, v) :: tbl' => if bool_decide (name = k) then Some v else assoc name tbl'
  end.

Definition op_code (name : string) : option Z := assoc name OP_CODES.

(** ** Splitting a line *)

(** [split_instruction]: [data] is the line split on single spaces (so
    runs of spaces give empty pieces, and tabs do not split); the
    mnemonic is [data[0]]; the remaining pieces, if any, are joined
    without separator and split on commas. *)
Definition split_instruction (instruction : string) : string * option (list string) :=
  match split_char " "%char instruction with
  | op_name :: (_ :: _) as rest => (op_name, Some (split_char ","%char (concat_all rest)))
  | op_name :: [] => (op_name, None)
  | [] => (EmptyString, None)
  end.

(** ** Resolving one operand *)

(** [parse_argument]: the result is the value and whether it names a
    register.  A leading [r] makes the operand a register whatever
    follows, so a label whose name starts with [r] is never looked up. *)
Definition parse_argument (argument : string) (labels : gmap string Z) : res (Z * bool) :=
  c ← opt_res UnwrapNone (first_char argument);
  if bool_decide (c = "r"%char) then
    v ← opt_res (BadRegister argument) (parse_u32 (skip_first argument));
    Ok (v, true)
  else
    match labels !! argument with
    | Some a => Ok (a, false)
    | None =>
        v ← opt_res (BadImmediate argument) (parse_u32 argument);
        Ok (v, false)
    end.

(** 1 when the operand is not a register ([if !is_reg { 1 } else { 0 }]). *)
Definition imm_flag (is_reg : bool) : Z := if is_reg then 0 else 1.

(** ** One line of the loop body of [lines_to_instr] *)

(** The [if let Some(args) = args_opt] block: the vector [num_instr]
    after the opcode [opc] of mnemonic [op_name] was pushed.  A wrong
    operand count (the [_] arm) leaves the vector as [[opc]]. *)
Definition operands_vec (labels : gmap string Z) (op_name : string) (opc : Z)
    (args_opt : option (list string)) : res (list Z) :=
  match args_opt with
  | None => Ok [opc]
  | Some [a0] =>
      '(v, _) ← parse_argument a0 labels; Ok [opc; v]
  | Some [a0; a1] =>
      if bool_decide (op_name = "jmp") then
        '(v, is_reg) ← parse_argument a0 labels;
        '(v1, _) ← parse_argument a1 labels;
        Ok [opc; imm_flag is_reg; v; v1]
      else
        '(v, _) ← parse_argument a0 labels;
        '(v1, _) ← parse_argument a1 labels;
        Ok [opc; v; v1]
  | Some [a0; a1; a2] =>
      '(r1, _) ← parse_argument a0 labels;
      '(o, is_reg) ← parse_argument a1 labels;
      '(r2, _) ← parse_argument a2 labels;
      Ok [opc; r1; imm_flag is_reg; o; r2]
  | Some _ => Ok [opc]
  end.

(** [None] for a label line (skipped), [Some v] for an instruction. *)
Definition line_to_instr (labels : gmap string Z) (line : string) : res (option (list Z)) :=
  is_label line ≫= λ lbl : bool,
  if lbl then Ok None else
  let '(op_name, args_opt) := split_instruction line in
  opc ← opt_res (UnknownInstr op_name) (op_code op_name);
  num_instr ← operands_vec labels op_name opc args_opt;
  Ok (Some num_instr).

(** The [for line in lines] loop: lines in order, the first fault ends
    the run. *)
Fixpoint collect (labels : gmap string Z) (lines : list string) : res (list (list Z)) :=
  match lines with
  | [] => Ok []
  | line :: rest =>
      o ← line_to_instr labels line;
      instrs ← collect labels rest;
      Ok (match o with Some v => v :: instrs | None => instrs end)
  end.

(** [lines_to_instr]: the label table is built before any operand is
    resolved. *)
Definition lines_to_instr (p : profile) (lines : list string) : res (list (list Z)) :=
  labels ← get_label_adresses p lines;
  collect labels lines.

(** ** Lemmas *)

Lemma is_label_label_line line b : is_label line = Ok b -> label_line line = b.
Proof.
  unfold is_label, label_line, opt_res. destruct (last_char line) as [c|]; simpl; [|done].
  intros [= <-]. apply bool_decide_ext. naive_solver.
Qed.

Lemma line_to_instr_label labels line o :
  line_to_instr labels line = Ok o ->
  label_line line = match o with None => true | Some _ => false end.
Proof.
  unfold line_to_instr, operands_vec. intros H.
  destruct (is_label line) as [b|] eqn:Hb; simpl in H; [|done].
  apply is_label_label_line in Hb. rewrite Hb.
  destruct b; [by injection H as <-|].
  destruct (split_instruction line) as [op args]. res_inv.
  by repeat (case_match; simplify_eq; res_inv; simplify_eq).
Qed.

(** The vector of the instruction line [j] sits at the index equal to
    the number of instruction lines before [j]. *)
Lemma collect_lookup labels lines instrs j line :
  collect labels lines = Ok instrs -> lines !! j = Some line -> label_line line = false ->
  exists v, line_to_instr labels line = Ok (Some v) /\
            instrs !! count_instrs (take j lines) = Some v.
Proof.
  revert instrs j. induction lines as [|l r IH]; intros instrs j H Hj Hlab; [done|].
  simpl in H. res_inv. subst.
  pose proof (line_to_instr_label _ _ _ Ha) as Hl.
  destruct j as [|j]; simpl in Hj.
  - injection Hj as Hj. subst. destruct a as [v|]; [|congruence].
    exists v. split; [done|]. done.
  - destruct (IH a0 j Ha0 Hj Hlab) as (v & Hv & Hi). exists v. split; [done|].
    simpl. rewrite Hl. by destruct a.
Qed.

Lemma collect_length labels lines instrs :
  collect labels lines = Ok instrs -> length instrs = count_instrs lines.
Proof.
  revert instrs. induction lines as [|l r IH]; intros instrs H; simpl in H.
  - by injection H as <-.
  - res_inv. subst. pose proof (line_to_instr_label _ _ _ Ha) as Hl.
    simpl. rewrite <- (IH a0 Ha0), Hl. by destruct a.
Qed.

(** A successful [collect] saw no empty line ([unwrap] would panic). *)
Lemma collect_nonempty labels lines instrs :
  collect labels lines = Ok instrs -> Forall (λ l, l ≠ EmptyString) lines.
Proof.
  revert instrs. induction lines as [|l r IH]; intros instrs H; [done|].
  simpl in H. res_inv. constructor; [|eauto].
  intros ->. unfold line_to_instr in Ha. done.
Qed.

(** The shape of a vector [lines_to_instr] emits: one to five [u32]
    values, the first an opcode of the table. *)
Definition instr_vec_ok (v : list Z) : Prop :=
  (1 <= length v <= 5)%nat /\ Forall is_u32 v /\ exists op, head v = Some op /\ 0 <= op <= 18.

Lemma assoc_elem name tbl v : assoc name tbl = Some v -> v ∈ tbl.*2.
Proof.
  induction tbl as [|[k v'] tbl IH]; simpl; [done|].
  case_bool_decide; [intros [= ->]; by left | intros; right; auto].
Qed.

Lemma op_code_range name op : op_code name = Some op -> 0 <= op <= 18.
Proof.
  intros H. apply assoc_elem in H.
  assert (Forall (λ v, 0 <= v <= 18) OP_CODES.*2) as Hall by (simpl; repeat constructor; lia).
  by eapply Forall_forall in Hall.
Qed.

Lemma parse_argument_u32 arg labels v b :
  map_Forall (λ _ x, is_u32 x) labels -> parse_argument arg labels = Ok (v, b) -> is_u32 v.
Proof.
  intros Hl H. unfold parse_argument in H.
  destruct (first_char arg) as [c|]; simpl in H; [|done].
  unfold opt_res in H. case_bool_decide; repeat (case_match; simpl in H); try done;
    apply Ok_inj in H; simplify_eq; first [by eapply parse_u32_range | by eapply Hl].
Qed.

Lemma imm_flag_u32 b : is_u32 (imm_flag b).
Proof. destruct b; unfold imm_flag; u32_lia. Qed.

Lemma line_to_instr_ok labels line v :
  map_Forall (λ _ x, is_u32 x) labels -> line_to_instr labels line = Ok (Some v) -> instr_vec_ok v.
Proof.
  intros Hl H. unfold line_to_instr, operands_vec in H.
  destruct (is_label line) as [[]|]; simpl in H; [done | | done].
  destruct (split_instruction line) as [op args]. res_inv.
  apply opt_res_Ok, op_code_range in Ha.
  assert (is_u32 a) as Hop by u32_lia.
  repeat (case_match; simplify_eq; res_inv; simplify_eq);
  repeat match goal with
         | H : parse_argument _ _ = Ok (_, _) |- _ => apply parse_argument_u32 in H; [|done]
         end;
  (split; [simpl; lia | split; [|eexists; split; [done | lia]]]);
  repeat (apply List.Forall_cons; [first [assumption | apply imm_flag_u32] |]); apply List.Forall_nil.
Qed.

(** An instruction line with an unknown mnemonic faults. *)
Lemma line_to_instr_unknown labels line :
  line ≠ EmptyString -> label_line line = false ->
  op_code (split_instruction line).1 = None ->
  line_to_instr labels line = Err (UnknownInstr (split_instruction line).1).
Proof.
  intros Hne Hlab Hop. unfold line_to_instr. rewrite (is_label_ok line Hne), Hlab.
  rewrite bind_Ok_l. destruct (split_instruction line) as [op args]. simpl in *.
  by rewrite Hop.
Qed.

(** ** Theorems *)

(** C15: one instruction line with an unknown mnemonic anywhere in the
    source makes the whole assembly fail: no vector is produced. *)
Theorem unknown_mnemonic_aborts p lines line :
  line ∈ lines -> label_line line = false -> op_code (split_instruction line).1 = None ->
  exists f, lines_to_instr p lines = Err f.
Proof.
  intros Hin Hlab Hop. destruct (lines_to_instr p lines) as [instrs|f] eqn:H; [exfalso|by exists f].
  unfold lines_to_instr in H. res_inv.
  apply list_elem_of_lookup in Hin as [j Hj].
  destruct (collect_lookup _ _ _ j line H Hj Hlab) as (v & Hv & _).
  assert (line ≠ EmptyString) as Hne.
  { intros ->. by apply (Forall_lookup_1 _ _ _ _ (collect_nonempty _ _ _ H)) in Hj. }
  by rewrite line_to_instr_unknown in Hv.
Qed.

(** C3: a label resolves to the instruction that follows it: when the
    last definition of [name] is line [i], and line [j] is the first
    instruction line after it, [name] is bound to the index at which
    the vector of line [j] appears in the output, whether the label is
    used before or after its definition. *)
Theorem label_resolves_to_next_instr p lines instrs name i j line :
  lines_to_instr p lines = Ok instrs ->
  Z.of_nat (length lines) < u32_modulus ->
  last_def lines name = Some i -> (i < j)%nat ->
  lines !! j = Some line -> label_line line = false ->
  (forall k l, (i <= k < j)%nat -> lines !! k = Some l -> label_line l = true) ->
  exists labels v,
    get_label_adresses p lines = Ok labels /\
    labels !! name = Some (Z.of_nat (count_instrs (take j lines))) /\
    line_to_instr labels line = Ok (Some v) /\
    instrs !! count_instrs (take j lines) = Some v.
Proof.
  intros H Hlen Hdef Hij Hj Hline Hlabs. unfold lines_to_instr in H. res_inv.
  rename a into labels.
  destruct (label_table_spec p lines (collect_nonempty _ _ _ H) Hlen) as (m & Hm & Hspec).
  rewrite Hm in Ha. apply Ok_inj in Ha. subst m.
  destruct (collect_lookup _ _ _ j line H Hj Hline) as (v & Hv & Hi).
  exists labels, v. split_and!; [done | | done | done].
  rewrite Hspec. unfold label_spec. rewrite Hdef. simpl.
  by rewrite (count_instrs_take_labels lines i j) by (lia || done).
Qed.

(** Every vector of a successful assembly has one to five [u32]
    values, the first an opcode between 0 and 18: the input type of the
    encoder. *)
Lemma lines_to_instr_ok p lines instrs :
  lines_to_instr p lines = Ok instrs -> Forall instr_vec_ok instrs.
Proof.
  unfold lines_to_instr. intros H. res_inv. apply get_label_adresses_u32 in Ha.
  revert instrs H. induction lines as [|l r IH]; intros instrs H; simpl in H.
  - by apply Ok_inj in H as <-.
  - res_inv. subst. destruct a0 as [v|]; [constructor|]; eauto using line_to_instr_ok.
Qed.

Lemma unknown_mnemonic_aborts_witness :
  exists f, lines_to_instr Debug ["stop"; "foo r1"] = Err f.
Proof. apply (unknown_mnemonic_aborts Debug _ "foo r1"); [decide_prop | reflexivity..]. Defined.

(** The forward reference [end] resolves to the index of [stop]. *)
Lemma label_resolves_to_next_instr_witness :
  exists labels v,
    get_label_adresses Debug ["braz r1,end"; "end:"; "stop"] = Ok labels /\
    labels !! "end" = Some (Z.of_nat (count_instrs (take 2 ["braz r1,end"; "end:"; "stop"]))) /\
    line_to_instr labels "stop" = Ok (Some v) /\
    [[16; 1; 1]; [0]] !! count_instrs (take 2 ["braz r1,end"; "end:"; "stop"]) = Some v.
Proof.
  apply (label_resolves_to_next_instr Debug _ _ "end" 1 2 "stop");
    [vm_compute; reflexivity | simpl; u32_lia | reflexivity | lia | reflexivity | reflexivity |].
  intros k l Hk Hl. replace k with 1%nat in Hl by lia. injection Hl as <-. reflexivity.
Defined.

End Parser.
