(* ===== verification/Encoder.v ===== *)
(** * The encoder: [instr_to_machine_code]

    [src/assembler.rs], lines 180-218.  Each vector [op :: fields] from
    the parser becomes one word: [op << 27] plus the fields shifted into
    place, the layout chosen by the vector's length:

    - length 1 (format A, [stop]): [op << 27];
    - length 2 (format B, [scall]): [+ num];
    - length 3 (format C, [braz]/[branz]): [+ reg << 22 + addr];
    - length 4 (format D, [jmp]): [+ imm << 26 + o << 5 + r];
    - length 5 (format E, arithmetic): [+ reg << 22 + imm << 21 + o << 5 + r];
    - any other length: [op << 27].

    The shifts drop the bits pushed past bit 31 silently (constant shift
    amounts below 32 never panic); the additions ([+=]) are checked in a
    debug build and wrap in a release build.  Nothing checks that a field
    fits its width, so a wide field carries into its neighbours.

    The lemmas [encode_*_value] give the word of each format as an exact
    sum when the fields fit; [encode_spec] gives the word of every
    vector, fitting or not: the format table's sum modulo [2^32], or in
    a debug build the overflow panic.  The round trip with the decoder
    is in [Decoder]. *)

From S2P Require Import Prelude.

Module Encoder.

(** One iteration of the loop of [instr_to_machine_code]. *)
Definition encode_instr (p : profile) (instr : list Z) : res Z :=
  op ← nth_res instr 0;
  let dec_instr := shl_wrap op 27 in
  match instr with
  | [_; num] =>
      add32 p dec_instr num
  | [_; reg; addr] =>
      d1 ← add32 p dec_instr (shl_wrap reg 22);
      add32 p d1 addr
  | [_; imm; o; r] =>
      d1 ← add32 p dec_instr (shl_wrap imm 26);
      d2 ← add32 p d1 (shl_wrap o 5);
      add32 p d2 r
  | [_; reg; imm; o; r] =>
      d1 ← add32 p dec_instr (shl_wrap reg 22);
      d2 ← add32 p d1 (shl_wrap imm 21);
      d3 ← add32 p d2 (shl_wrap o 5);
      add32 p d3 r
  | _ => Ok dec_instr
  end.

Definition instr_to_machine_code (p : profile) (instructions : list (list Z)) : res (list Z) :=
  mapM (encode_instr p) instructions.

(** ** Field widths *)

(** [fits w x]: [x] is a [w]-bit unsigned value. *)
Definition fits (w x : Z) : Prop := 0 <= x < 2 ^ w.
#[export] Instance fits_dec w x : Decision (fits w x).
Proof. unfold fits. apply _. Defined.

(** ** Lemmas *)

Lemma shl_wrap_exact x k :
  0 <= k -> 0 <= x -> x * 2 ^ k < u32_modulus -> shl_wrap x k = x * 2 ^ k.
Proof.
  intros. unfold shl_wrap. rewrite Z.shiftl_mul_pow2 by lia.
  apply wrap32_small. split; [|done]. apply Z.mul_nonneg_nonneg; lia.
Qed.

(** [enc_simpl] rewrites the shifts and checked additions of a word
    whose fields fit into plain arithmetic. *)
Ltac enc_simpl :=
  unfold fits, u32_modulus in *;
  repeat first
    [ rewrite shl_wrap_exact by (unfold u32_modulus; lia)
    | rewrite add32_exact by (unfold u32_modulus; lia)
    | rewrite bind_Ok_l ].

Lemma encode_A_value p op :
  fits 5 op -> encode_instr p [op] = Ok (op * 2 ^ 27).
Proof. intros. unfold encode_instr, nth_res. simpl. enc_simpl. done. Qed.

Lemma encode_B_value p op num :
  fits 5 op -> fits 27 num -> encode_instr p [op; num] = Ok (op * 2 ^ 27 + num).
Proof. intros. unfold encode_instr, nth_res. simpl. enc_simpl. done. Qed.

Lemma encode_C_value p op reg addr :
  fits 5 op -> fits 5 reg -> fits 22 addr ->
  encode_instr p [op; reg; addr] = Ok (op * 2 ^ 27 + reg * 2 ^ 22 + addr).
Proof. intros. unfold encode_instr, nth_res. simpl. enc_simpl. done. Qed.

Lemma encode_D_value p op imm o r :
  fits 5 op -> fits 1 imm -> fits 21 o -> fits 5 r ->
  encode_instr p [op; imm; o; r] = Ok (op * 2 ^ 27 + imm * 2 ^ 26 + o * 2 ^ 5 + r).
Proof. intros. unfold encode_instr, nth_res. simpl. enc_simpl. done. Qed.

Lemma encode_E_value p op reg imm o r :
  fits 5 op -> fits 5 reg -> fits 1 imm -> fits 16 o -> fits 5 r ->
  encode_instr p [op; reg; imm; o; r] =
    Ok (op * 2 ^ 27 + reg * 2 ^ 22 + imm * 2 ^ 21 + o * 2 ^ 5 + r).
Proof. intros. unfold encode_instr, nth_res. simpl. enc_simpl. done. Qed.

(** ** Totality and overflow *)

Lemma encode_release_ok v :
  v ≠ [] -> exists w, encode_instr Release v = Ok w /\ is_u32 w.
Proof.
  intros Hv. destruct v as [|op [|x1 [|x2 [|x3 [|x4 [|x5 rest]]]]]]; [done|..];
    eexists; (split; [reflexivity | apply wrap32_u32]).
Qed.

(** Every word the encoder produces is a [u32], whatever the profile. *)
Lemma encode_instr_u32 p v w : encode_instr p v = Ok w -> is_u32 w.
Proof.
  unfold encode_instr.
  destruct v as [|op [|x1 [|x2 [|x3 [|x4 [|x5 rest]]]]]]; cbn [nth_res opt_res lookup list_lookup];
    rewrite ?bind_Ok_l; intros H; res_inv; [done|..];
    first [by apply add32_u32 in H | subst; apply shl_wrap_range].
Qed.

Theorem instr_to_machine_code_release instrs :
  Forall (λ v, v ≠ []) instrs ->
  exists ws, instr_to_machine_code Release instrs = Ok ws /\
             Forall is_u32 ws /\ length ws = length instrs.
Proof.
  induction 1 as [|v instrs Hv _ (ws & Hws & Hu & Hl)].
  - by exists [].
  - destruct (encode_release_ok v Hv) as (w & Hw & Hwu).
    exists (w :: ws). unfold instr_to_machine_code in *. simpl.
    rewrite Hw, bind_Ok_l, Hws, bind_Ok_l. split_and!; [done | by constructor | simpl; lia].
Qed.

(** ** The word of every vector *)

(** The word of a vector by the format table of the spec (§4.3), in
    exact arithmetic: the opcode times [2^27] plus each field times the
    power of two of its position; a vector of another length keeps only
    its opcode. *)
Definition format_sum (instr : list Z) : Z :=
  match instr with
  | [op; num] => op * 2 ^ 27 + num
  | [op; reg; addr] => op * 2 ^ 27 + reg * 2 ^ 22 + addr
  | [op; imm; o; r] => op * 2 ^ 27 + imm * 2 ^ 26 + o * 2 ^ 5 + r
  | [op; reg; imm; o; r] => op * 2 ^ 27 + reg * 2 ^ 22 + imm * 2 ^ 21 + o * 2 ^ 5 + r
  | op :: _ => op * 2 ^ 27
  | [] => 0
  end.

Lemma shl_wrap_mod x k : 0 <= k -> shl_wrap x k = (x * 2 ^ k) mod u32_modulus.
Proof. intros. unfold shl_wrap, wrap32. by rewrite Z.shiftl_mul_pow2. Qed.

(** [+=] on [u32]: the wrapped sum, or, with checks, the add-overflow
    panic. *)
Lemma add32_mod p a b :
  match add32 p a b with
  | Ok c => c = (a + b) mod u32_modulus
  | Err f => p = Debug /\ f = Overflow OpAdd
  end.
Proof. unfold add32, wrap32. destruct p; cbn; [case_bool_decide|]; done. Qed.

(** [add_chain] follows the checked additions of the encoder: each
    returns the wrapped sum or the overflow panic. *)
Ltac add_chain :=
  repeat match goal with
  | |- context [add32 ?p ?a ?b] =>
      let E := fresh "E" in pose proof (add32_mod p a b) as E;
      destruct (add32 p a b); cbn [mbind res_bind];
        [subst; rewrite ?Zplus_mod_idemp_l, ?Zplus_mod_idemp_r | exact E]
  end.

Lemma encode_value p v :
  v ≠ [] ->
  match encode_instr p v with
  | Ok w => w = format_sum v mod u32_modulus
  | Err f => p = Debug /\ f = Overflow OpAdd
  end.
Proof.
  intros Hv. unfold encode_instr.
  destruct v as [|op [|x1 [|x2 [|x3 [|x4 [|x5 rest]]]]]]; [done|..];
    replace (nth_res _ 0) with (Ok op : res Z) by done; cbn [format_sum]; rewrite bind_Ok_l;
    rewrite ?shl_wrap_mod by lia; add_chain; done.
Qed.

(** C23: what the encoder computes for any vector the parser can hand
    it: the word of the spec's format table taken modulo [2^32] (the
    shifts drop high bits and a release build's [+=] wraps), or, in a
    debug build only, the add-overflow panic of a [+=].  In particular
    a release build never fails on a non-empty vector. *)
Theorem encode_spec p v :
  v ≠ [] ->
  match encode_instr p v with
  | Ok w => w = format_sum v mod u32_modulus
  | Err f => p = Debug /\ f = Overflow OpAdd
  end.
Proof. apply encode_value. Qed.

(** [braz r40,0]: the register does not fit its five bits. *)
Lemma encode_spec_witness :
  match encode_instr Release [16; 40; 0] with
  | Ok w => w = format_sum [16; 40; 0] mod u32_modulus
  | Err f => Release = Debug /\ f = Overflow OpAdd
  end.
Proof. apply (encode_spec Release [16; 40; 0]). discriminate. Defined.

(** The encoder's [+=] panics in a debug build when the fields do not
    fit: [scall 4294967295] aborts the assembly, while a release build
    wraps the sum around. *)
Lemma encode_debug_overflow :
  encode_instr Debug [18; 4294967295] = Err (Overflow OpAdd) /\
  encode_instr Release [18; 4294967295] = Ok 2415919103.
Proof. split; reflexivity. Qed.

End Encoder.
