(* ===== verification/Decoder.v ===== *)
(** * The decoder: [Instruction::decode]

    [src/vm.rs], lines 3-31.  A word is decoded into a flat record that
    carries every field of every format at once, by fixed mask/shift
    pairs; the executor then reads only the fields its opcode needs.

    A field is the [n]-bit slice at bit [k], [field w k n]; [decode_spec]
    shows each mask/shift pair of the code computes the slice the spec's
    table names.  The round-trip theorems compose the encoder of
    [Encoder] with [decode]: for each format, the fields the format
    carries come back unchanged when they fit their widths, and
    conversely every 32-bit word is the encoding of its own decoded
    fields (the decoder loses nothing).  [decode_range] bounds every
    field by its width, and [encode_wide_fields] shows how a field that
    does not fit its width carries into the fields above it.  The class [Codec] with its laws [CodecLaws]
    states the per-format round trip as the contract between the
    assembler and the VM; [simji_codec_laws] discharges it. *)

From S2P Require Import Prelude Encoder.
Import Encoder.

Module Decoder.

(** ** The decoded instruction (the Rust struct [Instruction]) *)

Record Instruction := mkInstruction {
  instr_num : Z;   (** bits 31-27: the opcode *)
  imm1 : Z;        (** bit 26: format D's immediate flag *)
  o1 : Z;          (** bits 25-5: format D's target *)
  r1 : Z;          (** bits 26-22: formats C and E's first register *)
  imm2 : Z;        (** bit 21: format E's immediate flag *)
  o2 : Z;          (** bits 20-5: format E's second operand *)
  r2 : Z;          (** bits 4-0: formats D and E's destination register *)
  a : Z;           (** bits 21-0: format C's address *)
  n : Z            (** bits 26-0: format B's syscall number *)
}.

(** [Instruction::decode] *)
Definition decode (instruction : Z) : Instruction := {|
  instr_num := Z.shiftr (Z.land instruction 0xF8000000) 27;
  imm1 := Z.shiftr (Z.land instruction 0x04000000) 26;
  o1 := Z.shiftr (Z.land instruction 0x03FFFFE0) 5;
  r1 := Z.shiftr (Z.land instruction 0x07C00000) 22;
  imm2 := Z.shiftr (Z.land instruction 0x00200000) 21;
  o2 := Z.shiftr (Z.land instruction 0x001FFFE0) 5;
  r2 := Z.land instruction 0x0000001F;
  a := Z.land instruction 0x003FFFFF;
  n := Z.land instruction 0x07FFFFFF
|}.

(** ** Bit slices *)

(** The [n]-bit field of [w] starting at bit [k]. *)
Definition field (w k n : Z) : Z := (w / 2 ^ k) mod 2 ^ n.

Lemma field_low w n : 0 <= n -> Z.land w (Z.ones n) = field w 0 n.
Proof. intros. unfold field. rewrite Z.land_ones by lia. by rewrite Z.div_1_r. Qed.

Lemma field_mask w k n : 0 <= n -> 0 <= k ->
  Z.shiftr (Z.land w (Z.shiftl (Z.ones n) k)) k = field w k n.
Proof. apply land_mask_shiftr. Qed.

Lemma field_range w k n : 0 <= n -> 0 <= field w k n < 2 ^ n.
Proof. intros. unfold field. apply Z.mod_pos_bound. lia. Qed.

(** A field reads back the value placed at its position, whatever lies
    above it, as long as what lies below fits under it. *)
Lemma field_at w k n f hi lo :
  0 <= k -> 0 <= n -> 0 <= f < 2 ^ n -> 0 <= lo < 2 ^ k ->
  w = hi * 2 ^ (k + n) + f * 2 ^ k + lo -> field w k n = f.
Proof.
  intros Hk Hn Hf Hlo ->. unfold field.
  replace (hi * 2 ^ (k + n) + f * 2 ^ k + lo) with ((hi * 2 ^ n + f) * 2 ^ k + lo)
    by (rewrite Z.pow_add_r by lia; ring).
  rewrite pack_div by lia. by rewrite pack_mod by lia.
Qed.

(** The low [k + n] bits are the field at [k] above the low [k] bits. *)
Lemma field_split w k n m : 0 <= k -> 0 <= n -> m = k + n ->
  w mod 2 ^ m = field w k n * 2 ^ k + w mod 2 ^ k.
Proof.
  intros Hk Hn ->. unfold field. rewrite Z.pow_add_r, Z.rem_mul_r by lia. lia.
Qed.

(** The mask/shift pairs of the code are the slices of the spec's table. *)
Lemma decode_spec w : decode w = {|
  instr_num := field w 27 5; imm1 := field w 26 1; o1 := field w 5 21;
  r1 := field w 22 5; imm2 := field w 21 1; o2 := field w 5 16;
  r2 := field w 0 5; a := field w 0 22; n := field w 0 27 |}.
Proof.
  unfold decode.
  f_equal;
    first [ rewrite <- field_mask by lia; reflexivity
          | rewrite <- field_low by lia; reflexivity ].
Qed.

(** [dec_field] proves [field w k n = f] for a word [w] written as a sum
    of shifted fields, given the parts above and below the field. *)
Ltac dec_field hi lo :=
  eapply (field_at _ _ _ _ hi lo); unfold fits in *; simpl; lia.

(** [split_word w] states the decomposition of a [u32] word into its
    format fields, for [lia]. *)
Ltac split_word w :=
  assert (w mod 2 ^ 32 = w) by (apply Z.mod_small; u32_lia);
  pose proof (field_split w 27 5 32 ltac:(lia) ltac:(lia) eq_refl); pose proof (field_split w 26 1 27 ltac:(lia) ltac:(lia) eq_refl);
  pose proof (field_split w 22 5 27 ltac:(lia) ltac:(lia) eq_refl); pose proof (field_split w 21 1 22 ltac:(lia) ltac:(lia) eq_refl);
  pose proof (field_split w 5 21 26 ltac:(lia) ltac:(lia) eq_refl); pose proof (field_split w 5 16 21 ltac:(lia) ltac:(lia) eq_refl);
  assert (field w 0 5 = w mod 2 ^ 5) by (unfold field; by rewrite Z.div_1_r);
  assert (field w 0 22 = w mod 2 ^ 22) by (unfold field; by rewrite Z.div_1_r);
  assert (field w 0 27 = w mod 2 ^ 27) by (unfold field; by rewrite Z.div_1_r);
  simpl in *.

(** Every field of a decoded word fits its width. *)
Lemma decode_range w :
  let d := decode w in
  fits 5 (instr_num d) /\ fits 1 (imm1 d) /\ fits 21 (o1 d) /\ fits 5 (r1 d) /\
  fits 1 (imm2 d) /\ fits 16 (o2 d) /\ fits 5 (r2 d) /\ fits 22 (a d) /\ fits 27 (n d).
Proof. rewrite decode_spec. simpl. unfold fits. split_and!; apply field_range; lia. Qed.

(** ** Round trips: decode after encode *)

(** Format E ([add] ... [store]): the opcode, both registers, the
    immediate flag and the 16-bit operand come back from the word. *)
Lemma roundtrip_E p op reg imm o r :
  fits 5 op -> fits 5 reg -> fits 1 imm -> fits 16 o -> fits 5 r ->
  exists w, encode_instr p [op; reg; imm; o; r] = Ok w /\ is_u32 w /\
    instr_num (decode w) = op /\ r1 (decode w) = reg /\ imm2 (decode w) = imm /\
    o2 (decode w) = o /\ r2 (decode w) = r.
Proof.
  intros. eexists. split; [by apply encode_E_value|]. rewrite decode_spec. simpl.
  split; [unfold fits, is_u32, u32_modulus in *; simpl; lia|]. split_and!.
  - dec_field 0 (reg * 2 ^ 22 + imm * 2 ^ 21 + o * 2 ^ 5 + r).
  - dec_field op (imm * 2 ^ 21 + o * 2 ^ 5 + r).
  - dec_field (op * 2 ^ 5 + reg) (o * 2 ^ 5 + r).
  - dec_field (op * 2 ^ 6 + reg * 2 + imm) r.
  - dec_field (op * 2 ^ 22 + reg * 2 ^ 17 + imm * 2 ^ 16 + o) 0.
Qed.

(** Format D ([jmp]): the opcode, the immediate flag, the 21-bit
    target and the link register come back from the word. *)
Lemma roundtrip_D p op imm o r :
  fits 5 op -> fits 1 imm -> fits 21 o -> fits 5 r ->
  exists w, encode_instr p [op; imm; o; r] = Ok w /\ is_u32 w /\
    instr_num (decode w) = op /\ imm1 (decode w) = imm /\
    o1 (decode w) = o /\ r2 (decode w) = r.
Proof.
  intros. eexists. split; [by apply encode_D_value|]. rewrite decode_spec. simpl.
  split; [unfold fits, is_u32, u32_modulus in *; simpl; lia|]. split_and!.
  - dec_field 0 (imm * 2 ^ 26 + o * 2 ^ 5 + r).
  - dec_field op (o * 2 ^ 5 + r).
  - dec_field (op * 2 + imm) r.
  - dec_field (op * 2 ^ 22 + imm * 2 ^ 21 + o) 0.
Qed.

(** The format E fields over a format D word: [r1] reads the immediate
    flag and the top four bits of the target, [o2] its low sixteen
    bits. *)
Lemma decode_D_overlap p op imm o r w :
  fits 5 op -> fits 1 imm -> fits 21 o -> fits 5 r ->
  encode_instr p [op; imm; o; r] = Ok w ->
  r1 (decode w) = imm * 16 + o / 2 ^ 17 /\ o2 (decode w) = o mod 2 ^ 16.
Proof.
  intros ? ? ? ? Hw. rewrite encode_D_value in Hw by done. apply Ok_inj in Hw as <-.
  rewrite decode_spec. simpl. split.
  - eapply (field_at _ _ _ _ op ((o mod 2 ^ 17) * 2 ^ 5 + r)); unfold fits in *; simpl;
      Z.div_mod_to_equations; lia.
  - eapply (field_at _ _ _ _ (op * 2 ^ 6 + imm * 2 ^ 5 + o / 2 ^ 16) r); unfold fits in *; simpl;
      Z.div_mod_to_equations; lia.
Qed.

(** Format C ([braz], [branz]): the opcode, the register and the
    22-bit address come back from the word. *)
Lemma roundtrip_C p op reg addr :
  fits 5 op -> fits 5 reg -> fits 22 addr ->
  exists w, encode_instr p [op; reg; addr] = Ok w /\ is_u32 w /\
    instr_num (decode w) = op /\ r1 (decode w) = reg /\ a (decode w) = addr.
Proof.
  intros. eexists. split; [by apply encode_C_value|]. rewrite decode_spec. simpl.
  split; [unfold fits, is_u32, u32_modulus in *; simpl; lia|]. split_and!.
  - dec_field 0 (reg * 2 ^ 22 + addr).
  - dec_field op addr.
  - dec_field (op * 2 ^ 5 + reg) 0.
Qed.

(** Formats A and B ([stop], [scall]): the opcode and the 27-bit
    number come back from the word. *)
Lemma roundtrip_AB p op num :
  fits 5 op -> fits 27 num ->
  (exists w, encode_instr p [op] = Ok w /\ instr_num (decode w) = op) /\
  (exists w, encode_instr p [op; num] = Ok w /\ is_u32 w /\
     instr_num (decode w) = op /\ n (decode w) = num).
Proof.
  intros. split.
  - eexists. split; [by apply encode_A_value|]. rewrite decode_spec. simpl.
    dec_field 0 0.
  - eexists. split; [by apply encode_B_value|]. rewrite decode_spec. simpl.
    split; [unfold fits, is_u32, u32_modulus in *; simpl; lia|]. split.
    + dec_field 0 num.
    + dec_field op 0.
Qed.

(** ** Round trips: encode after decode *)

(** C13: every 32-bit word is the format E encoding of its own decoded
    fields (and the same holds for formats B, C and D): decoding loses
    no bit. *)
Theorem encode_decode p w :
  is_u32 w ->
  let d := decode w in
  encode_instr p [instr_num d; n d] = Ok w /\
  encode_instr p [instr_num d; r1 d; a d] = Ok w /\
  encode_instr p [instr_num d; imm1 d; o1 d; r2 d] = Ok w /\
  encode_instr p [instr_num d; r1 d; imm2 d; o2 d; r2 d] = Ok w.
Proof.
  intros Hw. pose proof (decode_range w) as Hr. cbv zeta in Hr |- *.
  rewrite !decode_spec in Hr |- *. simpl in Hr |- *. destruct_and! Hr.

  rewrite encode_B_value, encode_C_value, encode_D_value, encode_E_value by done.
  split_word w. split_and!; f_equal; lia.
Qed.

(** ** Fields that do not fit *)

(** A field below bit 32 does not see the bits the wrap-around drops. *)
Lemma field_wrap x k n :
  0 <= k -> 0 <= n -> k + n <= 32 -> field (x mod u32_modulus) k n = field x k n.
Proof.
  intros. unfold field, u32_modulus.
  replace (2 ^ 32) with (2 ^ k * 2 ^ (32 - k)) by (rewrite <- Z.pow_add_r by lia; f_equal; lia).
  rewrite Z.rem_mul_r by lia. rewrite (Z.mul_comm (2 ^ k)), Z.div_add by lia.
  rewrite (Z.div_small (x mod 2 ^ k)) by (apply Z.mod_pos_bound; lia). rewrite Z.add_0_l.
  apply Z.mod_mod_divide. exists (2 ^ (32 - k - n)). rewrite <- Z.pow_add_r by lia. f_equal. lia.
Qed.

(** What lies below a field carries into it: the field reads its own
    value plus the overflow of the bits below, modulo its width. *)
Lemma field_carry w k n K hi f lo :
  0 <= k -> 0 <= n -> K = k + n -> w = hi * 2 ^ K + f * 2 ^ k + lo ->
  field w k n = (f + lo / 2 ^ k) mod 2 ^ n.
Proof.
  intros Hk Hn -> ->. unfold field.
  replace (hi * 2 ^ (k + n) + f * 2 ^ k + lo) with ((hi * 2 ^ n + f) * 2 ^ k + lo)
    by (rewrite Z.pow_add_r by lia; ring).
  rewrite Z.div_add_l by lia.
  replace (hi * 2 ^ n + f + lo / 2 ^ k) with (f + lo / 2 ^ k + hi * 2 ^ n) by ring.
  apply Z.mod_add. lia.
Qed.

(** The overflow of [x * 2^k + y] past bit [k + m]. *)
Lemma div_carry x y k m K :
  0 <= k -> 0 <= m -> K = k + m -> (x * 2 ^ k + y) / 2 ^ K = (x + y / 2 ^ k) / 2 ^ m.
Proof.
  intros Hk Hm ->. rewrite Z.pow_add_r, <- Z.div_div by lia.
  by rewrite Z.div_add_l by lia.
Qed.

(** C24: the assembler never checks field widths and the encoder adds
    the shifted fields, so a field too wide for its slot carries into
    the slots above it.  For a format E vector with any non-negative
    fields, the word the encoder returns (in either build) decodes, from
    the lowest field up, as each field plus the overflow [c] of the one
    below, modulo the field's width: a register of 32 or more changes
    the opcode, an operand of [2^16] or more the flag and the register. *)
Theorem encode_wide_fields p op reg imm o r w :
  0 <= op -> 0 <= reg -> 0 <= imm -> 0 <= o -> 0 <= r ->
  encode_instr p [op; reg; imm; o; r] = Ok w ->
  let c1 := r / 2 ^ 5 in
  let c2 := (o + c1) / 2 ^ 16 in
  let c3 := (imm + c2) / 2 in
  let c4 := (reg + c3) / 2 ^ 5 in
  r2 (decode w) = r mod 2 ^ 5 /\ o2 (decode w) = (o + c1) mod 2 ^ 16 /\
  imm2 (decode w) = (imm + c2) mod 2 /\ r1 (decode w) = (reg + c3) mod 2 ^ 5 /\
  instr_num (decode w) = (op + c4) mod 2 ^ 5.
Proof.
  intros Hop Hreg Himm Ho Hr Hw. cbv zeta.
  pose proof (encode_value p [op; reg; imm; o; r] ltac:(discriminate)) as Hv.
  rewrite Hw in Hv. subst w. rewrite decode_spec. cbn [r2 o2 imm2 r1 instr_num format_sum].
  rewrite !field_wrap by lia.
  assert (E21 : (o * 2 ^ 5 + r) / 2 ^ 21 = (o + r / 2 ^ 5) / 2 ^ 16) by (apply div_carry; lia).
  assert (E22 : (imm * 2 ^ 21 + (o * 2 ^ 5 + r)) / 2 ^ 22 = (imm + (o + r / 2 ^ 5) / 2 ^ 16) / 2).
  { rewrite (div_carry _ _ 21 1 22), E21 by lia. by rewrite Z.pow_1_r. }
  assert (E27 : (reg * 2 ^ 22 + (imm * 2 ^ 21 + (o * 2 ^ 5 + r))) / 2 ^ 27 =
                (reg + (imm + (o + r / 2 ^ 5) / 2 ^ 16) / 2) / 2 ^ 5).
  { by rewrite (div_carry _ _ 22 5 27), E22 by lia. }
  split_and!.
  - rewrite (field_carry _ 0 5 5 (op * 2 ^ 22 + reg * 2 ^ 17 + imm * 2 ^ 16 + o) r 0) by (lia || ring).
    by rewrite Z.div_0_l, Z.add_0_r.
  - by rewrite (field_carry _ 5 16 21 (op * 2 ^ 6 + reg * 2 + imm) o r) by (lia || ring).
  - rewrite (field_carry _ 21 1 22 (op * 2 ^ 5 + reg) imm (o * 2 ^ 5 + r)) by (lia || ring).
    by rewrite E21, Z.pow_1_r.
  - rewrite (field_carry _ 22 5 27 op reg (imm * 2 ^ 21 + (o * 2 ^ 5 + r))) by (lia || ring).
    by rewrite E22.
  - rewrite (field_carry _ 27 5 32 0 op (reg * 2 ^ 22 + (imm * 2 ^ 21 + (o * 2 ^ 5 + r))))
      by (lia || ring).
    by rewrite E27.
Qed.

(** [add r1,65536,r2]: the operand overflows into the flag. *)
Lemma encode_wide_fields_witness :
  let c1 := 2 / 2 ^ 5 in
  let c2 := (65536 + c1) / 2 ^ 16 in
  let c3 := (1 + c2) / 2 in
  let c4 := (1 + c3) / 2 ^ 5 in
  r2 (decode 142606338) = 2 mod 2 ^ 5 /\ o2 (decode 142606338) = (65536 + c1) mod 2 ^ 16 /\
  imm2 (decode 142606338) = (1 + c2) mod 2 /\ r1 (decode 142606338) = (1 + c3) mod 2 ^ 5 /\
  instr_num (decode 142606338) = (1 + c4) mod 2 ^ 5.
Proof. apply (encode_wide_fields Release 1 1 1 65536 2); [lia.. | reflexivity]. Defined.

(** A register index of
    32 or more carries into the opcode: the vector of [braz r40,0]
    encodes a [branz] (opcode 17) on register 8. *)
Theorem encode_wide_register p :
  exists w, encode_instr p [16; 40; 0] = Ok w /\
    instr_num (decode w) = 17 /\ r1 (decode w) = 8.
Proof. destruct p; eexists; split; [reflexivity| |reflexivity|]; split; reflexivity. Qed.

(** An immediate of [2^16] in format E sets the register
    field instead: [add r1,65536,r2] decodes as [add r2,r0,r2] with the
    immediate flag cleared. *)
Theorem encode_wide_immediate p :
  exists w, encode_instr p [1; 1; 1; 65536; 2] = Ok w /\
    r1 (decode w) = 2 /\ imm2 (decode w) = 0 /\ o2 (decode w) = 0 /\ r2 (decode w) = 2.
Proof. destruct p; eexists; split; [reflexivity| |reflexivity|]; split_and!; reflexivity. Qed.

(** ** Round-trip theorems *)

(** C1: format E ([add] ... [store]): decoding the encoder's word gives
    back the opcode, both registers, the immediate flag and the 16-bit
    operand, in either build profile, when every field fits its width. *)
Theorem decode_encode_E p op reg imm o r :
  fits 5 op -> fits 5 reg -> fits 1 imm -> fits 16 o -> fits 5 r ->
  exists w, encode_instr p [op; reg; imm; o; r] = Ok w /\ is_u32 w /\
    instr_num (decode w) = op /\ r1 (decode w) = reg /\ imm2 (decode w) = imm /\
    o2 (decode w) = o /\ r2 (decode w) = r.
Proof. apply roundtrip_E. Qed.

Lemma decode_encode_E_witness :
  exists w, encode_instr Debug [1; 1; 1; 3; 3] = Ok w /\ is_u32 w /\
    instr_num (decode w) = 1 /\ r1 (decode w) = 1 /\ imm2 (decode w) = 1 /\
    o2 (decode w) = 3 /\ r2 (decode w) = 3.
Proof. apply (decode_encode_E Debug 1 1 1 3 3); unfold fits; simpl; lia. Defined.

(** C10: format D ([jmp]): decoding the encoder's word gives back the
    opcode, the immediate flag, the 21-bit target and the link register
    when every field fits its width. *)
Theorem decode_encode_D p op imm o r :
  fits 5 op -> fits 1 imm -> fits 21 o -> fits 5 r ->
  exists w, encode_instr p [op; imm; o; r] = Ok w /\ is_u32 w /\
    instr_num (decode w) = op /\ imm1 (decode w) = imm /\
    o1 (decode w) = o /\ r2 (decode w) = r.
Proof. apply roundtrip_D. Qed.

Lemma decode_encode_D_witness :
  exists w, encode_instr Release [15; 1; 2097151; 7] = Ok w /\ is_u32 w /\
    instr_num (decode w) = 15 /\ imm1 (decode w) = 1 /\
    o1 (decode w) = 2097151 /\ r2 (decode w) = 7.
Proof. apply (decode_encode_D Release 15 1 2097151 7); unfold fits; simpl; lia. Defined.

(** C11: format C ([braz], [branz]): decoding the encoder's word gives back
    the opcode, the register and the 22-bit address when every field
    fits its width. *)
Theorem decode_encode_C p op reg addr :
  fits 5 op -> fits 5 reg -> fits 22 addr ->
  exists w, encode_instr p [op; reg; addr] = Ok w /\ is_u32 w /\
    instr_num (decode w) = op /\ r1 (decode w) = reg /\ a (decode w) = addr.
Proof. apply roundtrip_C. Qed.

Lemma decode_encode_C_witness :
  exists w, encode_instr Debug [16; 1; 4194303] = Ok w /\ is_u32 w /\
    instr_num (decode w) = 16 /\ r1 (decode w) = 1 /\ a (decode w) = 4194303.
Proof. apply (decode_encode_C Debug 16 1 4194303); unfold fits; simpl; lia. Defined.

(** C12: formats A and B ([stop], [scall]): decoding the encoder's word
    gives back the opcode, and for format B the 27-bit number. *)
Theorem decode_encode_AB p op num :
  fits 5 op -> fits 27 num ->
  (exists w, encode_instr p [op] = Ok w /\ instr_num (decode w) = op) /\
  (exists w, encode_instr p [op; num] = Ok w /\ is_u32 w /\
     instr_num (decode w) = op /\ n (decode w) = num).
Proof. apply roundtrip_AB. Qed.

Lemma decode_encode_AB_witness :
  (exists w, encode_instr Debug [18] = Ok w /\ instr_num (decode w) = 18) /\
  (exists w, encode_instr Debug [18; 134217727] = Ok w /\ is_u32 w /\
     instr_num (decode w) = 18 /\ n (decode w) = 134217727).
Proof. apply (decode_encode_AB Debug 18 134217727); unfold fits; simpl; lia. Defined.

Lemma encode_decode_witness :
  let d := decode 4294967295 in
  encode_instr Debug [instr_num d; n d] = Ok 4294967295 /\
  encode_instr Debug [instr_num d; r1 d; a d] = Ok 4294967295 /\
  encode_instr Debug [instr_num d; imm1 d; o1 d; r2 d] = Ok 4294967295 /\
  encode_instr Debug [instr_num d; r1 d; imm2 d; o2 d; r2 d] = Ok 4294967295.
Proof. apply (encode_decode Debug 4294967295). u32_lia. Defined.

(** ** The codec contract between the assembler and the VM

    What the encoder of the assembler promises the decoder of the VM,
    format by format (the table of §4.3): a word built from fields that
    fit their widths decodes to those fields.  [Codec] bundles an encoder
    and a decoder, [CodecLaws] the promise.  The instance for
    [encode_instr] and [decode] is discharged by the round trips above;
    the VM's per-instruction lemmas are proved from the laws. *)
Class Codec := {
  codec_encode : profile -> list Z -> res Z;
  codec_decode : Z -> Instruction
}.

Class CodecLaws (C : Codec) := {
  codec_E p op reg imm o r :
    fits 5 op -> fits 5 reg -> fits 1 imm -> fits 16 o -> fits 5 r ->
    exists w, codec_encode p [op; reg; imm; o; r] = Ok w /\ is_u32 w /\
      instr_num (codec_decode w) = op /\ r1 (codec_decode w) = reg /\
      imm2 (codec_decode w) = imm /\ o2 (codec_decode w) = o /\ r2 (codec_decode w) = r;
  codec_D p op imm o r :
    fits 5 op -> fits 1 imm -> fits 21 o -> fits 5 r ->
    exists w, codec_encode p [op; imm; o; r] = Ok w /\ is_u32 w /\
      instr_num (codec_decode w) = op /\ imm1 (codec_decode w) = imm /\
      o1 (codec_decode w) = o /\ r2 (codec_decode w) = r;
  codec_C p op reg addr :
    fits 5 op -> fits 5 reg -> fits 22 addr ->
    exists w, codec_encode p [op; reg; addr] = Ok w /\ is_u32 w /\
      instr_num (codec_decode w) = op /\ r1 (codec_decode w) = reg /\ a (codec_decode w) = addr;
  codec_AB p op num :
    fits 5 op -> fits 27 num ->
    (exists w, codec_encode p [op] = Ok w /\ instr_num (codec_decode w) = op) /\
    (exists w, codec_encode p [op; num] = Ok w /\ is_u32 w /\
       instr_num (codec_decode w) = op /\ n (codec_decode w) = num)
}.

#[export] Instance simji_codec : Codec := {| codec_encode := encode_instr; codec_decode := decode |}.

#[export] Instance simji_codec_laws : CodecLaws simji_codec.
Proof. split; [exact roundtrip_E | exact roundtrip_D | exact roundtrip_C | exact roundtrip_AB]. Qed.

(** [codec_unfold] reads the codec of the program back as [encode_instr]
    and [decode]. *)
Ltac codec_unfold :=
  change (@codec_encode simji_codec) with encode_instr in *;
  change (@codec_decode simji_codec) with decode in *.

End Decoder.
