(* ===== verification/VM.v ===== *)
(** * The virtual machine: [VM::new], [fetch], [eval], [run]

    [src/vm.rs], lines 1 and 33-241.  The state is the Rust struct [VM]:
    eight [u32] registers, the program (a vector of words) and the
    program counter.  One cycle of [VM::run] fetches [program[pc]] and
    increments [pc], decodes the word, and evaluates it; [eval] returns
    [false] to halt (opcode 0 or an unknown opcode).  Every register
    access is a bounds-checked array index: a decoded register field is
    five bits wide (the operand field [o2] sixteen, [o1] twenty-one), so
    an index of 8 or more panics, as does a fetch past the end of the
    program, a division by zero, and (in a debug build) an arithmetic
    overflow.

    [cycle] is one iteration of the loop; [run] iterates it with fuel.
    The theorems give the behaviour of each opcode class, the register
    invariant of every state [reachable] from [VM::new], that a run
    halts only after a [stop] or an unknown opcode, and the halting of
    straight-line programs. *)

From S2P Require Import Prelude Encoder Decoder.
Import Encoder Decoder.

Module Machine.

(** ** State *)

Definition NUM_REGS : nat := 8.

Record VM := mkVM {
  regs : list Z;     (** [regs: [u32; NUM_REGS]] *)
  program : list Z;  (** [program: Vec<u32>] *)
  pc : Z             (** [pc: u32] *)
}.

Definition set_regs (vm : VM) (r : list Z) : VM := mkVM r (program vm) (pc vm).
Definition set_pc (vm : VM) (v : Z) : VM := mkVM (regs vm) (program vm) v.

(** [VM::new] *)
Definition new (prog : list Z) : VM := mkVM (replicate NUM_REGS 0) prog 0.

(** [self.regs[i as usize]] (read). *)
Definition reg_get (r : list Z) (i : Z) : res Z := nth_res r i.

(** [self.regs[i as usize] = v] (write): the index is checked. *)
Definition reg_set (r : list Z) (i v : Z) : res (list Z) :=
  if bool_decide (i < Z.of_nat (length r)) then Ok (<[Z.to_nat i := v]> r)
  else Err (IndexOOB i (Z.of_nat (length r))).

(** ** [fetch] *)

Definition fetch (p : profile) (vm : VM) : res (Z * VM) :=
  value ← nth_res (program vm) (pc vm);
  pc' ← add32 p (pc vm) 1;
  Ok (value, set_pc vm pc').

(** ** [eval] *)

(** The second operand of format E: register [o2] when the flag is 0,
    the literal [o2] otherwise. *)
Definition operand2 (vm : VM) (instr : Instruction) : res Z :=
  if bool_decide (imm2 instr = 0) then reg_get (regs vm) (o2 instr) else Ok (o2 instr).

(** The operator of opcodes 1 to 12. *)
Definition alu (p : profile) (op x y : Z) : res Z :=
  match op with
  | 1 => add32 p x y
  | 2 => sub32 p x y
  | 3 => mul32 p x y
  | 4 => div32 x y
  | 5 => Ok (Z.land x y)
  | 6 => Ok (Z.lor x y)
  | 7 => Ok (Z.lxor x y)
  | 8 => shl32 p x y
  | 9 => shr32 p x y
  | 10 => Ok (if bool_decide (x < y) then 1 else 0)
  | 11 => Ok (if bool_decide (x <= y) then 1 else 0)
  | 12 => Ok (if bool_decide (x = y) then 1 else 0)
  | _ => Ok 0
  end.

(** Opcodes 1 to 12: [self.regs[r2] = self.regs[r1] <op> operand2].  The
    right-hand side is evaluated before the destination index is
    checked. *)
Definition eval_alu (p : profile) (vm : VM) (instr : Instruction) : res VM :=
  x ← reg_get (regs vm) (r1 instr);
  y ← operand2 vm instr;
  v ← alu p (instr_num instr) x y;
  r ← reg_set (regs vm) (r2 instr) v;
  Ok (set_regs vm r).

(** Opcode 15: the link register [r2] receives [self.pc + 1] (the [pc]
    has already been incremented by [fetch]), then the [pc] is set to
    the literal [o1] or to the register [o1], read after the link
    register was written. *)
Definition eval_jmp (p : profile) (vm : VM) (instr : Instruction) : res VM :=
  link ← add32 p (pc vm) 1;
  r ← reg_set (regs vm) (r2 instr) link;
  if bool_decide (imm1 instr = 0) then
    target ← reg_get r (o1 instr); Ok (mkVM r (program vm) target)
  else Ok (mkVM r (program vm) (o1 instr)).

(** Opcode 16: branch to [a] if register [r1] is zero. *)
Definition eval_braz (vm : VM) (instr : Instruction) : res VM :=
  v ← reg_get (regs vm) (r1 instr);
  Ok (if bool_decide (v = 0) then set_pc vm (a instr) else vm).

(** Opcode 17: branch to [a] if register [r1] is not zero. *)
Definition eval_branz (vm : VM) (instr : Instruction) : res VM :=
  v ← reg_get (regs vm) (r1 instr);
  Ok (if bool_decide (v ≠ 0) then set_pc vm (a instr) else vm).

(** [VM::eval]: the new state and whether to continue. *)
Definition eval (p : profile) (vm : VM) (instr : Instruction) : res (VM * bool) :=
  match instr_num instr with
  | 0 => Ok (vm, false)
  | 1 | 2 | 3 | 4 | 5 | 6 | 7 | 8 | 9 | 10 | 11 | 12 =>
      vm' ← eval_alu p vm instr; Ok (vm', true)
  | 13 | 14 => Ok (vm, true)
  | 15 => vm' ← eval_jmp p vm instr; Ok (vm', true)
  | 16 => vm' ← eval_braz vm instr; Ok (vm', true)
  | 17 => vm' ← eval_branz vm instr; Ok (vm', true)
  | 18 => Ok (vm, true)
  | _ => Ok (vm, false)
  end.

(** ** [run] *)

(** One iteration of the loop of [VM::run]. *)
Definition cycle (p : profile) (vm : VM) : res (VM * bool) :=
  '(w, vm1) ← fetch p vm;
  eval p vm1 (decode w).

Inductive outcome :=
| Halted (vm : VM)     (** [eval] returned [false] *)
| Crashed (f : fault)  (** the process panicked *)
| Running (vm : VM).   (** the fuel ran out first *)

(** [VM::run], for at most [fuel] cycles. *)
Fixpoint run (p : profile) (fuel : nat) (vm : VM) : outcome :=
  match fuel with
  | O => Running vm
  | S k =>
      match cycle p vm with
      | Err f => Crashed f
      | Ok (vm', true) => run p k vm'
      | Ok (vm', false) => Halted vm'
      end
  end.

(** ** The register invariant *)

(** Eight registers, each a [u32], and a [u32] program counter. *)
Definition vm_inv (vm : VM) : Prop :=
  length (regs vm) = NUM_REGS /\ Forall is_u32 (regs vm) /\ is_u32 (pc vm).

(** The states [VM::run] goes through from [VM::new prog]. *)
Inductive reachable (p : profile) (prog : list Z) : VM -> Prop :=
| reach_new : reachable p prog (new prog)
| reach_cycle vm vm' : reachable p prog vm -> cycle p vm = Ok (vm', true) -> reachable p prog vm'.

(** ** Lemmas on registers and arithmetic *)

Lemma reg_get_Ok r i v : 0 <= i -> reg_get r i = Ok v <-> r !! Z.to_nat i = Some v.
Proof. apply nth_res_Ok. Qed.

Lemma reg_set_ok r i v :
  0 <= i < Z.of_nat (length r) -> reg_set r i v = Ok (<[Z.to_nat i := v]> r).
Proof. intros. unfold reg_set. by rewrite bool_decide_true by lia. Qed.

Lemma reg_set_inv r i v r' :
  reg_set r i v = Ok r' -> r' = <[Z.to_nat i := v]> r.
Proof. unfold reg_set. case_bool_decide; by intros [= <-]. Qed.

Lemma reg_get_u32 r i v : Forall is_u32 r -> reg_get r i = Ok v -> is_u32 v.
Proof.
  unfold reg_get, nth_res, opt_res. intros Hr Hv.
  destruct (r !! Z.to_nat i) eqn:E; [|done]. injection Hv as <-.
  by eapply Forall_lookup_1.
Qed.

Lemma alu_op_cases op :
  1 <= op <= 12 ->
  op = 1 \/ op = 2 \/ op = 3 \/ op = 4 \/ op = 5 \/ op = 6 \/
  op = 7 \/ op = 8 \/ op = 9 \/ op = 10 \/ op = 11 \/ op = 12.
Proof.
  intros H. rewrite <- (Z2Nat.id op) by lia.
  assert (1 <= Z.to_nat op <= 12)%nat as Hk by lia.
  destruct Hk as [Hlo Hhi]. generalize dependent (Z.to_nat op). intros k Hlo Hhi.
  do 13 (destruct k as [|k]; [simpl; first [lia | repeat (first [left; reflexivity | right]); reflexivity] |]).
  lia.
Qed.

(** [op_cases op] splits [1 <= op <= 12] into the twelve opcodes. *)
Ltac op_cases op :=
  let Hop := fresh "Hop" in
  assert (Hop : 1 <= op <= 12) by lia;
  apply alu_op_cases in Hop; destruct_or! Hop; rewrite Hop in *.

(** Every operator of the ALU yields a [u32] on [u32] operands. *)
Lemma alu_u32 p op x y v :
  1 <= op <= 12 -> is_u32 x -> is_u32 y -> alu p op x y = Ok v -> is_u32 v.
Proof.
  intros Hr Hx Hy H. op_cases op; cbv beta iota delta [alu] in H;
    try (injection H as <-); u32_op.
Qed.

(** ** Lemmas on [fetch] and [eval] *)

Lemma fetch_ok p vm w :
  0 <= pc vm -> pc vm + 1 < u32_modulus -> program vm !! Z.to_nat (pc vm) = Some w ->
  fetch p vm = Ok (w, set_pc vm (pc vm + 1)).
Proof.
  intros. unfold fetch, nth_res, opt_res. rewrite H1. simpl.
  by rewrite add32_exact by lia.
Qed.

(** A cycle at a fetchable [pc] evaluates the decoded word with the
    incremented [pc]. *)
Lemma cycle_at p vm w :
  0 <= pc vm -> pc vm + 1 < u32_modulus -> program vm !! Z.to_nat (pc vm) = Some w ->
  cycle p vm = eval p (set_pc vm (pc vm + 1)) (decode w).
Proof. intros. unfold cycle. by rewrite (fetch_ok p vm w). Qed.

Lemma eval_alu_op p vm i :
  1 <= instr_num i <= 12 -> eval p vm i = (vm' ← eval_alu p vm i; Ok (vm', true)).
Proof.
  intros H. unfold eval. by op_cases (instr_num i).
Qed.

(** Every opcode falls in one of six behaviours. *)
Lemma eval_shape p vm i :
  eval p vm i = Ok (vm, false) \/ eval p vm i = Ok (vm, true) \/
  (1 <= instr_num i <= 12 /\ eval p vm i = (vm' ← eval_alu p vm i; Ok (vm', true))) \/
  eval p vm i = (vm' ← eval_jmp p vm i; Ok (vm', true)) \/
  eval p vm i = (vm' ← eval_braz vm i; Ok (vm', true)) \/
  eval p vm i = (vm' ← eval_branz vm i; Ok (vm', true)).
Proof.
  unfold eval. repeat case_match;
    repeat (first [left; solve [reflexivity | split; [lia | reflexivity]] | right]);
    reflexivity.
Qed.

(** ** Preservation of the invariant *)

Lemma vm_inv_set_reg vm i v :
  vm_inv vm -> is_u32 v -> vm_inv (set_regs vm (<[Z.to_nat i := v]> (regs vm))).
Proof.
  intros (Hlen & Hregs & Hpc) Hv. unfold vm_inv, set_regs. simpl.
  rewrite length_insert. split_and!; [done | by apply Forall_insert | done].
Qed.

Lemma operand2_u32 vm w y :
  Forall is_u32 (regs vm) -> operand2 vm (decode w) = Ok y -> is_u32 y.
Proof.
  unfold operand2. intros Hregs Hy. case_bool_decide; [by eapply reg_get_u32|].
  assert (y = o2 (decode w)) as -> by congruence.
  pose proof (decode_range w) as Hr. cbv zeta in Hr. destruct_and! Hr.
  unfold fits in *. u32_lia.
Qed.

Lemma eval_alu_inv p vm w vm' :
  vm_inv vm -> 1 <= instr_num (decode w) <= 12 -> eval_alu p vm (decode w) = Ok vm' ->
  vm_inv vm' /\ program vm' = program vm.
Proof.
  intros Hinv Hop H. pose proof Hinv as (_ & Hregs & _).
  pose proof (decode_range w) as Hr. cbv zeta in Hr. destruct_and! Hr.
  unfold eval_alu in H. res_inv. subst.
  apply reg_set_inv in Ha2 as ->. split; [|done].
  apply vm_inv_set_reg; [done|]. eapply alu_u32; [done| | |done].
  - by eapply reg_get_u32.
  - by eapply operand2_u32.
Qed.

Lemma eval_jmp_inv p vm w vm' :
  vm_inv vm -> eval_jmp p vm (decode w) = Ok vm' ->
  vm_inv vm' /\ program vm' = program vm.
Proof.
  intros Hinv H. pose proof Hinv as (_ & Hregs & _).
  pose proof (decode_range w) as Hr. cbv zeta in Hr. destruct_and! Hr.
  unfold eval_jmp in H. res_inv.
  apply reg_set_inv in Ha0 as ->.
  assert (vm_inv (set_regs vm (<[Z.to_nat (r2 (decode w)) := a0]> (regs vm))))
    as (Hl & Hf & _) by (apply vm_inv_set_reg; [done | by eapply add32_u32]).
  case_bool_decide; res_inv; subst; (split; [|done]); unfold vm_inv; cbn [pc regs program set_regs] in *.
  - split_and!; [done..|]. by eapply reg_get_u32.
  - split_and!; [done..|]. unfold fits in *. u32_lia.
Qed.

Lemma eval_braz_inv vm w vm' :
  vm_inv vm -> eval_braz vm (decode w) = Ok vm' -> vm_inv vm' /\ program vm' = program vm.
Proof.
  intros (Hl & Hf & Hp) H. pose proof (decode_range w) as Hr. cbv zeta in Hr. destruct_and! Hr.
  unfold eval_braz in H. res_inv. subst.
  case_bool_decide; (split; [|done]); unfold vm_inv; cbn [pc regs program set_regs set_pc] in *; split_and!; try done.
  unfold fits in *. u32_lia.
Qed.

Lemma eval_branz_inv vm w vm' :
  vm_inv vm -> eval_branz vm (decode w) = Ok vm' -> vm_inv vm' /\ program vm' = program vm.
Proof.
  intros (Hl & Hf & Hp) H. pose proof (decode_range w) as Hr. cbv zeta in Hr. destruct_and! Hr.
  unfold eval_branz in H. res_inv. subst.
  case_bool_decide; (split; [|done]); unfold vm_inv; cbn [pc regs program set_regs set_pc] in *; split_and!; try done.
  unfold fits in *. u32_lia.
Qed.

Lemma fetch_inv p vm w vm1 :
  vm_inv vm -> fetch p vm = Ok (w, vm1) -> vm_inv vm1 /\ program vm1 = program vm.
Proof.
  intros (Hl & Hf & Hp) H. unfold fetch in H. res_inv. simplify_eq.
  unfold vm_inv; cbn [set_pc regs program pc]. split_and!; [done..| by eapply add32_u32 | done].
Qed.

Lemma cycle_preserves_inv p vm vm' b :
  vm_inv vm -> cycle p vm = Ok (vm', b) -> vm_inv vm' /\ program vm' = program vm.
Proof.
  intros Hinv H. unfold cycle in H.
  destruct (fetch p vm) as [[w vm1]|] eqn:Hf; simpl in H; [|done].
  destruct (fetch_inv p vm w vm1 Hinv Hf) as [Hinv1 <-].
  destruct (eval_shape p vm1 (decode w)) as [E|[E|[[Hop E]|[E|[E|E]]]]];
    rewrite E in H; res_inv; simplify_eq.
  - done.
  - done.
  - by apply (eval_alu_inv p _ w).
  - by apply (eval_jmp_inv p _ w).
  - by apply (eval_braz_inv _ w).
  - by apply (eval_branz_inv _ w).
Qed.

Lemma new_inv prog : vm_inv (new prog).
Proof.
  unfold vm_inv, new. cbn [regs pc program]. split_and!; [done | | u32_lia].
  apply Forall_replicate. u32_lia.
Qed.

(** ** Behaviour of each opcode on an assembled word *)

Lemma reg_get_lookup r i v : 0 <= i -> r !! Z.to_nat i = Some v -> reg_get r i = Ok v.
Proof. intros. by apply reg_get_Ok. Qed.

Lemma vm_inv_pc vm : vm_inv vm -> 0 <= pc vm.
Proof. intros (_ & _ & Hp). u32_lia. Qed.

(** [at_word] rewrites a cycle at [pc] into the evaluation of the word
    there, given the word's [encode_instr] equation and the codec law of
    its format. *)
Ltac at_word Hw Henc Hw' :=
  codec_unfold; rewrite Henc in Hw'; apply Ok_inj in Hw';
  match type of Hw' with _ = ?w' => subst w' end;
  rewrite (cycle_at _ _ _ ltac:(by apply vm_inv_pc) ltac:(lia) Hw).

(** One cycle on an assembled format E word with opcode 1 to 12. *)
Lemma alu_cycle p vm op rs flag o rd w x y :
  vm_inv vm -> 1 <= op <= 12 -> fits 5 rs -> fits 1 flag -> fits 16 o -> 0 <= rd < 8 ->
  encode_instr p [op; rs; flag; o; rd] = Ok w ->
  program vm !! Z.to_nat (pc vm) = Some w -> pc vm + 1 < u32_modulus ->
  regs vm !! Z.to_nat rs = Some x ->
  (if bool_decide (flag = 0) then regs vm !! Z.to_nat o = Some y else y = o) ->
  cycle p vm =
    match alu p op x y with
    | Ok v => Ok (mkVM (<[Z.to_nat rd := v]> (regs vm)) (program vm) (pc vm + 1), true)
    | Err e => Err e
    end.
Proof.
  intros Hinv Hop Hrs Hfl Ho Hrd Henc Hw Hpc Hx Hy.
  destruct (codec_E p op rs flag o rd) as (w' & Hw' & _ & Hn & Hr1 & Him & Ho2 & Hr2);
    [unfold fits in *; simpl; lia | done.. | unfold fits; simpl; lia |].
  at_word Hw Henc Hw'.
  rewrite eval_alu_op by lia. unfold eval_alu. cbn [regs set_pc].
  rewrite Hr1, (reg_get_lookup _ _ x) by (unfold fits in Hrs; lia || done).
  rewrite bind_Ok_l.
  assert (operand2 (set_pc vm (pc vm + 1)) (decode w) = Ok y) as ->.
  { unfold operand2. rewrite Him, Ho2. cbn [regs set_pc].
    case_bool_decide; [apply reg_get_lookup; [unfold fits in *; lia | done] | by subst]. }
  rewrite bind_Ok_l, Hn. destruct (alu p op x y) as [v|e]; rewrite ?bind_Ok_l; [|done].
  destruct Hinv as (Hlen & _ & _).
  rewrite Hr2, reg_set_ok by (rewrite Hlen; unfold NUM_REGS; lia). done.
Qed.

(** C2: an assembled format E word ([add] ... [seq], opcodes 1 to 12)
    computes its operator on register [rs] and on register [o] (flag 0)
    or the literal [o] (flag 1), writes register [rd] and advances the
    [pc]; an operator fault (division by zero, overflow in a debug
    build) ends the run with nothing written. *)
Theorem cycle_alu p vm op rs flag o rd w x y :
  vm_inv vm -> 1 <= op <= 12 -> fits 5 rs -> fits 1 flag -> fits 16 o -> 0 <= rd < 8 ->
  encode_instr p [op; rs; flag; o; rd] = Ok w ->
  program vm !! Z.to_nat (pc vm) = Some w -> pc vm + 1 < u32_modulus ->
  regs vm !! Z.to_nat rs = Some x ->
  (if bool_decide (flag = 0) then regs vm !! Z.to_nat o = Some y else y = o) ->
  cycle p vm =
    match alu p op x y with
    | Ok v => Ok (mkVM (<[Z.to_nat rd := v]> (regs vm)) (program vm) (pc vm + 1), true)
    | Err e => Err e
    end.
Proof. apply alu_cycle. Qed.

(** One cycle on an assembled [jmp] word. *)
Lemma jmp_cycle p vm flag t rd w :
  vm_inv vm -> fits 1 flag -> fits 21 t -> 0 <= rd < 8 -> (flag = 0 -> t < 8) ->
  encode_instr p [15; flag; t; rd] = Ok w ->
  program vm !! Z.to_nat (pc vm) = Some w -> pc vm + 2 < u32_modulus ->
  let regs' := <[Z.to_nat rd := pc vm + 2]> (regs vm) in
  cycle p vm =
    Ok (mkVM regs' (program vm) (if bool_decide (flag = 0) then regs' !!! Z.to_nat t else t), true).
Proof.
  intros Hinv Hfl Ht Hrd Hreg Henc Hw Hpc regs'.
  destruct (codec_D p 15 flag t rd) as (w' & Hw' & _ & Hn & Him & Ho1 & Hr2);
    [unfold fits; simpl; lia | done.. | unfold fits; simpl; lia |].
  at_word Hw Henc Hw'.
  unfold eval. rewrite Hn. cbv beta iota. unfold eval_jmp. cbn [pc regs program set_pc].
  rewrite add32_exact by (destruct Hinv as (_ & _ & Hp); u32_lia).
  rewrite bind_Ok_l; cbv beta.
  destruct Hinv as (Hlen & _ & _).
  rewrite Hr2, reg_set_ok by (rewrite Hlen; unfold NUM_REGS; lia).
  rewrite bind_Ok_l; cbv beta.
  rewrite Him, Ho1. replace (pc vm + 1 + 1) with (pc vm + 2) by lia. fold regs'.
  case_bool_decide as Hf; [|reflexivity].
  destruct (lookup_lt_is_Some_2 regs' (Z.to_nat t)) as [v Hv].
  { unfold regs'. rewrite length_insert, Hlen. unfold NUM_REGS, fits in *. lia. }
  rewrite (reg_get_lookup _ _ v) by (unfold fits in Ht; lia || done).
  rewrite !bind_Ok_l. by rewrite (list_lookup_total_correct _ _ _ Hv).
Qed.

(** C4: an assembled [jmp] writes [pc + 2] (the address of the [jmp]
    plus two, since [fetch] already advanced the [pc]) to the link
    register [rd], then jumps to the literal [t] (flag 1) or to the
    value of register [t] read after the link was written (flag 0). *)
Theorem cycle_jmp p vm flag t rd w :
  vm_inv vm -> fits 1 flag -> fits 21 t -> 0 <= rd < 8 -> (flag = 0 -> t < 8) ->
  encode_instr p [15; flag; t; rd] = Ok w ->
  program vm !! Z.to_nat (pc vm) = Some w -> pc vm + 2 < u32_modulus ->
  let regs' := <[Z.to_nat rd := pc vm + 2]> (regs vm) in
  cycle p vm =
    Ok (mkVM regs' (program vm) (if bool_decide (flag = 0) then regs' !!! Z.to_nat t else t), true).
Proof. apply jmp_cycle. Qed.

(** A conditional branch at [pc] reads register [r] and evaluates the
    [eval_braz] / [eval_branz] body on it. *)
Lemma cycle_cond p vm op r addr w v :
  vm_inv vm -> 0 <= r < 8 -> fits 5 op -> fits 22 addr ->
  encode_instr p [op; r; addr] = Ok w ->
  program vm !! Z.to_nat (pc vm) = Some w -> pc vm + 1 < u32_modulus ->
  regs vm !! Z.to_nat r = Some v ->
  instr_num (decode w) = op /\ cycle p vm = eval p (set_pc vm (pc vm + 1)) (decode w) /\
  reg_get (regs vm) (r1 (decode w)) = Ok v /\ a (decode w) = addr.
Proof.
  intros Hinv Hr Hop Ha Henc Hw Hpc Hv.
  destruct (codec_C p op r addr) as (w' & Hw' & _ & Hn & Hr1 & Ha');
    [done | unfold fits; simpl; lia | done |].
  at_word Hw Henc Hw'. rewrite Hr1. split_and!; [done | done | | done].
  by apply reg_get_lookup; [lia|].
Qed.

(** One cycle on an assembled [braz] word. *)
Lemma braz_cycle p vm r addr w v :
  vm_inv vm -> 0 <= r < 8 -> fits 22 addr ->
  encode_instr p [16; r; addr] = Ok w ->
  program vm !! Z.to_nat (pc vm) = Some w -> pc vm + 1 < u32_modulus ->
  regs vm !! Z.to_nat r = Some v ->
  cycle p vm = Ok (mkVM (regs vm) (program vm) (if bool_decide (v = 0) then addr else pc vm + 1), true).
Proof.
  intros Hinv Hr Ha Henc Hw Hpc Hv.
  destruct (cycle_cond p vm 16 r addr w v Hinv Hr ltac:(unfold fits; simpl; lia) Ha Henc Hw Hpc Hv)
    as (Hn & -> & Hget & Ha').
  unfold eval. rewrite Hn. cbv beta iota. unfold eval_braz. cbn [regs set_pc].
  rewrite Hget, !bind_Ok_l, Ha'. by case_bool_decide.
Qed.

(** One cycle on an assembled [branz] word. *)
Lemma branz_cycle p vm r addr w v :
  vm_inv vm -> 0 <= r < 8 -> fits 22 addr ->
  encode_instr p [17; r; addr] = Ok w ->
  program vm !! Z.to_nat (pc vm) = Some w -> pc vm + 1 < u32_modulus ->
  regs vm !! Z.to_nat r = Some v ->
  cycle p vm = Ok (mkVM (regs vm) (program vm) (if bool_decide (v ≠ 0) then addr else pc vm + 1), true).
Proof.
  intros Hinv Hr Ha Henc Hw Hpc Hv.
  destruct (cycle_cond p vm 17 r addr w v Hinv Hr ltac:(unfold fits; simpl; lia) Ha Henc Hw Hpc Hv)
    as (Hn & -> & Hget & Ha').
  unfold eval. rewrite Hn. cbv beta iota. unfold eval_branz. cbn [regs set_pc].
  rewrite Hget, !bind_Ok_l, Ha'. by case_bool_decide.
Qed.

(** One cycle on an assembled [stop] word. *)
Lemma stop_cycle p vm w :
  vm_inv vm -> encode_instr p [0] = Ok w ->
  program vm !! Z.to_nat (pc vm) = Some w -> pc vm + 1 < u32_modulus ->
  cycle p vm = Ok (set_pc vm (pc vm + 1), false).
Proof.
  intros Hinv Henc Hw Hpc.
  destruct (codec_AB p 0 0) as [(w' & Hw' & Hn) _]; [unfold fits; simpl; lia..|].
  at_word Hw Henc Hw'. unfold eval. by rewrite Hn.
Qed.

(** ** Runs *)

Lemma run_running p k m vm vm' :
  run p k vm = Running vm' -> run p (k + m) vm = run p m vm'.
Proof.
  revert vm. induction k as [|k IH]; intros vm H; cbn [run Nat.add] in *.
  - by injection H as ->.
  - destruct (cycle p vm) as [[vm1 []]|f]; [by apply IH | done | done].
Qed.

(** Opcode 0 halts. *)
Lemma cycle_halt p vm w :
  0 <= pc vm -> pc vm + 1 < u32_modulus -> program vm !! Z.to_nat (pc vm) = Some w ->
  instr_num (decode w) = 0 -> cycle p vm = Ok (set_pc vm (pc vm + 1), false).
Proof. intros. rewrite (cycle_at p vm w) by done. unfold eval. by rewrite H2. Qed.

(** The words that always fall through in a release build: the no-ops
    [load], [store], [scall], and the operators other than [div] on
    registers below 8. *)
Definition no_op_codes : list Z := [13; 14; 18].
Definition release_alu_codes : list Z := [1; 2; 3; 5; 6; 7; 8; 9; 10; 11; 12].

Definition straight (w : Z) : bool :=
  let d := decode w in
  bool_decide (instr_num d ∈ no_op_codes) ||
  (bool_decide (instr_num d ∈ release_alu_codes) && bool_decide (r1 d < 8) &&
   bool_decide (r2 d < 8) && bool_decide (imm2 d ≠ 0 \/ o2 d < 8)).

Lemma alu_release_ok op x y : op ∈ release_alu_codes -> exists v, alu Release op x y = Ok v.
Proof.
  unfold release_alu_codes. rewrite !elem_of_cons, elem_of_nil.
  intros Hop. destruct_or! Hop; try done; subst; eexists; reflexivity.
Qed.

(** A [straight] word at [pc] advances the [pc] by one in a release
    build. *)
Lemma cycle_straight vm w :
  vm_inv vm -> program vm !! Z.to_nat (pc vm) = Some w -> straight w = true ->
  pc vm + 1 < u32_modulus ->
  exists vm', cycle Release vm = Ok (vm', true) /\ pc vm' = pc vm + 1 /\ program vm' = program vm.
Proof.
  intros Hinv Hw Hs Hpc. pose proof Hinv as (Hlen & _ & Hp).
  rewrite (cycle_at Release vm w) by (u32_lia || done).
  unfold straight in Hs. cbv zeta in Hs. apply orb_true_iff in Hs as [Hs|Hs].
  - apply bool_decide_eq_true in Hs. unfold no_op_codes in Hs.
    rewrite !elem_of_cons, elem_of_nil in Hs.
    eexists. unfold eval. destruct_or! Hs; try done; rewrite Hs; done.
  - apply andb_true_iff in Hs as [Hs Hop2]. apply andb_true_iff in Hs as [Hs Hr2].
    apply andb_true_iff in Hs as [Hop Hr1]. apply bool_decide_eq_true in Hop, Hr1, Hr2, Hop2.
    assert (1 <= instr_num (decode w) <= 12).
    { revert Hop. unfold release_alu_codes. rewrite !elem_of_cons, elem_of_nil. lia. }
    pose proof (decode_range w) as Hr. cbv zeta in Hr. destruct_and! Hr. unfold fits in *.
    rewrite eval_alu_op by done. unfold eval_alu. cbn [regs set_pc].
    destruct (lookup_lt_is_Some_2 (regs vm) (Z.to_nat (r1 (decode w)))) as [x Hx];
      [rewrite Hlen; unfold NUM_REGS; lia|].
    rewrite (reg_get_lookup _ _ x) by (lia || done). rewrite bind_Ok_l.
    assert (exists y, operand2 (set_pc vm (pc vm + 1)) (decode w) = Ok y) as [y ->].
    { unfold operand2. cbn [regs set_pc]. case_bool_decide; [|eauto].
      destruct (lookup_lt_is_Some_2 (regs vm) (Z.to_nat (o2 (decode w)))) as [y Hy];
        [rewrite Hlen; unfold NUM_REGS; lia|].
      exists y. by apply reg_get_lookup; [lia|]. }
    rewrite bind_Ok_l. destruct (alu_release_ok (instr_num (decode w)) x y Hop) as [v ->].
    rewrite bind_Ok_l, reg_set_ok by (rewrite Hlen; unfold NUM_REGS; lia).
    eexists. split; [reflexivity | done].
Qed.

Lemma run_straight k vm :
  vm_inv vm ->
  (forall j, (j < k)%nat -> exists w,
     program vm !! (Z.to_nat (pc vm) + j)%nat = Some w /\ straight w = true) ->
  pc vm + Z.of_nat k < u32_modulus ->
  exists vm', run Release k vm = Running vm' /\ pc vm' = pc vm + Z.of_nat k /\
              program vm' = program vm /\ vm_inv vm'.
Proof.
  revert vm. induction k as [|k IH]; intros vm Hinv Hws Hpc.
  { exists vm. split_and!; [done | lia | done | done]. }
  destruct (Hws O ltac:(lia)) as (w & Hw & Hs). rewrite Nat.add_0_r in Hw.
  destruct (cycle_straight vm w Hinv Hw Hs ltac:(lia)) as (vm1 & Hc & Hpc1 & Hprog1).
  destruct (cycle_preserves_inv Release vm vm1 true Hinv Hc) as [Hinv1 _].
  destruct (IH vm1 Hinv1) as (vm' & Hrun & Hpc' & Hprog' & Hinv'); [| lia |].
  - intros j Hj. destruct (Hws (S j) ltac:(lia)) as (w' & Hw' & Hs').
    exists w'. split; [|done]. rewrite Hprog1, Hpc1.
    replace (Z.to_nat (pc vm + 1) + j)%nat with (Z.to_nat (pc vm) + S j)%nat
      by (pose proof (vm_inv_pc vm Hinv); lia).
    done.
  - exists vm'. cbn [run]. rewrite Hc. split_and!; [done | lia | congruence | done].
Qed.

(** C18: a program whose first [n] words fall through ([straight]) and
    whose word [n] is [stop] runs for exactly [n + 1] cycles in a release
    build: after [n] cycles it is still running at [pc = n], after
    [n + 1] it has halted. *)
Theorem straight_line_halts prog n wstop :
  Forall (λ w, straight w = true) (take n prog) ->
  prog !! n = Some wstop -> instr_num (decode wstop) = 0 ->
  Z.of_nat (length prog) < u32_modulus ->
  exists vm, run Release n (new prog) = Running vm /\ pc vm = Z.of_nat n /\
             run Release (S n) (new prog) = Halted (set_pc vm (Z.of_nat n + 1)).
Proof.
  intros Hws Hstop Hhalt Hlen.
  assert (Hn : (n < length prog)%nat) by (by apply lookup_lt_Some in Hstop).
  destruct (run_straight n (new prog)) as (vm & Hrun & Hpc & Hprog & Hinv).
  - apply new_inv.
  - intros j Hj. destruct (lookup_lt_is_Some_2 prog j) as [w Hw]; [lia|].
    exists w. split; [done|]. cbn [pc new].
    apply (Forall_lookup_1 (λ w, straight w = true) (take n prog) j w Hws).
    by rewrite lookup_take_lt.
  - cbn [pc new]. lia.
  - exists vm. cbn [pc new] in Hpc. split_and!; [done | lia |].
    replace (S n) with (n + 1)%nat by lia. rewrite (run_running _ _ _ _ _ Hrun).
    cbn [run]. rewrite (cycle_halt Release vm wstop); [by rewrite Hpc | lia | lia | | done].
    rewrite Hprog. cbn [program new]. by replace (Z.to_nat (pc vm)) with n by lia.
Qed.

(** ** Invariant theorems *)

(** [vm_inv_closed] proves the invariant of a concrete state. *)
Ltac vm_inv_closed :=
  unfold vm_inv; cbn [regs pc program]; split_and!; [reflexivity | decide_prop | decide_prop].

(** The invariant holds in every state [VM::run] reaches from
    [VM::new], and the program is the one loaded. *)
Lemma reachable_inv p prog vm :
  reachable p prog vm -> vm_inv vm /\ program vm = prog.
Proof.
  induction 1 as [|vm vm' _ [Hinv Hprog] Hc]; [split; [apply new_inv | done]|].
  destruct (cycle_preserves_inv p vm vm' true Hinv Hc). split; congruence.
Qed.

(** ** Where a run stops *)

(** [eval] asks to stop only for opcode 0 and the default arm, and then
    leaves the state as it is. *)
Lemma eval_halt_code p vm i vm' :
  eval p vm i = Ok (vm', false) -> vm' = vm /\ (instr_num i = 0 \/ ~ (0 <= instr_num i <= 18)).
Proof.
  unfold eval. intros H.
  repeat case_match; res_inv; simplify_eq; split; try done; lia.
Qed.

(** A cycle that stops fetched a word with a halting opcode at [pc] and
    only advanced the [pc]. *)
Lemma cycle_halted p vm vm' :
  vm_inv vm -> Z.of_nat (length (program vm)) < u32_modulus -> cycle p vm = Ok (vm', false) ->
  exists w, program vm !! Z.to_nat (pc vm) = Some w /\
            (instr_num (decode w) = 0 \/ 18 < instr_num (decode w)) /\
            vm' = set_pc vm (pc vm + 1).
Proof.
  intros Hinv Hlen Hc. pose proof (vm_inv_pc vm Hinv) as Hp0.
  destruct (program vm !! Z.to_nat (pc vm)) as [w|] eqn:Hw.
  - pose proof (lookup_lt_Some _ _ _ Hw).
    rewrite (cycle_at p vm w) in Hc by (done || lia).
    apply eval_halt_code in Hc as [-> Hop].
    pose proof (decode_range w) as Hr. cbv zeta in Hr. destruct_and! Hr. unfold fits in *.
    exists w. split_and!; [done | lia | done].
  - apply lookup_ge_None_1 in Hw. unfold cycle, fetch in Hc.
    by rewrite nth_res_ge in Hc by lia.
Qed.

(** A run that halts made its last cycle from a reachable state. *)
Lemma run_halted_reachable p prog fuel vm vm' :
  reachable p prog vm -> run p fuel vm = Halted vm' ->
  exists vm0, reachable p prog vm0 /\ cycle p vm0 = Ok (vm', false).
Proof.
  revert vm. induction fuel as [|k IH]; intros vm Hr H; cbn [run] in H; [done|].
  destruct (cycle p vm) as [[vm1 []]|f] eqn:Hc; [| |done].
  - apply (IH vm1); [by eapply reach_cycle | done].
  - injection H as <-. by exists vm.
Qed.

(** C16: [VM::run] on a loaded program stops normally only after it has
    executed a [stop] (opcode 0) or a word whose opcode is not in the
    table (19 to 31): the word just before the final [pc] is such a
    word.  No other instruction ends the run. *)
Theorem run_halts_at_stop p prog fuel vm' :
  Z.of_nat (length prog) < u32_modulus -> run p fuel (new prog) = Halted vm' ->
  program vm' = prog /\ 1 <= pc vm' /\
  exists w, prog !! Z.to_nat (pc vm' - 1) = Some w /\
            (instr_num (decode w) = 0 \/ 18 < instr_num (decode w)).
Proof.
  intros Hlen H.
  destruct (run_halted_reachable p prog fuel (new prog) vm' (reach_new _ _) H) as (vm0 & Hr & Hc).
  destruct (reachable_inv p prog vm0 Hr) as [Hinv Hprog].
  pose proof (vm_inv_pc vm0 Hinv) as Hp0.
  destruct (cycle_halted p vm0 vm') as (w & Hw & Hop & ->); [done | by rewrite Hprog | done |].
  cbn [program pc set_pc]. rewrite <- Hprog. split_and!; [done | lia |].
  exists w. split; [|done]. by replace (pc vm0 + 1 - 1) with (pc vm0) by lia.
Qed.

(** [add r1,r2,r3; stop] halts at [pc = 2], after the [stop] at 1. *)
Lemma run_halts_at_stop_witness :
  program (mkVM (replicate 8 0) [138412099; 0] 2) = [138412099; 0] /\
  1 <= pc (mkVM (replicate 8 0) [138412099; 0] 2) /\
  exists w, [138412099; 0] !! Z.to_nat (pc (mkVM (replicate 8 0) [138412099; 0] 2) - 1) = Some w /\
            (instr_num (decode w) = 0 \/ 18 < instr_num (decode w)).
Proof.
  apply (run_halts_at_stop Release [138412099; 0] 2); [simpl; u32_lia | reflexivity].
Defined.

(** ** Witnesses of the opcode and run theorems *)

(** [wit_side] discharges the hypotheses of a theorem at a concrete
    state. *)
Ltac wit_side :=
  first [ reflexivity | apply new_inv | vm_inv_closed | unfold fits; simpl; lia | lia | u32_lia ].

(** [add r1,r2,r3] with r1 = 5 and r2 = 3 leaves 8 in r3. *)
Lemma cycle_alu_witness :
  cycle Debug (mkVM [0; 5; 3; 0; 0; 0; 0; 0] [138412099] 0) =
    Ok (mkVM [0; 5; 3; 8; 0; 0; 0; 0] [138412099] 1, true).
Proof.
  rewrite (cycle_alu Debug _ 1 1 0 2 3 138412099 5 3); wit_side.
Defined.

(** [jmp 2,r5] at address 0 writes 2 (not 1) to r5. *)
Lemma cycle_jmp_witness :
  cycle Debug (new [2080374853; 0; 0]) =
    Ok (mkVM [0; 0; 0; 0; 0; 2; 0; 0] [2080374853; 0; 0] 2, true).
Proof.
  rewrite (cycle_jmp Debug _ 1 2 5 2080374853); wit_side.
Defined.

(** [add r1,r2,r3; stop] halts after exactly two cycles. *)
Lemma straight_line_halts_witness :
  exists vm, run Release 1 (new [138412099; 0]) = Running vm /\ pc vm = 1 /\
             run Release 2 (new [138412099; 0]) = Halted (set_pc vm (1 + 1)).
Proof.
  apply (straight_line_halts [138412099; 0] 1 0);
    [repeat constructor | reflexivity | reflexivity | simpl; u32_lia].
Defined.

End Machine.
