(* ===== verification/Trace.v ===== *)
(** * The register dump: [VM::show_regs]

    [src/vm.rs], lines 222-229.  Before every cycle [VM::run] prints the
    registers: the string ["regs = "] followed, for each register, by
    [format!("{:04X} ", reg)], its value in upper-case hexadecimal padded
    with zeros to at least four digits.  [show_regs] builds that string
    as the code does (a [push_str] per register, [fmt_04X] for the
    format); the loop that prints it is [Output.run_io].

    The theorem shows that the format never truncates: a dump reads back
    as the exact register values, by [read_dump], even above [0xFFFF].
    [pad_hex_parse] reads back any zero-padded hexadecimal field, which
    [Output] uses for the encoder's [{:08x}]. *)

From Stdlib Require Import Ascii.
From S2P Require Import Prelude RustStr Encoder Decoder VM.
Import RustStr Machine.

Module Trace.

(** ** [format!("{:04X}", n)] *)

(** An upper-case hexadecimal digit. *)
Definition hex_char (d : Z) : ascii :=
  if bool_decide (d < 10) then ascii_of_nat (Z.to_nat (48 + d)) else ascii_of_nat (Z.to_nat (55 + d)).

(** [{:X}]: the hexadecimal digits of a [u32] (at most eight). *)
Definition fmt_X (n : Z) : string := num_go 16 hex_char 8 n.

Fixpoint zeros (k : nat) : string :=
  match k with O => EmptyString | S k' => String "0" (zeros k') end.

(** The [0] flag with width [w]: zeros on the left up to [w] characters. *)
Definition pad_zero (w : nat) (s : string) : string :=
  String.append (zeros (w - String.length s)) s.

Definition fmt_04X (n : Z) : string := pad_zero 4 (fmt_X n).

(** ** [VM::show_regs] *)

(** [repr] starts as ["regs = "] and each register pushes its field. *)
Definition show_regs (vm : VM) : string :=
  fold_left (λ repr reg, String.append repr (String.append (fmt_04X reg) " "))
    (regs vm) "regs = ".

(** ** Reading a dump back *)

Definition hex_val (c : ascii) : option Z :=
  let n := Z.of_nat (nat_of_ascii c) in
  if bool_decide (48 <= n <= 57) then Some (n - 48)
  else if bool_decide (65 <= n <= 70) then Some (n - 55)
  else if bool_decide (97 <= n <= 102) then Some (n - 87) else None.

Definition parse_hex (s : string) : option Z :=
  match s with EmptyString => None | _ => parse_num 16 hex_val s 0 end.

Fixpoint skip_chars (k : nat) (s : string) : string :=
  match k, s with
  | S k', String _ s' => skip_chars k' s'
  | _, _ => s
  end.

Fixpoint parse_fields (l : list string) : option (list Z) :=
  match l with
  | [] => Some []
  | f :: l' => v ← parse_hex f; vs ← parse_fields l'; Some (v :: vs)
  end.

(** The register values a dump shows: after the prefix, the fields
    separated by single spaces, the last one followed by a space. *)
Definition read_dump (s : string) : option (list Z) :=
  parse_fields (removelast (split_char " "%char (skip_chars 7 s))).

(** ** Lemmas on the format *)

Lemma hex_char_ok d :
  0 <= d < 16 -> hex_val (hex_char d) = Some d /\ hex_char d ≠ " "%char.
Proof.
  apply (seqZ_forall (λ d, hex_val (hex_char d) = Some d /\ hex_char d ≠ " "%char) 0 16).
  decide_prop.
Qed.

Lemma zeros_no_char c k : c ≠ "0"%char -> no_char c (zeros k) = true.
Proof.
  intros Hc. induction k as [|k IH]; [done|]. unfold no_char in *. cbn [zeros all_chars].
  by rewrite IH, bool_decide_true by congruence.
Qed.

Lemma parse_zeros k s :
  parse_num 16 hex_val (String.append (zeros k) s) 0 = parse_num 16 hex_val s 0.
Proof.
  induction k as [|k IH]; [done|].
  change (parse_num 16 hex_val (String "0" (String.append (zeros k) s)) 0 =
          parse_num 16 hex_val s 0). exact IH.
Qed.

Lemma num_go_hex_head (dig : Z -> ascii) n :
  is_u32 n -> exists c r, num_go 16 dig 8 n = String c r.
Proof.
  intros Hn. destruct (num_go_head 16 dig ltac:(lia) 7 n) as (d & r & Hd & _); [u32_lia|].
  rewrite Hd. eauto.
Qed.

(** A zero-padded hexadecimal field reads back as the value, whatever
    the width and the case of the digits. *)
Lemma pad_hex_parse (dig : Z -> ascii) w n :
  (forall d, 0 <= d < 16 -> hex_val (dig d) = Some d) -> is_u32 n ->
  parse_hex (pad_zero w (num_go 16 dig 8 n)) = Some n.
Proof.
  intros Hdig Hn. destruct (num_go_hex_head dig n Hn) as (c & r & Hcr).
  assert (exists c' r', pad_zero w (num_go 16 dig 8 n) = String c' r') as (c' & r' & Hf).
  { unfold pad_zero. rewrite Hcr.
    destruct (w - String.length (String c r))%nat; [by eexists _, _|]. by eexists _, _. }
  unfold parse_hex. rewrite Hf, <- Hf. unfold pad_zero. rewrite parse_zeros.
  apply num_go_parse; [lia | done | u32_lia].
Qed.

(** [{:04X}] never truncates: the field reads back as the value. *)
Lemma fmt_04X_parse n : is_u32 n -> parse_hex (fmt_04X n) = Some n.
Proof. apply pad_hex_parse. intros d Hd. by apply hex_char_ok. Qed.

Lemma fmt_04X_no_space n : is_u32 n -> no_char " "%char (fmt_04X n) = true.
Proof.
  intros Hn. unfold fmt_04X, pad_zero, no_char. rewrite all_chars_app.
  apply andb_true_iff. split; [by apply zeros_no_char|].
  apply num_go_chars; [lia | | u32_lia]. intros d Hd. apply bool_decide_eq_true.
  by apply hex_char_ok.
Qed.

(** The fields of a dump. *)
Fixpoint dump_fields (l : list Z) : string :=
  match l with
  | [] => EmptyString
  | r :: l' => String.append (String.append (fmt_04X r) " ") (dump_fields l')
  end.

Lemma show_regs_fields vm : show_regs vm = String.append "regs = " (dump_fields (regs vm)).
Proof.
  unfold show_regs. generalize "regs = "%string as acc.
  induction (regs vm) as [|r l IH]; intros acc; simpl; [by rewrite append_empty_r|].
  by rewrite IH, append_assoc.
Qed.

Lemma split_dump_fields l :
  Forall is_u32 l -> split_char " "%char (dump_fields l) = (map fmt_04X l ++ [EmptyString])%list.
Proof.
  induction 1 as [|r l Hr _ IH]; [done|]. cbn [dump_fields map].
  rewrite append_assoc.
  change (String.append " " (dump_fields l)) with (String " " (dump_fields l)).
  rewrite split_char_app by (by apply fmt_04X_no_space). by rewrite IH.
Qed.

Lemma parse_fields_fmt l : Forall is_u32 l -> parse_fields (map fmt_04X l) = Some l.
Proof.
  induction 1 as [|r l Hr _ IH]; [done|]. cbn [map parse_fields].
  by rewrite fmt_04X_parse, IH.
Qed.

(** A dump of [u32] registers reads back as the registers. *)
Lemma read_show_regs vm : Forall is_u32 (regs vm) -> read_dump (show_regs vm) = Some (regs vm).
Proof.
  intros Hr. unfold read_dump. rewrite show_regs_fields.
  change (skip_chars 7 (String.append "regs = " (dump_fields (regs vm)))) with (dump_fields (regs vm)).
  by rewrite split_dump_fields, removelast_last, parse_fields_fmt.
Qed.

(** ** Theorems *)

(** C26: the register dump is faithful: for a state with eight [u32]
    registers, reading the line [show_regs] prints gives back exactly the
    eight register values ([{:04X}] pads short values and never truncates
    long ones). *)
Theorem show_regs_roundtrip vm :
  vm_inv vm -> exists rs, read_dump (show_regs vm) = Some rs /\ rs = regs vm /\ length rs = 8%nat.
Proof.
  intros (Hlen & Hu & _). exists (regs vm). split_and!; [by apply read_show_regs | done | done].
Qed.

Lemma show_regs_roundtrip_witness :
  exists rs, read_dump (show_regs (mkVM [0; 10; 255; 65535; 65536; 4294967295; 7; 0] [] 3)) = Some rs /\
    rs = regs (mkVM [0; 10; 255; 65535; 65536; 4294967295; 7; 0] [] 3) /\ length rs = 8%nat.
Proof. apply show_regs_roundtrip. unfold vm_inv; cbn [regs pc]; split_and!; [done | decide_prop | u32_lia]. Defined.

End Trace.
