(* ===== verification/ISA.v ===== *)
(** * The instruction set as the spec states it, and its refinement

    The spec describes the machine one level above the code: instructions
    with typed operands (register, immediate or resolved label, §3),
    the operation of each opcode (§4.3) and the executor's cycle (§4.5),
    with unsigned 32-bit wraparound arithmetic and a fatal division by
    zero.  This file writes that description down independently of the
    binary encoding:

    - [instr]: one constructor per row group of the opcode table, with
      [operand] for the register/immediate choice;
    - [to_vec]: the vector [op :: fields] the parser emits for it (the
      encoder's input), and [wf]: the operand ranges of the spec's
      grammar (registers 0 to 7) and the field widths of §4.3;
    - [spec_alu]: the operators of opcodes 1 to 12 on mathematical
      integers taken modulo [2^32];
    - [state], [astep], [arun]: the abstract machine (registers and a
      program counter) running a list of [instr].

    The abstraction function [abs] forgets the stored words of a [VM].
    The theorems show that the code refines the spec: a release build
    computes exactly [spec_alu], and a debug build computes the same
    value whenever it does not panic; one [cycle] on the word of a
    well-formed instruction is one [astep] (and in a release build
    faults exactly when [astep] does); and [run] on an assembled program
    is [arun] on the program it was assembled from.  A program whose
    branches and literal jumps all target a later address
    ([forward_only]) stops within [length prog + 1] abstract steps
    ([arun_forward]).

    Where the code departs from the spec the abstract semantics follows
    the code and says so: [jmp] links the address after the next
    instruction, and a shift amount is taken modulo 32 (the spec leaves
    amounts of 32 or more open). *)

From S2P Require Import Prelude Encoder Decoder VM.
Import Encoder Decoder Machine.

Module ISA.

(** ** Abstract syntax *)

(** The spec's [Operand]; a resolved label is an [Imm]. *)
Inductive operand := Reg (r : Z) | Imm (v : Z).

Inductive instr :=
| IStop                                        (** 0, format A *)
| IAlu (op rs : Z) (o : operand) (rd : Z)      (** 1 to 12, format E *)
| IMem (op rs : Z) (o : operand) (rd : Z)      (** 13 [load], 14 [store] *)
| IJmp (t : operand) (rd : Z)                  (** 15, format D *)
| IBraz (r addr : Z)                           (** 16, format C *)
| IBranz (r addr : Z)                          (** 17, format C *)
| IScall (num : Z).                            (** 18, format B *)

#[export] Instance operand_eq_dec : EqDecision operand.
Proof. solve_decision. Defined.
#[export] Instance instr_eq_dec : EqDecision instr.
Proof. solve_decision. Defined.

(** The immediate flag and the value of an operand, as the parser
    computes them ([imm_flag], [parse_argument]). *)
Definition imm_bit (o : operand) : Z := match o with Reg _ => 0 | Imm _ => 1 end.
Definition operand_val (o : operand) : Z := match o with Reg r => r | Imm v => v end.

(** The vector [lines_to_instr] emits for the instruction. *)
Definition to_vec (i : instr) : list Z :=
  match i with
  | IStop => [0]
  | IAlu op rs o rd | IMem op rs o rd => [op; rs; imm_bit o; operand_val o; rd]
  | IJmp t rd => [15; imm_bit t; operand_val t; rd]
  | IBraz r addr => [16; r; addr]
  | IBranz r addr => [17; r; addr]
  | IScall num => [18; num]
  end.

(** ** Well-formed instructions *)

Definition is_reg (r : Z) : bool := bool_decide (0 <= r < 8).

(** A register operand names one of the eight registers; an immediate
    fits the [w]-bit field that carries it. *)
Definition operand_ok (w : Z) (o : operand) : bool :=
  match o with Reg r => is_reg r | Imm v => bool_decide (fits w v) end.

Definition wf (i : instr) : bool :=
  match i with
  | IStop => true
  | IAlu op rs o rd => bool_decide (1 <= op <= 12) && is_reg rs && operand_ok 16 o && is_reg rd
  | IMem op rs o rd =>
      bool_decide (op = 13 \/ op = 14) && is_reg rs && operand_ok 16 o && is_reg rd
  | IJmp t rd => operand_ok 21 t && is_reg rd
  | IBraz r addr | IBranz r addr => is_reg r && bool_decide (fits 22 addr)
  | IScall num => bool_decide (fits 27 num)
  end.

(** ** The operators of the spec

    [dest = r1 <op> operand2] with unsigned 32-bit wraparound (§4.5);
    division by zero is the only fatal operator ([None]).  Shift amounts
    are taken modulo 32. *)
Definition spec_alu (op x y : Z) : option Z :=
  match op with
  | 1 => Some ((x + y) mod 2 ^ 32)
  | 2 => Some ((x - y) mod 2 ^ 32)
  | 3 => Some ((x * y) mod 2 ^ 32)
  | 4 => if Z.eqb y 0 then None else Some (x / y)
  | 5 => Some (Z.land x y)
  | 6 => Some (Z.lor x y)
  | 7 => Some (Z.lxor x y)
  | 8 => Some (Z.shiftl x (y mod 32) mod 2 ^ 32)
  | 9 => Some (Z.shiftr x (y mod 32))
  | 10 => Some (if Z.ltb x y then 1 else 0)
  | 11 => Some (if Z.leb x y then 1 else 0)
  | 12 => Some (if Z.eqb x y then 1 else 0)
  | _ => None
  end.

(** ** The abstract machine (§4.5) *)

(** Registers and program counter; the program is a list of [instr]. *)
Record state := St { sregs : list Z; spc : Z }.

Definition reg (s : state) (r : Z) : Z := sregs s !!! Z.to_nat r.

Definition opnd (s : state) (o : operand) : Z :=
  match o with Reg r => reg s r | Imm v => v end.

(** One instruction: the new state and whether the machine keeps
    running, or [None] for a fatal error. *)
Definition astep (i : instr) (s : state) : option (state * bool) :=
  let next := spc s + 1 in
  match i with
  | IStop => Some (St (sregs s) next, false)
  | IAlu op rs o rd =>
      v ← spec_alu op (reg s rs) (opnd s o);
      Some (St (<[Z.to_nat rd := v]> (sregs s)) next, true)
  | IMem _ _ _ _ | IScall _ => Some (St (sregs s) next, true)
  | IJmp t rd =>
      let regs' := <[Z.to_nat rd := next + 1]> (sregs s) in
      Some (St regs' (match t with Reg r => regs' !!! Z.to_nat r | Imm v => v end), true)
  | IBraz r addr => Some (St (sregs s) (if bool_decide (reg s r = 0) then addr else next), true)
  | IBranz r addr => Some (St (sregs s) (if bool_decide (reg s r ≠ 0) then addr else next), true)
  end.

(** The abstraction of a VM state. *)
Definition abs (vm : VM) : state := St (regs vm) (pc vm).

(** ** Lemmas on the operators *)

Lemma land_31 y : Z.land y 31 = y mod 32.
Proof. change 31 with (Z.ones 5). by rewrite Z.land_ones by lia. Qed.

(** A release build computes [spec_alu]; its only fault is a division
    by zero. *)
Lemma alu_release_spec_alu op x y :
  1 <= op <= 12 ->
  alu Release op x y = match spec_alu op x y with Some v => Ok v | None => Err DivByZero end.
Proof.
  intros Hop. op_cases op; cbv beta iota delta [alu spec_alu];
    unfold add32, sub32, mul32, div32, shl32, shr32, shl_wrap, wrap32, u32_modulus;
    cbn [overflow_checks andb]; rewrite ?land_31; try reflexivity.
  - destruct (Z.eqb_spec y 0); [by rewrite bool_decide_true | by rewrite bool_decide_false].
  - destruct (Z.ltb_spec x y); [by rewrite bool_decide_true | by rewrite bool_decide_false by lia].
  - destruct (Z.leb_spec x y); [by rewrite bool_decide_true | by rewrite bool_decide_false by lia].
  - destruct (Z.eqb_spec x y); [by rewrite bool_decide_true | by rewrite bool_decide_false].
Qed.

(** A debug build only adds panics: when it returns, it returns what a
    release build returns. *)
Lemma alu_debug_release op x y v :
  1 <= op <= 12 -> alu Debug op x y = Ok v -> alu Release op x y = Ok v.
Proof.
  intros Hop. op_cases op; cbv beta iota delta [alu];
    unfold add32, sub32, mul32, shl32, shr32; cbn [overflow_checks andb];
    try done; by case_bool_decide.
Qed.

(** A cycle that returns computed [spec_alu]. *)
Lemma alu_ok_spec p op x y v :
  1 <= op <= 12 -> alu p op x y = Ok v -> spec_alu op x y = Some v.
Proof.
  intros Hop H. assert (alu Release op x y = Ok v) as H'
    by (destruct p; [by apply alu_debug_release | done]).
  rewrite alu_release_spec_alu in H' by done.
  by destruct (spec_alu op x y); simplify_eq.
Qed.

(** ** Refinement of the operators *)

(** C8: the VM's operators implement the spec's: a release build
    computes [spec_alu] exactly and faults only on a division by zero,
    and whenever a debug build returns, it returns the same value. *)
Theorem alu_refines_spec op x y :
  1 <= op <= 12 ->
  alu Release op x y = match spec_alu op x y with Some v => Ok v | None => Err DivByZero end /\
  (forall v, alu Debug op x y = Ok v -> spec_alu op x y = Some v).
Proof.
  intros Hop. split; [by apply alu_release_spec_alu|]. intros v. by apply alu_ok_spec.
Qed.

Lemma alu_refines_spec_witness :
  alu Release 1 4294967295 2 = match spec_alu 1 4294967295 2 with Some v => Ok v | None => Err DivByZero end /\
  (forall v, alu Debug 1 4294967295 2 = Ok v -> spec_alu 1 4294967295 2 = Some v).
Proof. apply alu_refines_spec. lia. Defined.

(** ** One cycle on the word of a well-formed instruction *)

(** [wf_split H] turns a [wf] hypothesis into its arithmetic facts. *)
Ltac wf_split H :=
  cbn [wf operand_ok] in H; unfold is_reg in H;
  repeat rewrite andb_true_iff in H; destruct_and? H;
  repeat match goal with Hb : bool_decide _ = true |- _ => apply bool_decide_eq_true in Hb end.

Lemma regs_lookup vm r :
  vm_inv vm -> 0 <= r < 8 -> regs vm !! Z.to_nat r = Some (regs vm !!! Z.to_nat r).
Proof.
  intros (Hlen & _ & _) Hr. apply list_lookup_lookup_total, lookup_lt_is_Some_2.
  rewrite Hlen. unfold NUM_REGS. lia.
Qed.

(** The no-ops [load], [store] and [scall] only advance the [pc]. *)
Lemma nop_cycle p vm w :
  0 <= pc vm -> pc vm + 1 < u32_modulus -> program vm !! Z.to_nat (pc vm) = Some w ->
  instr_num (decode w) = 13 \/ instr_num (decode w) = 14 \/ instr_num (decode w) = 18 ->
  cycle p vm = Ok (set_pc vm (pc vm + 1), true).
Proof.
  intros Hp Hpc Hw Hn. rewrite (cycle_at p vm w) by done.
  unfold eval. by destruct_or! Hn; rewrite Hn.
Qed.

Lemma alu_word_cycle p vm op rs o rd w :
  vm_inv vm -> wf (IAlu op rs o rd) = true ->
  encode_instr p (to_vec (IAlu op rs o rd)) = Ok w ->
  program vm !! Z.to_nat (pc vm) = Some w -> pc vm + 1 < u32_modulus ->
  cycle p vm = (v ← alu p op (reg (abs vm) rs) (opnd (abs vm) o);
                Ok (mkVM (<[Z.to_nat rd := v]> (regs vm)) (program vm) (pc vm + 1), true)).
Proof.
  intros Hinv Hwf Henc Hw Hpc. destruct o as [ro|v]; wf_split Hwf.
  - rewrite (alu_cycle p vm op rs 0 ro rd w (reg (abs vm) rs) (reg (abs vm) ro));
      try done; try (unfold fits; simpl; lia); try (by apply regs_lookup).
  - rewrite (alu_cycle p vm op rs 1 v rd w (reg (abs vm) rs) v);
      try done; try (unfold fits in *; simpl; lia); try (by apply regs_lookup).
Qed.

(** [word_roundtrip Henc] applies the codec law of the format that
    the vector of [Henc : encode_instr p v = Ok w] selects, giving the
    opcode of [decode w] as [Hn]. *)
Ltac word_roundtrip p Henc :=
  let w' := fresh "w'" in let Hw' := fresh "Hw'" in let Hn := fresh "Hn" in
  lazymatch type of Henc with
  | encode_instr _ [?op] = _ => destruct (codec_AB p op 0) as [(w' & Hw' & Hn) _]
  | encode_instr _ [?op; ?x] = _ => destruct (codec_AB p op x) as [_ (w' & Hw' & _ & Hn & _)]
  | encode_instr _ [?op; ?x; ?y] = _ => destruct (codec_C p op x y) as (w' & Hw' & _ & Hn & _)
  | encode_instr _ [?op; ?x; ?y; ?z] = _ => destruct (codec_D p op x y z) as (w' & Hw' & _ & Hn & _)
  | encode_instr _ [?op; ?x; ?y; ?z; ?u] = _ =>
      destruct (codec_E p op x y z u) as (w' & Hw' & _ & Hn & _)
  end;
  [unfold fits in *; simpl; lia .. |]; codec_unfold;
  rewrite Henc in Hw'; apply Ok_inj in Hw'; subst w'.

(** The word of a [wf] instruction has the instruction's opcode. *)
Lemma word_opcode p i w :
  wf i = true -> encode_instr p (to_vec i) = Ok w ->
  instr_num (decode w) = nth 0 (to_vec i) 0.
Proof.
  intros Hwf Henc. destruct i as [| op rs o rd | op rs o rd | t rd | r addr | r addr | num];
    [ | destruct o | destruct o | destruct t | | | ]; cbn [to_vec nth imm_bit operand_val] in *;
    wf_split Hwf; word_roundtrip p Henc; done.
Qed.

(** One cycle on the word of a well-formed instruction: when it
    returns, it made the abstract step; when it faults, the abstract
    step faults too, or the build is a debug build. *)
Lemma cycle_astep p vm i w :
  vm_inv vm -> wf i = true -> encode_instr p (to_vec i) = Ok w ->
  program vm !! Z.to_nat (pc vm) = Some w -> pc vm + 2 < u32_modulus ->
  match cycle p vm with
  | Ok (vm', b) => astep i (abs vm) = Some (abs vm', b) /\ program vm' = program vm
  | Err f => (astep i (abs vm) = None /\ f = DivByZero) \/ p = Debug
  end.
Proof.
  intros Hinv Hwf Henc Hw Hpc. pose proof (vm_inv_pc vm Hinv) as Hp0.
  pose proof (word_opcode p i w Hwf Henc) as Hop.
  destruct i as [| op rs o rd | op rs o rd | t rd | r addr | r addr | num];
    cbn [to_vec nth] in Henc, Hop.
  - rewrite (stop_cycle p vm w) by (done || lia). done.
  - rewrite (alu_word_cycle p vm op rs o rd w) by (done || lia).
    assert (1 <= op <= 12) as Hr by (wf_split Hwf; lia).
    destruct (alu p op _ _) as [v|f] eqn:Ha; cbn [mbind res_bind].
    + split; [|done]. cbn [astep]. by rewrite (alu_ok_spec p op _ _ v).
    + destruct p; [by right | left].
      rewrite alu_release_spec_alu in Ha by done. cbn [astep].
      destruct (spec_alu _ _ _); [done|]. by injection Ha as <-.
  - wf_split Hwf. rewrite (nop_cycle p vm w) by (done || lia). done.
  - destruct t as [r|v]; wf_split Hwf.
    + rewrite (jmp_cycle p vm 0 r rd w) by (done || unfold fits in *; simpl; lia).
      cbn [astep abs sregs spc]. replace (pc vm + 1 + 1) with (pc vm + 2) by lia. done.
    + rewrite (jmp_cycle p vm 1 v rd w) by (done || unfold fits in *; simpl; lia).
      cbn [astep abs sregs spc]. replace (pc vm + 1 + 1) with (pc vm + 2) by lia. done.
  - wf_split Hwf. rewrite (braz_cycle p vm r addr w (reg (abs vm) r)) by (done || lia || by apply regs_lookup).
    done.
  - wf_split Hwf. rewrite (branz_cycle p vm r addr w (reg (abs vm) r)) by (done || lia || by apply regs_lookup).
    done.
  - rewrite (nop_cycle p vm w) by (done || lia). done.
Qed.

(** ** Whole runs *)

Inductive aoutcome :=
| AHalted (s : state)    (** [stop] or an unknown opcode *)
| AFault                 (** a fatal error: [pc] out of the program, division by zero *)
| ARunning (s : state).  (** the fuel ran out first *)

(** The abstract machine, for at most [fuel] instructions. *)
Fixpoint arun (prog : list instr) (fuel : nat) (s : state) : aoutcome :=
  match fuel with
  | O => ARunning s
  | S k =>
      match prog !! Z.to_nat (spc s) with
      | None => AFault
      | Some i =>
          match astep i s with
          | None => AFault
          | Some (s', true) => arun prog k s'
          | Some (s', false) => AHalted s'
          end
      end
  end.

(** The encoder applied to the vectors of an abstract program. *)
Definition assemble_prog (p : profile) (prog : list instr) : res (list Z) :=
  mapM (λ i, encode_instr p (to_vec i)) prog.

(** [run] simulates [arun] from any state that holds the assembled
    program. *)
Lemma run_arun p prog words fuel vm :
  Forall (λ i, wf i = true) prog -> assemble_prog p prog = Ok words ->
  Z.of_nat (length prog) + 2 < u32_modulus -> vm_inv vm -> program vm = words ->
  match run p fuel vm with
  | Halted vm' => arun prog fuel (abs vm) = AHalted (abs vm')
  | Running vm' => arun prog fuel (abs vm) = ARunning (abs vm')
  | Crashed _ => arun prog fuel (abs vm) = AFault \/ p = Debug
  end.
Proof.
  intros Hwf Hasm Hlen. pose proof (mapM_length _ _ _ Hasm) as Hl. revert vm.
  induction fuel as [|k IH]; intros vm Hinv Hprog; [done|].
  cbn [run arun abs spc]. pose proof (vm_inv_pc vm Hinv) as Hp0.
  destruct (prog !! Z.to_nat (pc vm)) as [i|] eqn:Hi.
  - destruct (mapM_lookup _ _ _ _ _ Hasm Hi) as (w & Henc & Hw). rewrite <- Hprog in Hw.
    pose proof (lookup_lt_Some _ _ _ Hi) as Hlt.
    pose proof (cycle_astep p vm i w Hinv (Forall_lookup_1 _ _ _ _ Hwf Hi) Henc Hw
                  ltac:(lia)) as Hc.
    destruct (cycle p vm) as [[vm' []]|f] eqn:Hcy.
    + destruct Hc as [-> Hp']. destruct (cycle_preserves_inv p vm vm' true Hinv Hcy).
      apply IH; [done | congruence].
    + by destruct Hc as [-> _].
    + destruct Hc as [[-> _] | ->]; [by left | by right].
  - apply lookup_ge_None_1 in Hi. unfold cycle, fetch.
    rewrite nth_res_ge by (rewrite Hprog; lia). by left.
Qed.

(** The encoder accepts the vector of a well-formed instruction in
    either build: its fields fit, so no [+=] overflows. *)
Lemma encode_wf p i : wf i = true -> exists w, encode_instr p (to_vec i) = Ok w.
Proof.
  intros Hwf. destruct i as [| op rs o rd | op rs o rd | t rd | r addr | r addr | num];
    [ | destruct o | destruct o | destruct t | | | ]; cbn [to_vec imm_bit operand_val];
    wf_split Hwf; eexists;
    lazymatch goal with
    | |- encode_instr _ [_] = _ => apply encode_A_value
    | |- encode_instr _ [_; _] = _ => apply encode_B_value
    | |- encode_instr _ [_; _; _] = _ => apply encode_C_value
    | |- encode_instr _ [_; _; _; _] = _ => apply encode_D_value
    | |- encode_instr _ [_; _; _; _; _] = _ => apply encode_E_value
    end; unfold fits in *; simpl; lia.
Qed.

Lemma assemble_prog_ok p prog :
  Forall (λ i, wf i = true) prog -> exists words, assemble_prog p prog = Ok words.
Proof.
  unfold assemble_prog. induction 1 as [|i prog Hi _ [words IH]]; [by exists []|].
  destruct (encode_wf p i Hi) as [w Hw]. exists (w :: words). simpl.
  by rewrite Hw, bind_Ok_l, IH, bind_Ok_l.
Qed.

(** ** Programs whose jumps all go forward *)

(** The instruction at index [k] can only move the [pc] forward: a branch
    or a literal [jmp] targets an address above [k]; a [jmp] through a
    register could go anywhere. *)
Definition forward_at (k : Z) (i : instr) : bool :=
  match i with
  | IJmp (Imm t) _ => bool_decide (k < t)
  | IJmp (Reg _) _ => false
  | IBraz _ addr | IBranz _ addr => bool_decide (k < addr)
  | _ => true
  end.

Fixpoint forward_from (k : Z) (prog : list instr) : bool :=
  match prog with
  | [] => true
  | i :: rest => forward_at k i && forward_from (k + 1) rest
  end.

Definition forward_only (prog : list instr) : bool := forward_from 0 prog.

Lemma forward_lookup k0 prog k i :
  forward_from k0 prog = true -> prog !! k = Some i -> forward_at (k0 + Z.of_nat k) i = true.
Proof.
  revert k0 k. induction prog as [|i' rest IH]; intros k0 k Hf Hk; [done|].
  cbn [forward_from] in Hf. apply andb_true_iff in Hf as [Hi Hr].
  destruct k as [|k]; cbn in Hk.
  - injection Hk as <-. by rewrite Z.add_0_r.
  - rewrite Nat2Z.inj_succ, <- Z.add_1_l, Z.add_assoc. by apply IH.
Qed.

(** A step of a forward instruction that continues moves the [pc] up:
    the variant [length prog - pc] decreases. *)
Lemma astep_forward i s s' :
  forward_at (spc s) i = true -> astep i s = Some (s', true) -> spc s < spc s'.
Proof.
  intros Hf Ha. destruct i as [| op rs o rd | op rs o rd | [r|t] rd | r addr | r addr | num];
    cbn [astep forward_at] in *; try done.
  - destruct (spec_alu _ _ _); cbn in Ha; [|done]. injection Ha as <-. cbn. lia.
  - injection Ha as <-. cbn. lia.
  - apply bool_decide_eq_true in Hf. injection Ha as <-. cbn. lia.
  - apply bool_decide_eq_true in Hf. injection Ha as <-. cbn. case_bool_decide; lia.
  - apply bool_decide_eq_true in Hf. injection Ha as <-. cbn. case_bool_decide; lia.
  - injection Ha as <-. cbn. lia.
Qed.

(** A forward-only program stops (halts or faults) within as many
    steps as the variant allows. *)
Lemma arun_forward prog k s :
  forward_only prog = true -> 0 <= spc s -> (length prog - Z.to_nat (spc s) < k)%nat ->
  match arun prog k s with ARunning _ => False | _ => True end.
Proof.
  intros Hf. revert s. induction k as [|k IH]; intros s Hs Hk; [lia|].
  cbn [arun]. destruct (prog !! Z.to_nat (spc s)) as [i|] eqn:Hl; [|done].
  destruct (astep i s) as [[s' []]|] eqn:Ha; [|done|done].
  pose proof (forward_lookup 0 prog _ i Hf Hl) as Hi. rewrite Z.add_0_l, Z2Nat.id in Hi by done.
  pose proof (astep_forward i s s' Hi Ha) as Hlt.
  pose proof (lookup_lt_Some _ _ _ Hl). apply IH; lia.
Qed.

(** ** Refinement theorems *)

(** C7: one VM cycle on the word the assembler makes of a well-formed
    instruction is one step of the spec's machine on the abstracted
    state: in a release build the cycle returns exactly when the
    abstract step does, with the same result; in either build a cycle
    that returns has made the abstract step. *)
Theorem cycle_refines p vm i w :
  vm_inv vm -> wf i = true -> encode_instr p (to_vec i) = Ok w ->
  program vm !! Z.to_nat (pc vm) = Some w -> pc vm + 2 < u32_modulus ->
  (p = Release ->
     match cycle p vm with Ok (vm', b) => Some (abs vm', b) | Err _ => None end = astep i (abs vm)) /\
  (forall vm' b, cycle p vm = Ok (vm', b) -> astep i (abs vm) = Some (abs vm', b)).
Proof.
  intros Hinv Hwf Henc Hw Hpc. pose proof (cycle_astep p vm i w Hinv Hwf Henc Hw Hpc) as H.
  split.
  - intros ->. destruct (cycle Release vm) as [[vm' b]|f]; [by destruct H as [-> _]|].
    by destruct H as [[-> _]|].
  - intros vm' b Hc. rewrite Hc in H. by destruct H.
Qed.

Lemma cycle_refines_witness :
  (Release = Release ->
     match cycle Release (new [136315041]) with Ok (vm', b) => Some (abs vm', b) | Err _ => None end =
     astep (IAlu 1 0 (Imm 5) 1) (abs (new [136315041]))) /\
  (forall vm' b, cycle Release (new [136315041]) = Ok (vm', b) ->
     astep (IAlu 1 0 (Imm 5) 1) (abs (new [136315041])) = Some (abs vm', b)).
Proof.
  apply (cycle_refines Release (new [136315041]) (IAlu 1 0 (Imm 5) 1) 136315041);
    [apply new_inv | reflexivity | reflexivity | reflexivity | unfold u32_modulus; simpl; lia].
Defined.

(** C5: running an assembled program on a fresh VM is running the
    abstract program from all-zero registers: in a release build [run]
    halts, keeps running or crashes exactly when [arun] halts, keeps
    running or faults, in the abstracted state; in a debug build the
    same holds except that the run may crash where [arun] does not (an
    overflow panic). *)
Theorem run_refines p prog words fuel :
  Forall (λ i, wf i = true) prog -> assemble_prog p prog = Ok words ->
  Z.of_nat (length prog) + 2 < u32_modulus ->
  match run p fuel (new words) with
  | Halted vm' => arun prog fuel (St (replicate 8 0) 0) = AHalted (abs vm')
  | Running vm' => arun prog fuel (St (replicate 8 0) 0) = ARunning (abs vm')
  | Crashed _ => arun prog fuel (St (replicate 8 0) 0) = AFault \/ p = Debug
  end.
Proof.
  intros Hwf Hasm Hlen. apply (run_arun p prog words fuel (new words)); try done. apply new_inv.
Qed.

(** [add r0,5,r1; div r1,r0,r2; stop]: a division by zero, in both
    machines. *)
Lemma run_refines_witness :
  match run Release 3 (new [136315041; 541065218; 0]) with
  | Halted vm' => arun [IAlu 1 0 (Imm 5) 1; IAlu 4 1 (Reg 0) 2; IStop] 3 (St (replicate 8 0) 0) = AHalted (abs vm')
  | Running vm' => arun [IAlu 1 0 (Imm 5) 1; IAlu 4 1 (Reg 0) 2; IStop] 3 (St (replicate 8 0) 0) = ARunning (abs vm')
  | Crashed _ => arun [IAlu 1 0 (Imm 5) 1; IAlu 4 1 (Reg 0) 2; IStop] 3 (St (replicate 8 0) 0) = AFault \/ Release = Debug
  end.
Proof.
  apply (run_refines Release [IAlu 1 0 (Imm 5) 1; IAlu 4 1 (Reg 0) 2; IStop]);
    [decide_prop | reflexivity | unfold u32_modulus; simpl; lia].
Defined.

End ISA.
