(* ===== verification/Pipeline.v ===== *)
(** * The whole program: [main]

    [src/main.rs], lines 8-22: the source text is normalised
    ([read_file]), assembled ([lines_to_instr], [instr_to_machine_code])
    and run on a fresh [VM].  [main_args] composes the models of those
    functions from the parsed [Args] and a [file_system]; [main] is the
    same from the file's contents.  The run gets a fuel bound; the
    parsing of the command line by clap is left out.

    The theorems run the spec's own example programs through the model:
    the branch example halts after two cycles without entering the loop
    body; and they exhibit the places where the code and the spec part
    ways (the [#] immediates of the spec are rejected, a label starting
    with [r] is read as a register, a [jmp] with one operand never
    reaches its label, a line with too many operands still emits a
    word, a label named like a numeral shadows the numeral).  What [main] prints is modelled in [Output]. *)

From Stdlib Require Import Ascii.
From S2P Require Import Prelude RustStr Labels Parser Encoder Decoder VM.
Import Labels Parser Encoder Decoder Machine.

Module Pipeline.

Open Scope string_scope.

(** [struct Args] of [src/args.rs]: clap fills it from the command line. *)
Record Args := mkArgs {
  path : string;  (** the assembler file to run *)
  debug : bool    (** [-d], [--debug] *)
}.

(** Lines 15-16 of [main]: the two passes and the encoder. *)
Definition assemble_lines (p : profile) (lines : list string) : res (list Z) :=
  instrs ← lines_to_instr p lines;
  instr_to_machine_code p instrs.

(** The assembler half of [main], on the contents of the file. *)
Definition assemble (p : profile) (content : string) : res (list Z) :=
  assemble_lines p (read_file content).

(** [main] after the file is read, with at most [fuel] cycles of
    [VM::run]. *)
Definition main (p : profile) (fuel : nat) (content : string) : outcome :=
  match assemble p content with
  | Err f => Crashed f
  | Ok program => run p fuel (new program)
  end.

(** [main] from the parsed arguments: [read_file(&args.path)], then the
    rest.  [args.debug] is not read. *)
Definition main_args (p : profile) (fuel : nat) (fs : file_system) (args : Args) : outcome :=
  match read_file_at fs (path args) with
  | Err f => Crashed f
  | Ok lines =>
      match assemble_lines p lines with
      | Err f => Crashed f
      | Ok program => run p fuel (new program)
      end
  end.

(** A state that a cycle leaves unchanged runs forever. *)
Lemma run_fixpoint p vm k : cycle p vm = Ok (vm, true) -> run p k vm = Running vm.
Proof. intros Hc. induction k as [|k IH]; [done|]. cbn [run]. by rewrite Hc. Qed.

(** ** The spec's examples *)

(** The spec's branch example, with the literal written [1] (the code
    does not accept [#1], see [spec_immediate_syntax_rejected]). *)
Definition branch_example : string :=
  "loop:
braz r1,end
add r1,1,r1
jmp loop
end:
stop".

(** with [r1 = 0] (as [VM::new] sets it) the branch example takes the
    [braz] at once and halts at [stop] after two cycles, without running
    the loop body: after one cycle it is at [end], after two it has
    halted with every register still 0. *)
Theorem branch_example_halts p :
  main p 1 branch_example = Running (mkVM (replicate 8 0) [2151677955; 140509217; 2013265920; 0] 3) /\
  main p 2 branch_example = Halted (mkVM (replicate 8 0) [2151677955; 140509217; 2013265920; 0] 4).
Proof. destruct p; split; vm_compute; reflexivity. Qed.

(** the spec writes immediates as [#3]; the code's [parse_argument]
    parses [#3] as a decimal number, which fails, so the spec's own
    [add r1,#3,r3] aborts the assembly. *)
Theorem spec_immediate_syntax_rejected p :
  assemble p "add r1,#3,r3" = Err (BadImmediate "#3").
Proof. destruct p; vm_compute; reflexivity. Qed.

(** an operand starting with [r] is always a register, so a label
    named [retry] cannot be referenced: the assembly panics. *)
Theorem label_starting_with_r_rejected p :
  assemble p "braz r1,retry
retry:
stop" = Err (BadRegister "retry").
Proof. destruct p; vm_compute; reflexivity. Qed.

(** A program whose [jmp] has one operand, as in the spec's example. *)
Definition one_operand_jmp : string :=
  "jmp end
stop
end:
stop".

(** [jmp end] with one operand is encoded in format B (the vector
    [[15; 2]]), which the VM decodes as a jump through register r0 with
    link register r2: the link is written first, then the [pc] is set to
    r0, which is 0.  The program never reaches [end] and never halts. *)
Theorem one_operand_jmp_never_halts p k :
  main p (S k) one_operand_jmp = Running (mkVM [0; 0; 2; 0; 0; 0; 0; 0] [2013265922; 0; 0] 0).
Proof.
  unfold main. replace (assemble p one_operand_jmp) with (Ok [2013265922; 0; 0])
    by (destruct p; vm_compute; reflexivity).
  cbn [run]. replace (cycle p (new [2013265922; 0; 0]))
    with (Ok (mkVM [0; 0; 2; 0; 0; 0; 0; 0] [2013265922; 0; 0] 0, true))
    by (destruct p; vm_compute; reflexivity).
  apply run_fixpoint. destruct p; vm_compute; reflexivity.
Qed.

(** a line with four operands is reported but not skipped: it keeps
    its address and is emitted as the bare opcode, which the VM runs as
    [add r0,r0,r0]. *)
Theorem bad_operand_count_emits_word p :
  lines_to_instr p ["add r1,r2,r3,r4"; "stop"] = Ok [[1]; [0]] /\
  assemble p "add r1,r2,r3,r4
stop" = Ok [134217728; 0].
Proof. destruct p; split; vm_compute; reflexivity. Qed.

(** a label named like a numeral shadows the numeral:
    [parse_argument] looks a token up in the label table before it
    parses it as a number, so in [add r0,5,r1] after a label [5:] at
    address 1 the operand is 1, not 5. *)
Theorem numeric_label_shadows p :
  lines_to_instr p ["add r0,5,r1"; "5:"; "stop"] = Ok [[1; 0; 1; 1; 1]; [0]] /\
  main p 2 "add r0,5,r1
5:
stop" = Halted (mkVM [0; 1; 0; 0; 0; 0; 0; 0] [136314913; 0] 2).
Proof. destruct p; split; vm_compute; reflexivity. Qed.

End Pipeline.
