(* ===== verification/Printer.v ===== *)
(** * Source text of abstract programs, and the assembler's round trip

    [print_prog] writes an abstract program of [ISA] as assembler source
    in the syntax the spec gives (§6): one instruction per line, the
    mnemonic, a space, and the operands separated by commas, registers
    as [rN] and immediates in decimal.  The theorems show that the
    assembler reads this text back: [read_file] recovers the lines,
    [lines_to_instr] recovers the vectors [to_vec] of the instructions,
    and [assemble] produces the words of [assemble_prog].  Composed with
    the refinement theorem of [ISA], [main] on the printed text runs the
    abstract program, and [main] on the text of a forward-only program
    stops within one cycle more than the program's length.

    [print_with] writes an instruction whose immediate slot is any text
    (a numeral, or a label name for [Source]); its reading-back lemmas
    take the text's parse as a hypothesis.  Decimal numerals are printed
    by [dec] with at most ten digits, enough for every [u32]
    ([2^32 < 10^10]). *)

From Stdlib Require Import Ascii.
From S2P Require Import Prelude RustStr Labels Parser Encoder Decoder VM ISA Pipeline.
Import RustStr Labels Parser Encoder Decoder Machine ISA Pipeline.

Module Printer.

(** ** Decimal numerals *)

Definition digit_char (d : Z) : ascii := ascii_of_nat (Z.to_nat (48 + d)).

(** Decimal numerals ([format!("{}")]). *)
Definition dec (n : Z) : string := num_go 10 digit_char 10 n.

(** ** Lemmas on numerals *)

(** [digit_cases d] splits [0 <= d < 10] into the ten digits. *)
Ltac digit_cases d :=
  let H := fresh in
  assert (H : d = 0 \/ d = 1 \/ d = 2 \/ d = 3 \/ d = 4 \/ d = 5 \/ d = 6 \/ d = 7 \/ d = 8 \/ d = 9)
    by lia;
  destruct_or! H; subst d.

Lemma digit_char_val d : 0 <= d < 10 -> digit_val (digit_char d) = Some d.
Proof. intros Hd. digit_cases d; reflexivity. Qed.

(** [parse::<u32>] reads back every numeral of a [u32]. *)
Lemma parse_u32_dec n : is_u32 n -> parse_u32 (dec n) = Some n.
Proof.
  intros Hn. unfold dec.
  assert (Hp : parse_digits (num_go 10 digit_char 10 n) 0 = Some n).
  { rewrite parse_digits_num. apply num_go_parse; [lia | apply digit_char_val | u32_lia]. }
  destruct (num_go_head 10 digit_char ltac:(lia) 9 n) as (d & r & Hd & Hdr); [u32_lia|].
  rewrite Hd in Hp |- *.
  unfold parse_u32. digit_cases d; simpl in Hp |- *; rewrite Hp; simpl;
    (rewrite bool_decide_true by u32_lia); reflexivity.
Qed.

(** ** Tokens and lines *)

(** A token character: not blank, and none of the separators. *)
Definition tok_char (c : ascii) : bool :=
  negb (is_whitespace c) && bool_decide (c ≠ ","%char) && bool_decide (c ≠ ";"%char) &&
  bool_decide (c ≠ ":"%char).

(** A character of a printed line: a token character, a comma or a space. *)
Definition line_char (c : ascii) : bool :=
  tok_char c || bool_decide (c = ","%char) || bool_decide (c = " "%char).

(** A token: a non-empty string of token characters. *)
Definition token (s : string) : Prop := s ≠ EmptyString /\ all_chars tok_char s = true.

Definition reg_name (r : Z) : string := String "r" (dec r).

(** The key of [OP_CODES] with value [v]. *)
Fixpoint rassoc (v : Z) (tbl : list (string * Z)) : string :=
  match tbl with
  | [] => EmptyString
  | (k, v') :: tbl' => if bool_decide (v' = v) then k else rassoc v tbl'
  end.

Definition mnemonic (op : Z) : string := rassoc op OP_CODES.

(** ** The printer *)

(** Every instruction has at most one immediate slot: the second operand
    of a format E instruction, the target of [jmp], the address of a
    branch, the number of [scall].  [has_slot] says whether it is in use
    (an immediate, not a register), [slot_val] is its value. *)
Definition is_reg_operand (o : operand) : bool := match o with Reg _ => true | Imm _ => false end.

Definition has_slot (i : instr) : bool :=
  match i with
  | IStop => false
  | IAlu _ _ o _ | IMem _ _ o _ | IJmp o _ => negb (is_reg_operand o)
  | IBraz _ _ | IBranz _ _ | IScall _ => true
  end.

Definition slot_val (i : instr) : Z :=
  match i with
  | IStop => 0
  | IAlu _ _ o _ | IMem _ _ o _ | IJmp o _ => operand_val o
  | IBraz _ addr | IBranz _ addr => addr
  | IScall num => num
  end.

(** The text of an operand whose immediate is written [t]. *)
Definition slot_text (o : operand) (t : string) : string :=
  match o with Reg r => reg_name r | Imm _ => t end.

(** [mnemonic arg1,arg2,...] *)
Definition line_of (m : string) (args : list string) : string :=
  String.append m (String " " (String.concat (String "," EmptyString) args)).

(** The line of an instruction whose immediate slot is written [t]: a
    numeral, or the name of a label. *)
Definition print_with (i : instr) (t : string) : string :=
  match i with
  | IStop => "stop"
  | IAlu op rs o rd | IMem op rs o rd =>
      line_of (mnemonic op) [reg_name rs; slot_text o t; reg_name rd]
  | IJmp o rd => line_of "jmp" [slot_text o t; reg_name rd]
  | IBraz r _ => line_of "braz" [reg_name r; t]
  | IBranz r _ => line_of "branz" [reg_name r; t]
  | IScall _ => line_of "scall" [t]
  end.

Definition print_instr (i : instr) : string := print_with i (dec (slot_val i)).

(** One line per instruction, separated by line feeds. *)
Definition print_prog (prog : list instr) : string :=
  String.concat (String "010" EmptyString) (map print_instr prog).

(** ** Lemmas on tokens *)

Lemma tok_char_ne c sep :
  tok_char c = true -> sep = ","%char \/ sep = ";"%char \/ sep = ":"%char \/
  sep = " "%char \/ sep = "010"%char -> c ≠ sep.
Proof. intros Hc Hs ->. by destruct_or! Hs; subst. Qed.

Lemma line_char_ne c sep :
  line_char c = true -> sep = ";"%char \/ sep = ":"%char \/ sep = "010"%char -> c ≠ sep.
Proof.
  unfold line_char. rewrite !orb_true_iff, !bool_decide_eq_true. intros Hc Hs ->.
  destruct Hc as [[Hc | ->] | ->]; [|by destruct_or! Hs..].
  by apply (tok_char_ne _ sep Hc); [destruct_or! Hs; subst; tauto|].
Qed.

Lemma digit_char_tok d : 0 <= d < 10 -> tok_char (digit_char d) = true.
Proof. intros Hd. digit_cases d; reflexivity. Qed.

Lemma dec_token n : is_u32 n -> token (dec n).
Proof.
  intros Hn. split; [|apply num_go_chars; [lia | apply digit_char_tok | u32_lia]].
  destruct (num_go_head 10 digit_char ltac:(lia) 9 n) as (d & r & Hd & _); [u32_lia|].
  unfold dec. by rewrite Hd.
Qed.

Lemma reg_name_token r : is_u32 r -> token (reg_name r).
Proof. intros Hr. split; [done|]. simpl. by apply dec_token. Qed.

Lemma mnemonic_ok op :
  0 <= op <= 18 -> token (mnemonic op) /\ op_code (mnemonic op) = Some op.
Proof.
  intros Hop.
  assert (Hall : Forall (λ op, mnemonic op ≠ EmptyString /\ all_chars tok_char (mnemonic op) = true /\
                               op_code (mnemonic op) = Some op) (seqZ 0 19)) by decide_prop.
  rewrite Forall_forall in Hall. destruct (Hall op) as (? & ? & ?); [|done].
  apply elem_of_seqZ. lia.
Qed.

(** The join of tokens with a separator character [sep] has only token
    characters and [sep]. *)
Lemma concat_chars (f : ascii -> bool) sep l :
  f sep = true -> Forall (λ s, all_chars f s = true) l ->
  all_chars f (String.concat (String sep EmptyString) l) = true.
Proof.
  intros Hsep. induction l as [|s l IH]; intros Hl; [done|].
  apply Forall_cons in Hl as [Hs Hl]. destruct l as [|s' l]; [done|].
  change (String.concat (String sep EmptyString) (s :: s' :: l))
    with (String.append s (String sep (String.concat (String sep EmptyString) (s' :: l)))).
  rewrite all_chars_app. simpl. rewrite Hs, Hsep. by apply IH.
Qed.

Lemma token_no_char sep s :
  sep = ","%char \/ sep = ";"%char \/ sep = ":"%char \/ sep = " "%char \/ sep = "010"%char ->
  all_chars tok_char s = true -> no_char sep s = true.
Proof.
  intros Hsep. apply all_chars_impl. intros c Hc. apply bool_decide_eq_true.
  by apply tok_char_ne.
Qed.

(** [split_instruction] reads a printed line back. *)
Lemma split_instruction_line m args :
  token m -> args ≠ [] -> Forall token args ->
  split_instruction (line_of m args) = (m, Some args).
Proof.
  intros [Hm Hmt] Hargs Hl. unfold split_instruction, line_of.
  assert (Hlt : Forall (λ s, all_chars tok_char s = true) args) by (eapply Forall_impl; [done|]; by intros ? []).
  rewrite split_char_app by (apply token_no_char; [tauto | done]).
  rewrite (split_char_none " "%char).
  - unfold concat_all. simpl. f_equal. f_equal. apply split_char_concat; [done|].
    eapply Forall_impl; [done|]. intros s Hs. apply token_no_char; [tauto | done].
  - apply (all_chars_impl (λ c, tok_char c || bool_decide (c = ","%char))).
    + intros c Hc. apply bool_decide_eq_true. intros ->. by apply orb_true_iff in Hc as [|].
    + apply concat_chars; [done|]. eapply Forall_impl; [done|]. intros s Hs.
      apply (all_chars_impl tok_char); [|done]. intros c ->. done.
Qed.

(** ** Reading one printed line back *)

Lemma parse_argument_reg r labels : is_u32 r -> parse_argument (reg_name r) labels = Ok (r, true).
Proof.
  intros Hr. unfold parse_argument, reg_name. cbn [first_char opt_res].
  rewrite bind_Ok_l, bool_decide_true by done. cbn [skip_first].
  by rewrite parse_u32_dec.
Qed.

Lemma parse_argument_dec v labels :
  is_u32 v -> labels !! dec v = None -> parse_argument (dec v) labels = Ok (v, false).
Proof.
  intros Hv Hl. unfold parse_argument.
  destruct (num_go_head 10 digit_char ltac:(lia) 9 v) as (d & r & Hd & Hdr); [u32_lia|].
  assert (first_char (dec v) = Some (digit_char d)) as -> by (unfold dec; by rewrite Hd).
  cbn [opt_res]. rewrite bind_Ok_l, bool_decide_false by (digit_cases d; discriminate).
  by rewrite Hl, parse_u32_dec.
Qed.

Lemma parse_slot labels w o t :
  operand_ok w o = true ->
  (negb (is_reg_operand o) = true -> parse_argument t labels = Ok (operand_val o, false)) ->
  parse_argument (slot_text o t) labels = Ok (operand_val o, is_reg_operand o) /\
  imm_flag (is_reg_operand o) = imm_bit o.
Proof.
  intros Ho Ht. destruct o as [r|v]; cbn [operand_ok is_reg] in Ho; (split; [|done]);
    cbn [slot_text is_reg_operand operand_val] in *.
  - apply parse_argument_reg. apply bool_decide_eq_true in Ho. u32_lia.
  - by apply Ht.
Qed.

Lemma last_char_all f s c : all_chars f s = true -> last_char s = Some c -> f c = true.
Proof.
  induction s as [|c' s IH]; [done|]. cbn [all_chars]. rewrite andb_true_iff.
  intros [Hc Hs]. destruct s as [|c'' s]; [by intros [= <-]|]. cbn [last_char]. auto.
Qed.

Lemma slot_token w o t : operand_ok w o = true -> token t -> token (slot_text o t).
Proof.
  intros Ho Ht. destruct o as [r|v]; [|done]. cbn in *. apply reg_name_token.
  apply bool_decide_eq_true in Ho. u32_lia.
Qed.

(** [token_side] proves that the pieces of a printed line are tokens,
    from the hypotheses [wf_split] leaves. *)
Ltac token_one :=
  first [ apply reg_name_token; u32_lia | eapply slot_token; [eassumption | assumption]
        | assumption ].
Ltac token_side :=
  first
    [ done
    | apply mnemonic_ok; lia
    | split; [done | reflexivity]
    | repeat (apply List.Forall_cons; [token_one|]); apply List.Forall_nil ].

(** The line of a well-formed instruction is [line_of] a token and a
    non-empty list of tokens, or [stop]. *)
Lemma print_with_shape i t :
  wf i = true -> token t ->
  print_with i t = "stop" \/
  exists m args, print_with i t = line_of m args /\ token m /\ args ≠ [] /\ Forall token args.
Proof.
  intros Hwf Ht. destruct i as [| op rs o rd | op rs o rd | o rd | r addr | r addr | num];
    [by left | right..]; eexists _, _; (split; [reflexivity|]); wf_split Hwf;
    split_and!; token_side.
Qed.

Lemma line_chars m args :
  token m -> Forall token args -> all_chars line_char (line_of m args) = true.
Proof.
  intros [_ Hm] Hargs. unfold line_of. rewrite all_chars_app. apply andb_true_iff. split.
  - apply (all_chars_impl tok_char); [|done]. unfold line_char. by intros c ->.
  - cbn [all_chars]. apply concat_chars; [done|]. eapply Forall_impl; [done|].
    intros s [_ Hs]. apply (all_chars_impl tok_char); [|done]. unfold line_char. by intros c ->.
Qed.

(** A printed instruction is neither empty nor a label line. *)
Lemma print_with_not_label i t :
  wf i = true -> token t -> print_with i t ≠ EmptyString /\ label_line (print_with i t) = false.
Proof.
  intros Hwf Ht.
  destruct (print_with_shape i t Hwf Ht) as [-> | (m & args & -> & Hm & Hne & Hargs)]; [done|].
  split.
  - destruct Hm as [Hm _]. unfold line_of. by destruct m.
  - unfold label_line. apply bool_decide_eq_false. intros Hl.
    apply (last_char_all line_char) in Hl; [|by apply line_chars].
    by apply (line_char_ne _ ":"%char) in Hl; [|tauto].
Qed.

(** [parse_and_push] rewrites the operand parses of a printed line. *)
Ltac parse_and_push Ht :=
  repeat first
    [ rewrite bind_Ok_l
    | rewrite parse_argument_reg by u32_lia
    | rewrite (proj1 (parse_slot _ _ _ _ ltac:(eassumption) Ht))
    | rewrite Ht by done ];
  cbv beta iota.

(** The second pass reads the line of a well-formed instruction back,
    whatever the text [t] of its slot, provided [parse_argument] reads
    [t] as the slot's value under the label table. *)
Lemma line_to_instr_with labels i t :
  wf i = true -> token t ->
  (has_slot i = true -> parse_argument t labels = Ok (slot_val i, false)) ->
  line_to_instr labels (print_with i t) = Ok (Some (to_vec i)).
Proof.
  intros Hwf Htok Ht. destruct (print_with_not_label i t Hwf Htok) as [Hne Hlab].
  unfold line_to_instr, operands_vec. rewrite (is_label_ok _ Hne), Hlab, bind_Ok_l. cbv beta iota.
  destruct i as [| op rs o rd | op rs o rd | o rd | r addr | r addr | num]; [reflexivity|..];
    wf_split Hwf; cbn [has_slot slot_val] in Ht; cbn [print_with];
    (rewrite split_instruction_line by token_side); cbv beta iota;
    first [ rewrite (proj2 (mnemonic_ok op ltac:(lia)))
          | replace (op_code "jmp") with (Some 15) by reflexivity
          | replace (op_code "braz") with (Some 16) by reflexivity
          | replace (op_code "branz") with (Some 17) by reflexivity
          | replace (op_code "scall") with (Some 18) by reflexivity ];
    cbn [opt_res]; rewrite ?bind_Ok_l; cbv beta iota;
    rewrite ?bool_decide_true by done; rewrite ?bool_decide_false by discriminate;
    parse_and_push Ht.
  all: try reflexivity.
  all: by rewrite (proj2 (parse_slot _ _ _ _ ltac:(eassumption) Ht)).
Qed.

Lemma operand_ok_u32 w o : operand_ok w o = true -> w <= 32 -> is_u32 (operand_val o).
Proof.
  intros Ho Hw. destruct o; cbn [operand_ok is_reg operand_val] in *;
    apply bool_decide_eq_true in Ho; [u32_lia|]. unfold fits in Ho.
  assert (2 ^ w <= 2 ^ 32) by (apply Z.pow_le_mono_r; lia). u32_lia.
Qed.

Lemma wf_slot_token i : wf i = true -> is_u32 (slot_val i) /\ token (dec (slot_val i)).
Proof.
  intros Hwf. enough (is_u32 (slot_val i)) by (split; [|apply dec_token]; done).
  destruct i as [| op rs o rd | op rs o rd | o rd | r addr | r addr | num];
    wf_split Hwf; cbn [slot_val];
    first [u32_lia | eapply operand_ok_u32; [eassumption | lia] | unfold fits in *; u32_lia].
Qed.

(** A numeral no label shadows reads back as itself. *)
Lemma line_to_instr_print labels i :
  wf i = true -> labels !! dec (slot_val i) = None ->
  line_to_instr labels (print_instr i) = Ok (Some (to_vec i)).
Proof.
  intros Hwf Hl. destruct (wf_slot_token i Hwf) as [Hu Htok].
  apply line_to_instr_with; [done..|]. intros _. by apply parse_argument_dec.
Qed.

(** ** Reading a printed program back *)

Lemma concat_nonempty sep a l : a ≠ EmptyString -> String.concat sep (a :: l) ≠ EmptyString.
Proof. intros Ha. destruct l; [done|]. simpl. by destruct a. Qed.

Lemma print_with_clean i t : wf i = true -> token t -> clean_line (print_with i t).
Proof.
  intros Hwf Ht. destruct (print_with_shape i t Hwf Ht) as [-> | (m & args & -> & Hm & Hne & Hargs)];
    [split_and!; done|].
  pose proof (line_chars m args Hm Hargs) as Hc.
  assert (Hnows : forall s, all_chars tok_char s = true ->
                  all_chars (λ c, negb (is_whitespace c)) s = true).
  { intros s. apply all_chars_impl. intros c Hc'. unfold tok_char in Hc'.
    by repeat rewrite andb_true_iff in Hc'; destruct_and! Hc'. }
  split_and!.
  - destruct Hm as [Hm _]. unfold line_of. by destruct m.
  - unfold line_of. apply trim_spaced.
    + by destruct Hm.
    + destruct args as [|a args]; [done|]. apply Forall_cons in Hargs as [[Ha _] _].
      by apply concat_nonempty.
    + apply Hnows. by destruct Hm.
    + apply concat_chars; [done|]. eapply Forall_impl; [done|]. intros s [_ Hs]. by apply Hnows.
  - apply (all_chars_impl line_char); [|done]. intros c Hc'. apply bool_decide_eq_true.
    apply line_char_ne; [done | tauto].
  - apply (all_chars_impl line_char); [|done]. intros c Hc'. apply bool_decide_eq_true.
    apply line_char_ne; [done | tauto].
Qed.

Lemma read_file_print prog :
  prog ≠ [] -> Forall (λ i, wf i = true) prog -> read_file (print_prog prog) = map print_instr prog.
Proof.
  intros Hne Hwf. unfold print_prog. apply read_file_join; [by destruct prog|].
  apply Forall_map. eapply Forall_impl; [done|]. intros i Hi. apply print_with_clean; [done | apply wf_slot_token, Hi].
Qed.

Lemma last_def_no_label lines name :
  Forall (λ l, label_line l = false) lines -> last_def lines name = None.
Proof. induction 1 as [|l r Hl _ IH]; [done|]. simpl. by rewrite IH, Hl. Qed.

Lemma lines_to_instr_print p prog :
  Forall (λ i, wf i = true) prog -> Z.of_nat (length prog) < u32_modulus ->
  lines_to_instr p (map print_instr prog) = Ok (map to_vec prog).
Proof.
  intros Hwf Hlen. unfold lines_to_instr.
  assert (Hlines : Forall (λ l, l ≠ EmptyString /\ label_line l = false) (map print_instr prog)).
  { apply Forall_map. eapply Forall_impl; [done|]. intros i Hi. apply print_with_not_label; [done | apply wf_slot_token, Hi]. }
  destruct (label_table_spec p (map print_instr prog)) as (m & Hm & Hspec).
  - eapply Forall_impl; [done|]. by intros ? [].
  - by rewrite length_map.
  - rewrite Hm, bind_Ok_l.
    assert (m = ∅) as ->.
    { apply map_eq. intros name. rewrite Hspec, lookup_empty. unfold label_spec.
      rewrite last_def_no_label; [done|]. eapply Forall_impl; [done|]. by intros ? []. }
    clear Hm Hspec Hlines Hlen. induction Hwf as [|i prog Hi _ IH]; [done|].
    cbn [map collect]. rewrite line_to_instr_print by (done || apply lookup_empty). by rewrite bind_Ok_l, IH, bind_Ok_l.
Qed.

Lemma mapM_map {A B C} (f : B -> res C) (g : A -> B) l : mapM f (map g l) = mapM (λ x, f (g x)) l.
Proof. induction l as [|x l IH]; simpl; [done|]. by rewrite IH. Qed.

(** The assembler half of [main] on a printed program. *)
Lemma assemble_print_eq p prog :
  prog ≠ [] -> Forall (λ i, wf i = true) prog -> Z.of_nat (length prog) < u32_modulus ->
  assemble p (print_prog prog) = assemble_prog p prog.
Proof.
  intros Hne Hwf Hlen. unfold assemble, assemble_lines. rewrite read_file_print, lines_to_instr_print by done.
  rewrite bind_Ok_l. unfold instr_to_machine_code, assemble_prog. apply mapM_map.
Qed.

(** ** Theorems *)

(** C9: the assembler reads back what the printer writes: for a
    non-empty well-formed program, the normaliser and the second pass
    return the instructions' vectors [to_vec] in order, and [assemble]
    returns the words of [assemble_prog]. *)
Theorem assemble_print p prog :
  prog ≠ [] -> Forall (λ i, wf i = true) prog -> Z.of_nat (length prog) < u32_modulus ->
  lines_to_instr p (read_file (print_prog prog)) = Ok (map to_vec prog) /\
  assemble p (print_prog prog) = assemble_prog p prog.
Proof.
  intros Hne Hwf Hlen. split; [|by apply assemble_print_eq].
  rewrite read_file_print by done. by apply lines_to_instr_print.
Qed.

Lemma assemble_print_witness :
  lines_to_instr Debug (read_file (print_prog [IAlu 1 0 (Imm 5) 1; IJmp (Reg 1) 2; IStop])) =
    Ok (map to_vec [IAlu 1 0 (Imm 5) 1; IJmp (Reg 1) 2; IStop]) /\
  assemble Debug (print_prog [IAlu 1 0 (Imm 5) 1; IJmp (Reg 1) 2; IStop]) =
    assemble_prog Debug [IAlu 1 0 (Imm 5) 1; IJmp (Reg 1) 2; IStop].
Proof. apply assemble_print; [done | decide_prop | unfold u32_modulus; simpl; lia]. Defined.

(** C6: end to end, [main] on the printed text of a well-formed program
    runs the abstract program from all-zero registers: in a release
    build it halts, keeps running or crashes exactly when [arun] halts,
    keeps running or faults, in the abstracted state; a debug build may
    in addition crash on an overflow. *)
Theorem main_refines p prog fuel :
  prog ≠ [] -> Forall (λ i, wf i = true) prog -> Z.of_nat (length prog) + 2 < u32_modulus ->
  match main p fuel (print_prog prog) with
  | Halted vm' => arun prog fuel (St (replicate 8 0) 0) = AHalted (abs vm')
  | Running vm' => arun prog fuel (St (replicate 8 0) 0) = ARunning (abs vm')
  | Crashed _ => arun prog fuel (St (replicate 8 0) 0) = AFault \/ p = Debug
  end.
Proof.
  intros Hne Hwf Hlen. destruct (assemble_prog_ok p prog Hwf) as [words Hw].
  unfold main. rewrite assemble_print_eq, Hw by (done || lia).
  apply (run_arun p prog words fuel (new words)); [done | done | done | apply new_inv | done].
Qed.

(** [add r0,5,r1; div r1,r0,r2; stop] faults in both machines. *)
Lemma main_refines_witness :
  match main Release 3 (print_prog [IAlu 1 0 (Imm 5) 1; IAlu 4 1 (Reg 0) 2; IStop]) with
  | Halted vm' => arun [IAlu 1 0 (Imm 5) 1; IAlu 4 1 (Reg 0) 2; IStop] 3 (St (replicate 8 0) 0) = AHalted (abs vm')
  | Running vm' => arun [IAlu 1 0 (Imm 5) 1; IAlu 4 1 (Reg 0) 2; IStop] 3 (St (replicate 8 0) 0) = ARunning (abs vm')
  | Crashed _ => arun [IAlu 1 0 (Imm 5) 1; IAlu 4 1 (Reg 0) 2; IStop] 3 (St (replicate 8 0) 0) = AFault \/ Release = Debug
  end.
Proof. apply main_refines; [done | decide_prop | unfold u32_modulus; simpl; lia]. Defined.

(** C25: the program [main] runs terminates when every jump of the
    assembled source goes forward: with one cycle more than the program
    has instructions, the machine has halted or faulted, never still
    running. The variant is [length prog - pc] ([arun_forward]). *)
Theorem forward_branches_terminate p prog :
  prog ≠ [] -> Forall (λ i, wf i = true) prog -> Z.of_nat (length prog) + 2 < u32_modulus ->
  forward_only prog = true ->
  match main p (S (length prog)) (print_prog prog) with Running _ => False | _ => True end.
Proof.
  intros Hne Hwf Hlen Hfw. destruct (assemble_prog_ok p prog Hwf) as [words Hw].
  pose proof (arun_forward prog (S (length prog)) (St (replicate 8 0) 0) Hfw ltac:(cbn; lia) ltac:(cbn; lia)) as Ha.
  pose proof (run_arun p prog words (S (length prog)) (new words) Hwf Hw Hlen (new_inv words) eq_refl) as Hr.
  unfold main. rewrite assemble_print_eq, Hw by (done || lia).
  revert Hr. destruct (run _ _ _) as [vm'|e|vm']; [done|done|].
  intros Hr. change (abs (new words)) with (St (replicate 8 0) 0) in Hr. by rewrite Hr in Ha.
Qed.

(** [braz r0,2; add r0,5,r1; stop] branches over the [add] and halts. *)
Lemma forward_branches_terminate_witness :
  match main Release 4 (print_prog [IBraz 0 2; IAlu 1 0 (Imm 5) 1; IStop]) with
  | Running _ => False | _ => True end.
Proof.
  apply (forward_branches_terminate Release [IBraz 0 2; IAlu 1 0 (Imm 5) 1; IStop]);
    [done | decide_prop | unfold u32_modulus; simpl; lia | reflexivity].
Defined.

End Printer.
