(* ===== verification/Source.v ===== *)
(** * Assembler source with labels: the two passes together

    A source program is a list of [item]s: label definitions, and
    instructions whose immediate slot is either a numeral or the name of
    a label, forward or backward.  [print_source] writes it in the
    syntax of spec §6, and [resolve] gives its meaning as an abstract
    program of [ISA]: every reference replaced by the number of
    instructions before the last definition of the label (spec §4.1,
    §7 "forward label references").

    The theorems show that the two passes of the assembler
    ([get_label_adresses] then [lines_to_instr], assembler.rs) read the
    printed source as [resolve] says, so that [main] on the text runs
    the resolved program ([ISA.arun]).  Label names are tokens whose
    first character is neither [r] (it would read as a register) nor a
    digit (a label named like a numeral shadows the numeral, which
    [Pipeline.numeric_label_shadows] shows on an example).  Sources are shorter
    than [2^16] items, so that every address fits the narrowest
    immediate field. *)

From Stdlib Require Import Ascii.
From S2P Require Import Prelude RustStr Labels Parser Encoder Decoder VM ISA Pipeline Printer.
Import RustStr Labels Parser Encoder Decoder Machine ISA Pipeline Printer.

Module Source.

(** ** Source programs *)

Inductive item :=
| ILabel (name : string)             (** [name:] *)
| IInstr (i : instr)                 (** an instruction, its slot a numeral *)
| IRef (i : instr) (name : string).  (** an instruction whose slot names a label *)

(** A label name [parse_argument] reads as a label: a token whose first
    character is neither [r] nor a digit. *)
Definition label_name (name : string) : bool :=
  match name with
  | EmptyString => false
  | String c _ =>
      bool_decide (c ≠ "r"%char) && bool_decide (digit_val c = None) && all_chars tok_char name
  end.

Definition item_ok (it : item) : bool :=
  match it with
  | ILabel name => label_name name
  | IInstr i => wf i
  | IRef i name => wf i && has_slot i && label_name name
  end.

Definition print_item (it : item) : string :=
  match it with
  | ILabel name => String.append name ":"
  | IInstr i => print_instr i
  | IRef i name => print_with i name
  end.

Definition print_source (items : list item) : string :=
  String.concat (String "010" EmptyString) (map print_item items).

(** ** The meaning of a source *)

(** The number of instructions. *)
Fixpoint count_ins (items : list item) : nat :=
  match items with
  | [] => O
  | ILabel _ :: r => count_ins r
  | _ :: r => S (count_ins r)
  end.

(** The position of the last definition of [name]. *)
Fixpoint last_label (items : list item) (name : string) : option nat :=
  match items with
  | [] => None
  | it :: r =>
      match last_label r name with
      | Some i => Some (S i)
      | None => match it with ILabel n => if bool_decide (n = name) then Some O else None | _ => None end
      end
  end.

(** The address of a label: the instructions before its last definition. *)
Definition addr_of (items : list item) (name : string) : option Z :=
  (λ i, Z.of_nat (count_ins (take i items))) <$> last_label items name.

Definition set_opnd (o : operand) (v : Z) : operand :=
  match o with Reg r => Reg r | Imm _ => Imm v end.

(** The instruction with [v] in its immediate slot. *)
Definition set_slot (i : instr) (v : Z) : instr :=
  match i with
  | IStop => IStop
  | IAlu op rs o rd => IAlu op rs (set_opnd o v) rd
  | IMem op rs o rd => IMem op rs (set_opnd o v) rd
  | IJmp o rd => IJmp (set_opnd o v) rd
  | IBraz r _ => IBraz r v
  | IBranz r _ => IBranz r v
  | IScall _ => IScall v
  end.

(** The program a source denotes under a label table [addr]; [None] when
    a reference names no label. *)
Fixpoint resolve_go (addr : string -> option Z) (items : list item) : option (list instr) :=
  match items with
  | [] => Some []
  | ILabel _ :: r => resolve_go addr r
  | IInstr i :: r => cons i <$> resolve_go addr r
  | IRef i name :: r => a ← addr name; cons (set_slot i a) <$> resolve_go addr r
  end.

Definition resolve (items : list item) : option (list instr) := resolve_go (addr_of items) items.

(** ** Label lines *)

Lemma last_char_label name : last_char (String.append name ":") = Some ":"%char.
Proof. induction name as [|c [|c' s] IH]; [done..|]. exact IH. Qed.

Lemma pop_label name : pop (String.append name ":") = name.
Proof.
  induction name as [|c s IH]; [done|].
  change (pop (String c (String.append s ":")) = String c s).
  destruct s; [done|]. cbn [pop]. by rewrite IH.
Qed.

Lemma label_name_chars name :
  label_name name = true -> name ≠ EmptyString /\ all_chars tok_char name = true.
Proof. destruct name as [|c s]; [done|]. cbn [label_name]. rewrite !andb_true_iff. naive_solver. Qed.

Lemma label_name_token name : label_name name = true -> token name.
Proof. apply label_name_chars. Qed.

(** The characters of a label line: token characters and the colon. *)
Lemma label_line_chars name :
  label_name name = true ->
  all_chars (λ c, tok_char c || bool_decide (c = ":"%char)) (String.append name ":") = true.
Proof.
  intros Hn. apply label_name_chars in Hn as [_ Hn]. rewrite all_chars_app. apply andb_true_iff.
  split; [|done]. apply (all_chars_impl tok_char); [|done]. by intros c ->.
Qed.

Lemma label_text_clean name : label_name name = true -> clean_line (String.append name ":").
Proof.
  intros Hn. pose proof (label_line_chars name Hn) as Hc.
  assert (Hsep : forall sep, sep = ";"%char \/ sep = "010"%char ->
                 no_char sep (String.append name ":") = true).
  { intros sep Hsep. refine (all_chars_impl _ _ _ _ Hc). intros c Hc'. apply bool_decide_eq_true.
    apply orb_true_iff in Hc' as [Ht | Hcol%bool_decide_eq_true].
    - by apply tok_char_ne; [|tauto].
    - subst. by destruct Hsep as [-> | ->]. }
  split_and!; [by destruct name | | apply Hsep; tauto..].
  apply trim_no_blank. refine (all_chars_impl _ _ _ _ Hc). intros c Hc'.
  apply orb_true_iff in Hc' as [Ht | Hcol%bool_decide_eq_true]; [|by subst].
  unfold tok_char in Ht. by repeat rewrite andb_true_iff in Ht; destruct_and! Ht.
Qed.

(** Every line of a source is clean, and it is a label line exactly for a
    label. *)
Lemma print_item_line it :
  item_ok it = true ->
  clean_line (print_item it) /\
  label_line (print_item it) = match it with ILabel _ => true | _ => false end.
Proof.
  destruct it as [name | i | i name]; cbn [item_ok print_item].
  - intros Hn. split; [by apply label_text_clean|].
    unfold label_line. by rewrite last_char_label.
  - intros Hwf. destruct (wf_slot_token i Hwf) as [_ Ht]. unfold print_instr.
    split; [by apply print_with_clean | apply print_with_not_label; done].
  - rewrite !andb_true_iff. intros ([Hwf _] & Hn). apply label_name_token in Hn.
    split; [by apply print_with_clean | apply print_with_not_label; done].
Qed.

Lemma print_items_nonempty items :
  Forall (λ it, item_ok it = true) items -> Forall (λ l, l ≠ EmptyString) (map print_item items).
Proof.
  intros H. apply Forall_map. eapply Forall_impl; [done|]. intros it Hit.
  by destruct (print_item_line it Hit) as [[? _] _].
Qed.

(** ** The first pass on a printed source *)

Lemma count_instrs_items items :
  Forall (λ it, item_ok it = true) items -> count_instrs (map print_item items) = count_ins items.
Proof.
  induction 1 as [|it r Hit _ IH]; [done|]. cbn [map count_instrs].
  rewrite (proj2 (print_item_line it Hit)), IH. by destruct it.
Qed.

Lemma last_def_items items name :
  Forall (λ it, item_ok it = true) items -> last_def (map print_item items) name = last_label items name.
Proof.
  induction 1 as [|it r Hit _ IH]; [done|]. cbn [map last_def last_label].
  rewrite (proj2 (print_item_line it Hit)), IH. destruct (last_label r name); [done|].
  destruct it; [|done..]. cbn [print_item andb]. by rewrite pop_label.
Qed.

(** The table the first pass is meant to build is [addr_of]. *)
Lemma label_spec_items items name :
  Forall (λ it, item_ok it = true) items -> label_spec (map print_item items) name = addr_of items name.
Proof.
  intros H. unfold label_spec, addr_of. rewrite last_def_items by done.
  destruct (last_label items name) as [i|]; [|done]. cbn [fmap option_fmap option_map].
  change (take i (map print_item items)) with (take i (print_item <$> items)).
  rewrite <- fmap_take, count_instrs_items; [done|]. by apply Forall_take.
Qed.

(** ** The second pass on a printed source *)

Lemma label_name_dec v : 0 <= v -> label_name (dec v) = false.
Proof.
  intros Hv. destruct (num_go_head 10 digit_char ltac:(lia) 9 v) as (d & r & Hd & Hdr); [lia|].
  unfold dec. rewrite Hd. cbn [label_name]. rewrite (bool_decide_false (digit_val _ = None));
    [by rewrite andb_false_r | by rewrite digit_char_val].
Qed.

Lemma parse_argument_label labels name a :
  label_name name = true -> labels !! name = Some a -> parse_argument name labels = Ok (a, false).
Proof.
  intros Hn Hl. destruct name as [|c s]; [done|]. cbn [label_name] in Hn.
  apply andb_true_iff in Hn as [[Hr _]%andb_true_iff _]. apply bool_decide_eq_true in Hr.
  unfold parse_argument. cbn [first_char opt_res]. rewrite bind_Ok_l, bool_decide_false by done.
  by rewrite Hl.
Qed.

Lemma line_to_instr_label_line labels line :
  line ≠ EmptyString -> label_line line = true -> line_to_instr labels line = Ok None.
Proof. intros Hne Hl. unfold line_to_instr. by rewrite is_label_ok, Hl. Qed.

Lemma fits_16_le w a : 16 <= w -> fits 16 a -> fits w a.
Proof.
  unfold fits. intros Hw Ha. assert (2 ^ 16 <= 2 ^ w) by (apply Z.pow_le_mono_r; lia). lia.
Qed.

Lemma wf_set_slot i a : wf i = true -> fits 16 a -> wf (set_slot i a) = true.
Proof.
  intros Hwf Ha. destruct i as [| op rs o rd | op rs o rd | o rd | r addr | r addr | num];
    cbn [wf set_slot] in *; [done|..]; repeat rewrite andb_true_iff in *; destruct_and? Hwf;
    try destruct o; cbn [operand_ok set_opnd] in *; split_and?; try done;
    apply bool_decide_eq_true; apply fits_16_le; (done || lia).
Qed.

(** The text of an instruction does not depend on the value in its slot. *)
Lemma print_with_set_slot i a t : print_with (set_slot i a) t = print_with i t.
Proof. by destruct i as [| | | [] | | |]; try destruct o. Qed.

Lemma slot_set_slot i a : has_slot (set_slot i a) = has_slot i /\ (has_slot i = true -> slot_val (set_slot i a) = a).
Proof. by destruct i as [| ? ? [] ? | ? ? [] ? | [] ? | | |]. Qed.

(** The second pass reads a printed source as [resolve_go] under the
    table it is given, when the table binds label names only, to
    addresses that fit every immediate field. *)
Lemma collect_items m items prog :
  Forall (λ it, item_ok it = true) items ->
  (forall name a, m !! name = Some a -> label_name name = true /\ fits 16 a) ->
  resolve_go (λ name, m !! name) items = Some prog ->
  collect m (map print_item items) = Ok (map to_vec prog) /\ Forall (λ i, wf i = true) prog.
Proof.
  intros Hok Hm. revert prog. induction Hok as [|it r Hit _ IH]; intros prog Hres.
  { by injection Hres as <-. }
  cbn [map collect]. destruct it as [name | i | i name]; cbn [resolve_go] in Hres.
  - destruct (print_item_line _ Hit) as [[Hne _] Hl].
    rewrite line_to_instr_label_line, bind_Ok_l by done.
    destruct (IH prog Hres) as [-> Hwf]. by rewrite bind_Ok_l.
  - destruct (resolve_go _ r) as [prog'|] eqn:Hr; [|done]. injection Hres as <-.
    destruct (wf_slot_token i Hit) as [Hu _]. cbn [print_item].
    rewrite line_to_instr_print by (done || (destruct (m !! dec (slot_val i)) as [a|] eqn:Ha;
      [apply Hm in Ha as [Ha _]; by rewrite label_name_dec in Ha by u32_lia | done])).
    destruct (IH prog' ltac:(done)) as [-> Hwf]. rewrite !bind_Ok_l. split; [done | by constructor].
  - cbn [item_ok] in Hit. apply andb_true_iff in Hit as [[Hwf Hs]%andb_true_iff Hn].
    destruct (m !! name) as [a|] eqn:Ha; [|done]. cbn [mbind option_bind] in Hres.
    destruct (resolve_go _ r) as [prog'|] eqn:Hr; [|done]. injection Hres as <-.
    pose proof (proj2 (Hm _ _ Ha)) as Hfa. pose proof (wf_set_slot i a Hwf Hfa) as Hwf'.
    destruct (slot_set_slot i a) as [Hs' Hv].
    cbn [print_item]. rewrite <- (print_with_set_slot i a), line_to_instr_with; [|done | by apply label_name_token|].
    + destruct (IH prog' ltac:(done)) as [-> Hwf'']. rewrite !bind_Ok_l. split; [done | by constructor].
    + intros _. rewrite Hv by done. by apply parse_argument_label.
Qed.

(** ** The two passes together *)

Lemma last_label_lookup items name i :
  last_label items name = Some i -> items !! i = Some (ILabel name).
Proof.
  revert i. induction items as [|it r IH]; intros i; [done|]. cbn [last_label].
  destruct (last_label r name) as [j|]; [intros [= <-]; by apply IH|].
  destruct it; [|done..]. case_bool_decide; [|done]. intros [= <-]. by subst.
Qed.

Lemma count_ins_length items : (count_ins items <= length items)%nat.
Proof. induction items as [|[] r IH]; cbn; lia. Qed.

(** A label's address names a label and is below the source's length. *)
Lemma addr_of_ok items name a :
  Forall (λ it, item_ok it = true) items -> addr_of items name = Some a ->
  label_name name = true /\ 0 <= a <= Z.of_nat (length items).
Proof.
  unfold addr_of. intros Hok Ha.
  destruct (last_label items name) as [i|] eqn:Hi; [|done]. injection Ha as <-. split.
  - apply last_label_lookup in Hi. by apply (Forall_lookup_1 _ _ _ _ Hok Hi).
  - pose proof (count_ins_length (take i items)). rewrite length_take in *. lia.
Qed.

Lemma resolve_go_ext f g items :
  (forall name, f name = g name) -> resolve_go f items = resolve_go g items.
Proof. intros Hfg. induction items as [|[] r IH]; cbn; rewrite ?Hfg, ?IH; done. Qed.

(** The first pass on a printed source builds [addr_of]. *)
Lemma source_table p items :
  Forall (λ it, item_ok it = true) items -> Z.of_nat (length items) < 2 ^ 16 ->
  exists m, get_label_adresses p (map print_item items) = Ok m /\
    forall name, m !! name = addr_of items name.
Proof.
  intros Hok Hlen.
  destruct (label_table_spec p (map print_item items)) as (m & Hm & Hspec).
  - by apply print_items_nonempty.
  - rewrite length_map. unfold u32_modulus. lia.
  - exists m. split; [done|]. intros name. by rewrite Hspec, label_spec_items.
Qed.

Lemma read_file_source items :
  items ≠ [] -> Forall (λ it, item_ok it = true) items ->
  read_file (print_source items) = map print_item items.
Proof.
  intros Hne Hok. apply read_file_join; [by destruct items|].
  apply Forall_map. eapply Forall_impl; [done|]. intros it Hit. apply print_item_line, Hit.
Qed.

Lemma assemble_source_lines p items prog :
  items ≠ [] -> Forall (λ it, item_ok it = true) items -> Z.of_nat (length items) < 2 ^ 16 ->
  resolve items = Some prog ->
  lines_to_instr p (read_file (print_source items)) = Ok (map to_vec prog) /\
  Forall (λ i, wf i = true) prog.
Proof.
  intros Hne Hok Hlen Hres. rewrite read_file_source by done. unfold lines_to_instr.
  destruct (source_table p items Hok Hlen) as (m & -> & Hm). rewrite bind_Ok_l.
  apply collect_items; [done | |].
  - intros name a Ha. rewrite Hm in Ha. destruct (addr_of_ok items name a Hok Ha) as [? ?].
    split; [done|]. unfold fits. lia.
  - unfold resolve in Hres. by rewrite <- Hres; apply resolve_go_ext.
Qed.

Lemma resolve_go_length f items prog :
  resolve_go f items = Some prog -> length prog = count_ins items.
Proof.
  revert prog. induction items as [|[] r IH]; intros prog; cbn [resolve_go count_ins].
  - by intros [= <-].
  - apply IH.
  - destruct (resolve_go f r) eqn:Hr; [|done]. intros [= <-]. cbn. by rewrite (IH _ eq_refl).
  - destruct (f name); [|done]. cbn [mbind option_bind].
    destruct (resolve_go f r) eqn:Hr; [|done]. intros [= <-]. cbn. by rewrite (IH _ eq_refl).
Qed.

(** The assembler half of [main] on a printed source. *)
Lemma assemble_source_eq p items prog :
  items ≠ [] -> Forall (λ it, item_ok it = true) items -> Z.of_nat (length items) < 2 ^ 16 ->
  resolve items = Some prog ->
  assemble p (print_source items) = assemble_prog p prog.
Proof.
  intros Hne Hok Hlen Hres. unfold assemble, assemble_lines.
  rewrite (proj1 (assemble_source_lines p items prog Hne Hok Hlen Hres)), bind_Ok_l.
  unfold instr_to_machine_code, assemble_prog. apply mapM_map.
Qed.

(** ** Theorems *)

(** A loop with a backward and a forward reference:
    [loop: add r1,1,r1; braz r0,end; jmp loop,r2; end: stop]. *)
Definition loop_source : list item :=
  [ILabel "loop"; IInstr (IAlu 1 1 (Imm 1) 1); IRef (IBraz 0 0) "end";
   IRef (IJmp (Imm 0) 2) "loop"; ILabel "end"; IInstr IStop].

(** C20: the two passes of the assembler on a source with labels: for a
    well-formed source all of whose references name a label, the second
    pass returns the vectors of the program [resolve] gives, each
    reference, forward or backward, replaced by the number of
    instructions before the last definition of its label, and
    [assemble] returns the words of that program. *)
Theorem assemble_source p items prog :
  items ≠ [] -> Forall (λ it, item_ok it = true) items -> Z.of_nat (length items) < 2 ^ 16 ->
  resolve items = Some prog ->
  lines_to_instr p (read_file (print_source items)) = Ok (map to_vec prog) /\
  assemble p (print_source items) = assemble_prog p prog.
Proof.
  intros Hne Hok Hlen Hres. split; [apply assemble_source_lines|apply assemble_source_eq]; done.
Qed.

Lemma assemble_source_witness :
  lines_to_instr Release (read_file (print_source loop_source)) =
    Ok (map to_vec [IAlu 1 1 (Imm 1) 1; IBraz 0 3; IJmp (Imm 0) 2; IStop]) /\
  assemble Release (print_source loop_source) =
    assemble_prog Release [IAlu 1 1 (Imm 1) 1; IBraz 0 3; IJmp (Imm 0) 2; IStop].
Proof.
  apply assemble_source; [done | decide_prop | vm_compute; reflexivity | vm_compute; reflexivity].
Defined.

(** C19: end to end with labels: [main] on the text of a well-formed
    source runs the program [resolve] gives, from all-zero registers, as
    [ISA.arun] does: in a release build it halts, keeps running or
    crashes exactly when [arun] halts, keeps running or faults, in the
    abstracted state; a debug build may in addition crash on an
    overflow. *)
Theorem main_source_refines p items prog fuel :
  items ≠ [] -> Forall (λ it, item_ok it = true) items -> Z.of_nat (length items) < 2 ^ 16 ->
  resolve items = Some prog ->
  match main p fuel (print_source items) with
  | Halted vm' => arun prog fuel (St (replicate 8 0) 0) = AHalted (abs vm')
  | Running vm' => arun prog fuel (St (replicate 8 0) 0) = ARunning (abs vm')
  | Crashed _ => arun prog fuel (St (replicate 8 0) 0) = AFault \/ p = Debug
  end.
Proof.
  intros Hne Hok Hlen Hres.
  pose proof (proj2 (assemble_source_lines p items prog Hne Hok Hlen Hres)) as Hwf.
  destruct (assemble_prog_ok p prog Hwf) as [words Hw].
  unfold main. rewrite (assemble_source_eq p items prog), Hw by done.
  apply (run_arun p prog words fuel (new words)); [done | done | | apply new_inv | done].
  rewrite (resolve_go_length _ _ _ Hres). pose proof (count_ins_length items).
  unfold u32_modulus. lia.
Qed.

(** [loop_source] adds 1 to r1, takes the forward branch at once and
    halts after three cycles. *)
Lemma main_source_refines_witness :
  match main Release 3 (print_source loop_source) with
  | Halted vm' => arun [IAlu 1 1 (Imm 1) 1; IBraz 0 3; IJmp (Imm 0) 2; IStop] 3 (St (replicate 8 0) 0) = AHalted (abs vm')
  | Running vm' => arun [IAlu 1 1 (Imm 1) 1; IBraz 0 3; IJmp (Imm 0) 2; IStop] 3 (St (replicate 8 0) 0) = ARunning (abs vm')
  | Crashed _ => arun [IAlu 1 1 (Imm 1) 1; IBraz 0 3; IJmp (Imm 0) 2; IStop] 3 (St (replicate 8 0) 0) = AFault \/ Release = Debug
  end.
Proof.
  apply main_source_refines; [done | decide_prop | vm_compute; reflexivity | vm_compute; reflexivity].
Defined.

End Source.
