(* ===== verification/Output.v ===== *)
(** * What the program prints: the [println!] calls of every component

    Every component of the program writes diagnostics on the standard
    output with [println!]: [lines_to_instr] one line per instruction
    line (and the unknown-mnemonic and wrong-operand-count messages, and
    the missing-[stop] warning), [instr_to_machine_code] one line per
    word, [VM::eval] one line per instruction executed, and [VM::run]
    the register dump before each cycle.  A message printed before a
    panic stays printed, so output and faults are modelled together, in
    the writer-over-error monad [io]: a result of [res] and the lines
    printed, in order.

    [eval_io], [run_io], [line_to_instr_io], [collect_io],
    [lines_to_instr_io], [encode_io] and [main_io] are the functions of
    the code with their [println!] calls in place; without them they
    are the models of the other files, which the erasure theorems
    state: the result of each is the pure model's.  The other theorems
    say what is printed: the missing-[stop] warning, the encoder's
    listing (which reads back as the program), and the message [eval]
    prints for each well-formed instruction: its mnemonic and operands
    ([instr_msg]), except for a [jmp] to an immediate, whose message is
    that of a [seq] ([eval_msg]); and, in a release build, all that
    [VM::run] prints for an assembled program, which is the trace
    [arun_out] of the spec's machine: the dump of its registers before
    each step, then the message of the instruction at its [pc]. *)

From Stdlib Require Import Ascii.
From S2P Require Import Prelude RustStr Labels Parser Encoder Decoder VM Trace ISA Pipeline Printer.
Import RustStr Labels Parser Encoder Decoder Machine Trace ISA Pipeline Printer.

Module Output.

(** ** The writer-over-error monad *)

(** A computation's result and the lines it printed, in order. *)
Record io (A : Type) := IO { io_res : res A; io_out : list string }.
Arguments IO {A} _ _.
Arguments io_res {A} _.
Arguments io_out {A} _.

#[export] Instance io_ret : MRet io := λ A a, IO (Ok a) [].
#[export] Instance io_bind : MBind io := λ A B k m,
  match io_res m with
  | Ok a => IO (io_res (k a)) (io_out m ++ io_out (k a))%list
  | Err f => IO (Err f) (io_out m)
  end.

(** [println!("{}", s)] *)
Definition print (s : string) : io unit := IO (Ok tt) [s].

(** A computation that prints nothing. *)
Definition lift {A} (r : res A) : io A := IO r [].

(** Erasing the output: the result of a computation. *)
Lemma io_res_bind {A B} (m : io A) (k : A -> io B) :
  io_res (m ≫= k) = io_res m ≫= (λ a, io_res (k a)).
Proof. unfold mbind, io_bind. by destruct (io_res m). Qed.

Lemma io_res_ret {A} (a : A) : io_res (mret a) = Ok a.
Proof. done. Qed.

Lemma io_res_print s : io_res (print s) = Ok tt.
Proof. done. Qed.

Lemma io_res_lift {A} (r : res A) : io_res (lift r) = r.
Proof. done. Qed.

(** The output of a bind: the first computation's lines, then, if it
    did not fail, the continuation's. *)
Lemma io_out_bind {A B} (m : io A) (k : A -> io B) :
  io_out (m ≫= k) = (io_out m ++ match io_res m with Ok a => io_out (k a) | Err _ => [] end)%list.
Proof. unfold mbind, io_bind. destruct (io_res m); simpl; by rewrite ?app_nil_r. Qed.

Lemma io_out_print s : io_out (print s) = [s].
Proof. done. Qed.

Lemma io_out_lift {A} (r : res A) : io_out (lift r) = [].
Proof. done. Qed.

Lemma io_out_ret {A} (a : A) : io_out (mret a) = [].
Proof. done. Qed.

Create Rewrite HintDb io_erase.
#[export] Hint Rewrite @io_res_bind @io_res_ret io_res_print @io_res_lift @bind_Ok_l : io_erase.
Create Rewrite HintDb io_lines.
#[export] Hint Rewrite @io_out_bind io_out_print @io_out_lift @io_out_ret @io_res_lift io_res_print
  @io_res_ret app_nil_r : io_lines.

(** ** Formats *)

(** ["r{}"] and ["#{}"] *)
Definition reg_txt (n : Z) : string := String "r" (dec n).
Definition imm_txt (n : Z) : string := String "#" (dec n).

(** Fields separated by single spaces, as in ["add r{} r{} r{}"]. *)
Definition spaced (l : list string) : string := String.concat " " l.

(** ** [VM::eval] and [VM::run] *)

(** The mnemonic each arm of opcodes 1 to 12 prints. *)
Definition alu_name (op : Z) : string :=
  match op with
  | 1 => "add" | 2 => "sub" | 3 => "mul" | 4 => "div" | 5 => "and" | 6 => "or"
  | 7 => "xor" | 8 => "shl" | 9 => "shr" | 10 => "slt" | 11 => "sle" | 12 => "seq"
  | _ => ""
  end.

(** [println!("add r{} r{} r{}", ...)] when the operand is a register,
    [println!("add r{} #{} r{}", ...)] when it is a literal. *)
Definition alu_msg (instr : Instruction) : string :=
  if bool_decide (imm2 instr = 0) then
    spaced [alu_name (instr_num instr); reg_txt (r1 instr); reg_txt (o2 instr); reg_txt (r2 instr)]
  else spaced [alu_name (instr_num instr); reg_txt (r1 instr); imm_txt (o2 instr); reg_txt (r2 instr)].

(** [VM::eval] with its messages.  Opcodes 1 to 12 print before they
    compute; [jmp] writes the link register first, then prints (the
    literal arm prints the text of a [seq]: vm.rs, line 195). *)
Definition eval_io (p : profile) (vm : VM) (instr : Instruction) : io (VM * bool) :=
  match instr_num instr with
  | 0 => print "halt";; mret (vm, false)
  | 1 | 2 | 3 | 4 | 5 | 6 | 7 | 8 | 9 | 10 | 11 | 12 =>
      print (alu_msg instr);;
      vm' ← lift (eval_alu p vm instr); mret (vm', true)
  | 13 => print "TODO: loading from cache";; mret (vm, true)
  | 14 => print "TODO: storing to cache";; mret (vm, true)
  | 15 =>
      link ← lift (add32 p (pc vm) 1);
      r ← lift (reg_set (regs vm) (r2 instr) link);
      if bool_decide (imm1 instr = 0) then
        print (spaced ["jmp"; reg_txt (o1 instr); reg_txt (r2 instr)]);;
        target ← lift (reg_get r (o1 instr)); mret (mkVM r (program vm) target, true)
      else
        print (spaced ["seq"; reg_txt (r1 instr); imm_txt (o2 instr); reg_txt (r2 instr)]);;
        mret (mkVM r (program vm) (o1 instr), true)
  | 16 =>
      print (spaced ["braz"; reg_txt (r1 instr); imm_txt (a instr)]);;
      vm' ← lift (eval_braz vm instr); mret (vm', true)
  | 17 =>
      print (spaced ["branz"; reg_txt (r1 instr); imm_txt (a instr)]);;
      vm' ← lift (eval_branz vm instr); mret (vm', true)
  | 18 => print (String.append "scall " (dec (n instr)));; mret (vm, true)
  | _ => print "instruction unknown";; mret (vm, false)
  end.

(** [VM::run] with what it prints: the dump, then [eval]'s message. *)
Fixpoint run_io (p : profile) (fuel : nat) (vm : VM) : io outcome :=
  match fuel with
  | O => mret (Running vm)
  | S k =>
      print (show_regs vm);;
      '(w, vm1) ← lift (fetch p vm);
      eval_io p vm1 (decode w) ≫= λ '((vm', cont) : VM * bool),
      if cont then run_io p k vm' else mret (Halted vm')
  end.

(** How a run ends, a panic included. *)
Definition io_outcome (m : io outcome) : outcome :=
  match io_res m with Ok o => o | Err f => Crashed f end.

(** ** [lines_to_instr] and [instr_to_machine_code] *)

(** [{:?}] of a [Vec<u32>]: ["[1, 0, 1, 5, 1]"]. *)
Definition debug_vec (v : list Z) : string :=
  String "[" (String.append (String.concat ", " (map dec v)) "]").

(** [println!("{}: {:?} | {}", pc, num_instr, line)] *)
Definition listing_line (pc : Z) (num_instr : list Z) (line : string) : string :=
  String.append (dec pc) (String.append ": " (String.append (debug_vec num_instr)
    (String.append " | " line))).

(** [println!("Mauvais nombre d'arguments (#{}) : {}", args.len(), line)],
    printed by the [_] arm of the operand count. *)
Definition count_msg (args_opt : option (list string)) (line : string) : io unit :=
  match args_opt with
  | Some args =>
      if bool_decide (length args ∈ [1; 2; 3]%nat) then mret ()
      else print (String.append "Mauvais nombre d'arguments (#" (String.append
             (dec (Z.of_nat (length args))) (String.append ") : " line)))
  | None => mret ()
  end.

Definition no_stop_msg : string :=
  "Le programme n'a pas d'instruction 'stop'. Cela peut causer un comportement imprévu.".

(** The loop body of [lines_to_instr] with its messages: the mnemonic
    (for [has_stop]) and the vector of an instruction line.  The
    unknown-mnemonic message comes before [exit(1)]; the operand arms
    print nothing but the [_] arm, which parses nothing, so its message
    is printed before the vector is built. *)
Definition line_to_instr_io (labels : gmap string Z) (pc : Z) (line : string)
    : io (option (string * list Z)) :=
  lift (is_label line) ≫= λ lbl : bool,
  if lbl then mret None else
  let '(op_name, args_opt) := split_instruction line in
  opc ← (match op_code op_name with
         | Some opc => mret opc
         | None => print (String.append "Instruction non reconnue: " op_name);;
                   lift (Err (UnknownInstr op_name))
         end);
  count_msg args_opt line;;
  num_instr ← lift (operands_vec labels op_name opc args_opt);
  print (listing_line pc num_instr line);;
  mret (Some (op_name, num_instr)).

(** The [for line in lines] loop, with its mutable [instructions],
    [has_stop] and [pc]. *)
Fixpoint collect_io (labels : gmap string Z) (lines : list string)
    (instructions : list (list Z)) (has_stop : bool) (pc : Z) : io (list (list Z) * bool) :=
  match lines with
  | [] => mret (instructions, has_stop)
  | line :: rest =>
      line_to_instr_io labels pc line ≫= λ o : option (string * list Z),
      match o with
      | None => collect_io labels rest instructions has_stop pc
      | Some (op_name, num_instr) =>
          collect_io labels rest (instructions ++ [num_instr])%list
            (has_stop || bool_decide (op_name = "stop")) (pc + 1)
      end
  end.

(** [lines_to_instr] with its output. *)
Definition lines_to_instr_io (p : profile) (lines : list string) : io (list (list Z)) :=
  labels ← lift (get_label_adresses p lines);
  collect_io labels lines [] false 0 ≫= λ '((instructions, has_stop) : list (list Z) * bool),
  (if has_stop then mret () else print no_stop_msg);;
  mret instructions.

(** A lower-case hexadecimal digit. *)
Definition hex_lower (d : Z) : ascii :=
  if bool_decide (d < 10) then ascii_of_nat (Z.to_nat (48 + d)) else ascii_of_nat (Z.to_nat (87 + d)).

(** [{:08x}] *)
Definition fmt_08x (n : Z) : string := pad_zero 8 (num_go 16 hex_lower 8 n).

(** [println!("pc: {} | hex: 0x{:08x}", pc, dec_instr)] *)
Definition word_line (pc w : Z) : string :=
  String.append "pc: " (String.append (dec pc) (String.append " | hex: 0x" (fmt_08x w))).

(** [instr_to_machine_code] with its output: a word, then its line. *)
Fixpoint encode_io (p : profile) (pc : Z) (instructions : list (list Z)) : io (list Z) :=
  match instructions with
  | [] => mret []
  | instr :: rest =>
      dec_instr ← lift (encode_instr p instr);
      print (word_line pc dec_instr);;
      words ← encode_io p (pc + 1) rest;
      mret (dec_instr :: words)
  end.

(** [main] after the file is read, with everything it prints. *)
Definition main_io (p : profile) (fuel : nat) (content : string) : io outcome :=
  instrs ← lines_to_instr_io p (read_file content);
  program ← encode_io p 0 instrs;
  run_io p fuel (new program).

(** ** Erasure: printing does not change the machine *)

Lemma eval_io_erase p vm instr : io_res (eval_io p vm instr) = eval p vm instr.
Proof.
  unfold eval_io, eval. destruct (instr_num instr) as [|q|q]; try reflexivity.
  do 5 (try destruct q as [q|q|]); try (autorewrite with io_erase; reflexivity).
  unfold eval_jmp. autorewrite with io_erase.
  destruct (add32 p (pc vm) 1); [|done]. autorewrite with io_erase.
  destruct (reg_set _ _ _); [|done]. autorewrite with io_erase.
  case_bool_decide; autorewrite with io_erase; [|done].
  by destruct (reg_get _ _).
Qed.

Lemma run_io_erase p k vm : io_outcome (run_io p k vm) = run p k vm.
Proof.
  revert vm. induction k as [|k IH]; intros vm; [done|].
  unfold io_outcome. cbn [run_io run]. unfold cycle. autorewrite with io_erase.
  destruct (fetch p vm) as [[w vm1]|f]; [|done]. autorewrite with io_erase. cbv beta iota.
  rewrite ?io_res_bind, eval_io_erase.
  destruct (eval p vm1 (decode w)) as [[vm' []]|f]; autorewrite with io_erase; [apply IH|done..].
Qed.

Lemma count_msg_res args_opt line : io_res (count_msg args_opt line) = Ok tt.
Proof. destruct args_opt as [args|]; [|done]. unfold count_msg. by case_bool_decide. Qed.

Lemma line_to_instr_io_erase labels pc line :
  io_res (line_to_instr_io labels pc line) =
  (λ o : option (list Z), (λ v : list Z, ((split_instruction line).1, v)) <$> o) <$>
    line_to_instr labels line.
Proof.
  unfold line_to_instr_io, line_to_instr. autorewrite with io_erase.
  destruct (is_label line) as [[]|f]; autorewrite with io_erase; [done | | done].
  destruct (split_instruction line) as [op_name args_opt]. cbn [fst].
  destruct (op_code op_name) as [opc|]; autorewrite with io_erase; cbn [opt_res]; [|done].
  rewrite bind_Ok_l, count_msg_res. autorewrite with io_erase.
  by destruct (operands_vec labels op_name opc args_opt).
Qed.

Lemma collect_io_erase labels lines acc hs pc :
  fst <$> io_res (collect_io labels lines acc hs pc) = (λ l, acc ++ l)%list <$> collect labels lines.
Proof.
  revert acc hs pc. induction lines as [|line rest IH]; intros acc hs pc.
  { cbn. by rewrite app_nil_r. }
  cbn [collect_io collect]. rewrite io_res_bind, line_to_instr_io_erase.
  destruct (line_to_instr labels line) as [[v|]|f]; cbn [fmap res_fmap option_fmap option_map]; autorewrite with io_erase; [| |done].
  - rewrite IH. destruct (collect labels rest); cbn; [|done]. by rewrite <- app_assoc.
  - rewrite IH. by destruct (collect labels rest).
Qed.

Lemma lines_to_instr_io_erase p lines : io_res (lines_to_instr_io p lines) = lines_to_instr p lines.
Proof.
  unfold lines_to_instr_io, lines_to_instr. autorewrite with io_erase.
  destruct (get_label_adresses p lines) as [labels|f]; autorewrite with io_erase; [|done].
  pose proof (collect_io_erase labels lines [] false 0) as H.
  destruct (io_res (collect_io labels lines [] false 0)) as [[instrs hs]|f];
    destruct (collect labels lines); cbn in H; simplify_eq; autorewrite with io_erase; [|done].
  by destruct hs.
Qed.

Lemma encode_io_erase p pc instrs : io_res (encode_io p pc instrs) = instr_to_machine_code p instrs.
Proof.
  unfold instr_to_machine_code. revert pc. induction instrs as [|i r IH]; intros pc; [done|].
  cbn [encode_io mapM]. autorewrite with io_erase.
  destruct (encode_instr p i); autorewrite with io_erase; [|done]. by rewrite IH.
Qed.

(** ** What the assembler prints *)

(** The instruction lines of a source, in order. *)
Definition instr_lines (lines : list string) : list string :=
  filter (λ l, label_line l = false) lines.

(** Whether some instruction line has the mnemonic [stop]. *)
Definition has_stop_line (lines : list string) : bool :=
  existsb (λ l, negb (label_line l) && bool_decide ((split_instruction l).1 = "stop")) lines.

(** What an instruction line prints once its vector [v] is built, at
    index [pc]: the operand-count message, if any, and its listing. *)
Definition line_out (pc : Z) (line : string) (v : list Z) : list string :=
  (io_out (count_msg (split_instruction line).2 line) ++ [listing_line pc v line])%list.

Lemma line_to_instr_io_out labels pc line o :
  line_to_instr labels line = Ok o ->
  io_out (line_to_instr_io labels pc line) = match o with None => [] | Some v => line_out pc line v end.
Proof.
  intros H. unfold line_to_instr in H. apply bind_Ok in H as (lbl & Hl & H).
  unfold line_to_instr_io. autorewrite with io_lines. rewrite Hl. cbv beta iota.
  destruct lbl; [by injection H as <-|].
  destruct (split_instruction line) as [op_name args_opt] eqn:Hs.
  apply bind_Ok in H as (opc & Hop & H). apply opt_res_Ok in Hop.
  apply bind_Ok in H as (v & Hv & H). injection H as <-.
  rewrite Hop. autorewrite with io_lines. rewrite count_msg_res, Hv. autorewrite with io_lines.
  unfold line_out. by rewrite Hs, !app_nil_l.
Qed.

Lemma has_stop_line_cons line rest :
  has_stop_line (line :: rest) =
  (negb (label_line line) && bool_decide ((split_instruction line).1 = "stop")) || has_stop_line rest.
Proof. done. Qed.

(** The loop prints, for each instruction line in order, its messages
    at its index in the result, and tracks whether a [stop] was seen. *)
Lemma collect_io_out labels lines instrs acc hs pc :
  collect labels lines = Ok instrs ->
  io_res (collect_io labels lines acc hs pc) = Ok ((acc ++ instrs)%list, hs || has_stop_line lines) /\
  io_out (collect_io labels lines acc hs pc) =
    concat (imap (λ i '(line, v), line_out (pc + Z.of_nat i) line v) (zip (instr_lines lines) instrs)).
Proof.
  revert instrs acc hs pc. induction lines as [|line rest IH]; intros instrs acc hs pc H.
  { injection H as <-. cbn. by rewrite app_nil_r, orb_false_r. }
  cbn [collect] in H. apply bind_Ok in H as (o & Ha & H).
  apply bind_Ok in H as (instrs' & Ha0 & H). apply Ok_inj in H.
  pose proof (line_to_instr_label _ _ _ Ha) as Hlab.
  cbn [collect_io]. rewrite io_res_bind, io_out_bind, line_to_instr_io_erase, Ha, (line_to_instr_io_out _ _ _ _ Ha).
  destruct o as [v|]; subst instrs; cbn [fmap res_fmap option_fmap option_map]; rewrite bind_Ok_l.
  - destruct (IH instrs' (acc ++ [v])%list (hs || bool_decide ((split_instruction line).1 = "stop")) (pc + 1) Ha0)
      as [Hres Hout].
    destruct (split_instruction line) as [op_name args_opt] eqn:Hs. cbn [fst] in *. rewrite Hres, Hout.
    unfold instr_lines. rewrite filter_cons_True by done. fold (instr_lines rest).
    rewrite has_stop_line_cons, Hlab, Hs. cbn [zip zip_with imap concat fst negb andb].
    rewrite <- app_assoc, orb_assoc. split; [done|]. replace (pc + Z.of_nat 0) with pc by lia.
    f_equal. f_equal. apply imap_ext. intros i [l w] _. cbn. f_equal. lia.
  - destruct (IH instrs' acc hs pc Ha0) as [Hres Hout]. rewrite Hres, Hout, app_nil_l.
    unfold instr_lines. rewrite filter_cons_False by (rewrite Hlab; done). by rewrite has_stop_line_cons, Hlab.
Qed.

Lemma lines_to_instr_io_out p lines instrs :
  lines_to_instr p lines = Ok instrs ->
  io_out (lines_to_instr_io p lines) =
    (concat (imap (λ i '(line, v), line_out (Z.of_nat i) line v) (zip (instr_lines lines) instrs)) ++
     if has_stop_line lines then [] else [no_stop_msg])%list.
Proof.
  unfold lines_to_instr. intros H. apply bind_Ok in H as (labels & Hl & H).
  destruct (collect_io_out labels lines instrs [] false 0 H) as [Hres Hout].
  unfold lines_to_instr_io. autorewrite with io_lines. rewrite Hl. cbv beta iota.
  rewrite io_out_bind, Hres, Hout. cbv beta iota. cbn [orb].
  rewrite app_nil_l. f_equal. destruct (has_stop_line lines); by autorewrite with io_lines.
Qed.

(** The encoder prints one line per word, numbered from [pc]. *)
Lemma encode_io_out p pc instrs words :
  instr_to_machine_code p instrs = Ok words ->
  io_out (encode_io p pc instrs) = imap (λ i w, word_line (pc + Z.of_nat i) w) words.
Proof.
  unfold instr_to_machine_code. revert pc words. induction instrs as [|i r IH]; intros pc words H.
  { by injection H as <-. }
  cbn [mapM] in H. apply bind_Ok in H as (w & Hw & H). apply bind_Ok in H as (ws & Hws & H).
  injection H as <-. cbn [encode_io]. autorewrite with io_lines. rewrite Hw. cbv beta iota.
  autorewrite with io_lines. rewrite encode_io_erase. unfold instr_to_machine_code. rewrite Hws.
  cbv beta iota. autorewrite with io_lines. rewrite (IH _ ws) by done. cbn [imap].
  rewrite Z.add_0_r. cbn [app]. f_equal. apply imap_ext. intros k x _. cbn. f_equal. lia.
Qed.

(** ** Reading the encoder's listing back *)

(** The word of a listing line: the hexadecimal digits after the
    last [x]. *)
Definition read_word_line (s : string) : option Z := last (split_char "x"%char s) ≫= parse_hex.

Lemma hex_lower_ok d : 0 <= d < 16 -> hex_val (hex_lower d) = Some d /\ hex_lower d ≠ "x"%char.
Proof.
  apply (seqZ_forall (λ d, hex_val (hex_lower d) = Some d /\ hex_lower d ≠ "x"%char) 0 16).
  decide_prop.
Qed.

Lemma fmt_08x_no_x w : is_u32 w -> no_char "x"%char (fmt_08x w) = true.
Proof.
  intros Hw. unfold fmt_08x, pad_zero, no_char. rewrite all_chars_app.
  apply andb_true_iff. split; [by apply zeros_no_char|].
  apply num_go_chars; [lia | | u32_lia]. intros d Hd. apply bool_decide_eq_true.
  by apply hex_lower_ok.
Qed.

Lemma split_char_last sep a b :
  no_char sep b = true -> last (split_char sep (String.append a (String sep b))) = Some b.
Proof.
  intros Hb. enough (exists x l, split_char sep (String.append a (String sep b)) = x :: l ++ [b])
    as (x & l & ->) by (rewrite app_comm_cons; apply last_snoc).
  induction a as [|c a (x & l & IH)].
  - exists EmptyString, []. change (String.append EmptyString (String sep b)) with (String sep b).
    cbn [split_char]. rewrite bool_decide_true by done. by rewrite split_char_none.
  - change (String.append (String c a) (String sep b)) with (String c (String.append a (String sep b))).
    cbn [split_char]. rewrite IH. case_bool_decide.
    + by exists EmptyString, (x :: l).
    + by exists (String c x), l.
Qed.

(** Every line of the encoder's listing reads back as its word. *)
Lemma read_word_line_ok pc w : is_u32 w -> read_word_line (word_line pc w) = Some w.
Proof.
  intros Hw. unfold read_word_line, word_line.
  change (String.append " | hex: 0x" (fmt_08x w)) with (String.append " | hex: 0" (String "x" (fmt_08x w))).
  rewrite <- !append_assoc, split_char_last by (by apply fmt_08x_no_x). cbn [mbind option_bind].
  apply pad_hex_parse; [intros d Hd; by apply hex_lower_ok | done].
Qed.

Lemma encode_words_u32 p instrs words :
  instr_to_machine_code p instrs = Ok words -> Forall is_u32 words.
Proof.
  unfold instr_to_machine_code. revert words. induction instrs as [|i r IH]; intros words H.
  { by injection H as <-. }
  cbn [mapM] in H. apply bind_Ok in H as (w & Hw & H). apply bind_Ok in H as (ws & Hws & H).
  injection H as <-. constructor; [by eapply encode_instr_u32 | by apply IH].
Qed.

(** ** The message of each instruction *)

Definition opnd_txt (o : operand) : string :=
  match o with Reg r => reg_txt r | Imm v => imm_txt v end.

(** What [eval] is meant to print for an abstract instruction: its
    mnemonic and its operands, as the arms of [eval] write them. *)
Definition instr_msg (i : instr) : string :=
  match i with
  | IStop => "halt"
  | IAlu op rs o rd => spaced [alu_name op; reg_txt rs; opnd_txt o; reg_txt rd]
  | IMem op _ _ _ =>
      if bool_decide (op = 13) then "TODO: loading from cache" else "TODO: storing to cache"
  | IJmp o rd => spaced ["jmp"; opnd_txt o; reg_txt rd]
  | IBraz r addr => spaced ["braz"; reg_txt r; imm_txt addr]
  | IBranz r addr => spaced ["branz"; reg_txt r; imm_txt addr]
  | IScall num => String.append "scall " (dec num)
  end.

(** A message, then a computation that prints nothing more. *)
Lemma io_out_print_then {A} s (k : io A) : io_out (print s;; k) = s :: io_out k.
Proof. done. Qed.

Lemma io_out_lift_silent {A B} (r : res A) (k : A -> io B) :
  (forall a, io_out (k a) = []) -> io_out (lift r ≫= k) = [].
Proof. intros Hk. rewrite io_out_bind. destruct r; cbn; [apply Hk | done]. Qed.

(** Opcodes 1 to 12 print their message, whatever the computation does. *)
Lemma eval_io_alu_out p vm instr :
  1 <= instr_num instr <= 12 -> io_out (eval_io p vm instr) = [alu_msg instr].
Proof.
  intros H. unfold eval_io. op_cases (instr_num instr); cbv beta iota;
    rewrite io_out_print_then, io_out_lift_silent; done.
Qed.

(** Opcodes 16 to 18, and 0, 13, 14: one message. *)
Lemma eval_io_one_out p vm instr :
  instr_num instr = 0 \/ 13 <= instr_num instr <= 14 \/ 16 <= instr_num instr <= 18 ->
  io_out (eval_io p vm instr) =
    [match instr_num instr with
     | 0 => "halt" | 13 => "TODO: loading from cache" | 14 => "TODO: storing to cache"
     | 16 => spaced ["braz"; reg_txt (r1 instr); imm_txt (a instr)]
     | 17 => spaced ["branz"; reg_txt (r1 instr); imm_txt (a instr)]
     | _ => String.append "scall " (dec (n instr))
     end].
Proof.
  intros H. unfold eval_io.
  assert (instr_num instr = 0 \/ instr_num instr = 13 \/ instr_num instr = 14 \/
          instr_num instr = 16 \/ instr_num instr = 17 \/ instr_num instr = 18) as Hc by lia.
  destruct_or! Hc; rewrite Hc; cbv beta iota; rewrite io_out_print_then; try done;
    by rewrite io_out_lift_silent.
Qed.

(** [jmp] prints after its link register is written. *)
Lemma eval_io_jmp_out p vm instr :
  instr_num instr = 15 -> vm_inv vm -> pc vm + 1 < u32_modulus -> 0 <= r2 instr < 8 ->
  io_out (eval_io p vm instr) =
    [if bool_decide (imm1 instr = 0) then spaced ["jmp"; reg_txt (o1 instr); reg_txt (r2 instr)]
     else spaced ["seq"; reg_txt (r1 instr); imm_txt (o2 instr); reg_txt (r2 instr)]].
Proof.
  intros Hn Hinv Hpc Hr. pose proof (vm_inv_pc vm Hinv) as Hp. destruct Hinv as (Hlen & _ & _).
  unfold eval_io. rewrite Hn. cbv beta iota.
  rewrite add32_exact by lia. autorewrite with io_lines. cbv beta iota.
  rewrite reg_set_ok by (rewrite Hlen; unfold NUM_REGS; lia). autorewrite with io_lines. cbv beta iota.
  case_bool_decide; rewrite io_out_print_then; [by rewrite io_out_lift_silent | done].
Qed.

(** [fits_lia] proves the width side conditions of the codec lemmas;
    [same_word] identifies the word of two encodings of one vector. *)
Ltac fits_lia := unfold fits in *; simpl; lia.
Ltac same_word Henc Hw := rewrite Henc in Hw; apply Ok_inj in Hw as <-.

(** The line [eval] prints for the word of an abstract instruction:
    [instr_msg], except that a [jmp] to a literal prints the [seq] its
    word reads as (vm.rs, line 195). *)
Definition eval_msg (i : instr) : string :=
  match i with
  | IJmp (Imm t) rd => spaced ["seq"; reg_txt (16 + t / 2 ^ 17); imm_txt (t mod 2 ^ 16); reg_txt rd]
  | _ => instr_msg i
  end.

Lemma eval_io_word_out p vm i w :
  vm_inv vm -> pc vm + 1 < u32_modulus -> wf i = true -> encode_instr p (to_vec i) = Ok w ->
  io_out (eval_io p vm (decode w)) = [eval_msg i].
Proof.
  intros Hinv Hpc Hwf Henc.
  destruct i as [| op rs [ro|v] rd | op rs [ro|v] rd | [ro|t] rd | r addr | r addr | num];
    cbn [to_vec imm_bit operand_val] in Henc; wf_split Hwf.
  - destruct (roundtrip_AB p 0 0) as [(w' & Hw' & Hn) _]; [fits_lia..|]. same_word Henc Hw'.
    rewrite eval_io_one_out by lia. by rewrite Hn.
  - destruct (roundtrip_E p op rs 0 ro rd) as (w' & Hw' & _ & Hn & Hr1 & Hi2 & Ho2 & Hr2);
      [fits_lia..|]. same_word Henc Hw'.
    rewrite eval_io_alu_out by lia. unfold alu_msg. rewrite Hi2, Hn, Hr1, Ho2, Hr2.
    by rewrite bool_decide_true.
  - destruct (roundtrip_E p op rs 1 v rd) as (w' & Hw' & _ & Hn & Hr1 & Hi2 & Ho2 & Hr2);
      [fits_lia..|]. same_word Henc Hw'.
    rewrite eval_io_alu_out by lia. unfold alu_msg. rewrite Hi2, Hn, Hr1, Ho2, Hr2.
    by rewrite bool_decide_false.
  - destruct (roundtrip_E p op rs 0 ro rd) as (w' & Hw' & _ & Hn & _); [fits_lia..|].
    same_word Henc Hw'. rewrite eval_io_one_out by lia. rewrite Hn. by destruct H as [-> | ->].
  - destruct (roundtrip_E p op rs 1 v rd) as (w' & Hw' & _ & Hn & _); [fits_lia..|].
    same_word Henc Hw'. rewrite eval_io_one_out by lia. rewrite Hn. by destruct H as [-> | ->].
  - destruct (roundtrip_D p 15 0 ro rd) as (w' & Hw' & _ & Hn & Hi1 & Ho1 & Hr2); [fits_lia..|].
    same_word Henc Hw'. rewrite eval_io_jmp_out by (done || lia). rewrite Hi1, Ho1, Hr2.
    by rewrite bool_decide_true.
  - destruct (roundtrip_D p 15 1 t rd) as (w' & Hw' & _ & Hn & Hi1 & Ho1 & Hr2); [fits_lia..|].
    same_word Henc Hw'. rewrite eval_io_jmp_out by (done || lia). rewrite Hi1, Ho1, Hr2.
    rewrite bool_decide_false by lia.
    by destruct (decode_D_overlap p 15 1 t rd w) as [-> ->]; [fits_lia.. | done |].
  - destruct (roundtrip_C p 16 r addr) as (w' & Hw' & _ & Hn & Hr1 & Ha); [fits_lia..|].
    same_word Henc Hw'. rewrite eval_io_one_out by lia. by rewrite Hn, Hr1, Ha.
  - destruct (roundtrip_C p 17 r addr) as (w' & Hw' & _ & Hn & Hr1 & Ha); [fits_lia..|].
    same_word Henc Hw'. rewrite eval_io_one_out by lia. by rewrite Hn, Hr1, Ha.
  - destruct (roundtrip_AB p 18 num) as [_ (w' & Hw' & _ & Hn & Hnum)]; [fits_lia..|].
    same_word Henc Hw'. rewrite eval_io_one_out by lia. by rewrite Hn, Hnum.
Qed.

(** ** What [VM::run] prints, on the abstract machine *)

(** The lines a run prints, read off the abstract machine: before each
    step the dump of the registers, then, if [spc] is in the program,
    the message of the instruction there; the trace goes on while the
    machine runs. *)
Fixpoint arun_out (prog : list instr) (fuel : nat) (s : state) : list string :=
  match fuel with
  | O => []
  | S k =>
      show_regs (mkVM (sregs s) [] (spc s)) ::
      match prog !! Z.to_nat (spc s) with
      | None => []
      | Some i =>
          eval_msg i ::
          match astep i s with
          | Some (s', true) => arun_out prog k s'
          | _ => []
          end
      end
  end.

(** [run_io] prints the trace of [arun] from any state that holds the
    assembled program (release build). *)
Lemma run_io_out prog words fuel vm :
  Forall (λ i, wf i = true) prog -> assemble_prog Release prog = Ok words ->
  Z.of_nat (length prog) + 2 < u32_modulus -> vm_inv vm -> program vm = words ->
  io_out (run_io Release fuel vm) = arun_out prog fuel (abs vm).
Proof.
  intros Hwf Hasm Hlen. pose proof (mapM_length _ _ _ Hasm) as Hl. revert vm.
  induction fuel as [|k IH]; intros vm Hinv Hprog; [done|].
  cbn [run_io arun_out abs sregs spc]. autorewrite with io_lines. cbn [app]. f_equal.
  pose proof (vm_inv_pc vm Hinv) as Hp0.
  destruct (prog !! Z.to_nat (pc vm)) as [i|] eqn:Hi.
  - destruct (mapM_lookup _ _ _ _ _ Hasm Hi) as (w & Henc & Hw). rewrite <- Hprog in Hw.
    pose proof (lookup_lt_Some _ _ _ Hi) as Hlt.
    pose proof (Forall_lookup_1 _ _ _ _ Hwf Hi) as Hwfi.
    pose proof (fetch_ok Release vm w ltac:(done) ltac:(lia) Hw) as Hf.
    destruct (fetch_inv Release vm w _ Hinv Hf) as [Hinv1 _].
    rewrite Hf. autorewrite with io_lines. cbv beta iota.
    rewrite (eval_io_word_out Release _ i w) by (done || cbn; lia). cbn [app]. f_equal.
    rewrite eval_io_erase, <- (cycle_at Release vm w) by (done || lia).
    pose proof (cycle_astep Release vm i w Hinv Hwfi Henc Hw ltac:(lia)) as Hc.
    destruct (cycle Release vm) as [[vm' []]|f] eqn:Hcy.
    + destruct Hc as [-> _]. destruct (cycle_preserves_inv Release vm vm' true Hinv Hcy).
      apply IH; [done | congruence].
    + by destruct Hc as [-> _].
    + destruct Hc as [[-> _] | Hd]; [done | discriminate Hd].
  - apply lookup_ge_None_1 in Hi. unfold fetch.
    rewrite nth_res_ge by (rewrite Hprog; lia). by autorewrite with io_lines.
Qed.

(** ** Theorems *)

(** Printing does not change the program: [main] with every
    [println!] of the assembler, the encoder and the VM in place ends
    exactly as the model without output ([Pipeline.main]): the same
    halted or running state, or the same panic. *)
Theorem main_io_erase p fuel content : io_outcome (main_io p fuel content) = main p fuel content.
Proof.
  unfold main_io, main, assemble, assemble_lines, io_outcome. autorewrite with io_erase.
  rewrite lines_to_instr_io_erase.
  destruct (lines_to_instr p (read_file content)) as [instrs|f]; autorewrite with io_erase; [|done].
  rewrite encode_io_erase.
  destruct (instr_to_machine_code p instrs) as [prog|f]; autorewrite with io_erase; [|done].
  apply run_io_erase.
Qed.
(** C21: what the assembler prints for a source it assembles: for each
    instruction line, in source order, the wrong-operand-count message
    if any and the line [i: vector | line] with [i] the index of its
    vector in the result; then the missing-[stop] warning, exactly when
    no instruction line has the mnemonic [stop]; then one line
    [pc: i | hex: 0x...] per word, which reads back as the word. *)
Theorem assembly_output p lines instrs words :
  lines_to_instr p lines = Ok instrs -> instr_to_machine_code p instrs = Ok words ->
  io_out (lines_to_instr_io p lines) =
    (concat (imap (λ i '(line, v), line_out (Z.of_nat i) line v) (zip (instr_lines lines) instrs)) ++
     if has_stop_line lines then [] else [no_stop_msg])%list /\
  io_out (encode_io p 0 instrs) = imap (λ i w, word_line (Z.of_nat i) w) words /\
  read_word_line <$> io_out (encode_io p 0 instrs) = Some <$> words.
Proof.
  intros Hl Hw. pose proof (encode_words_u32 p instrs words Hw) as Hu.
  rewrite (lines_to_instr_io_out p lines instrs Hl), (encode_io_out p 0 instrs words Hw).
  split_and!; [done | done |]. apply list_eq. intros i.
  rewrite !list_lookup_fmap, list_lookup_imap. destruct (words !! i) as [w|] eqn:E; [|done].
  cbn [fmap option_fmap option_map]. rewrite read_word_line_ok; [done|]. by eapply Forall_lookup_1.
Qed.

(** A source without [stop], with a four-operand line. *)
Lemma assembly_output_witness :
  io_out (lines_to_instr_io Release ["loop:"; "add r1,1,r1,r2"; "braz r1,loop"]) =
    (concat (imap (λ i '(line, v), line_out (Z.of_nat i) line v)
       (zip (instr_lines ["loop:"; "add r1,1,r1,r2"; "braz r1,loop"]) [[1]; [16; 1; 0]])) ++
     if has_stop_line ["loop:"; "add r1,1,r1,r2"; "braz r1,loop"] then [] else [no_stop_msg])%list /\
  io_out (encode_io Release 0 [[1]; [16; 1; 0]]) = imap (λ i w, word_line (Z.of_nat i) w) [134217728; 2151677952] /\
  read_word_line <$> io_out (encode_io Release 0 [[1]; [16; 1; 0]]) = Some <$> [134217728; 2151677952].
Proof. apply assembly_output; vm_compute; reflexivity. Defined.

(** A division by zero ends the run with a panic after everything
    before it was printed: the assembler's listing, the encoder's words,
    and for each cycle the dump and the message of [eval], the [div]'s
    included (it is printed before the division). *)
Theorem div_by_zero_output p k :
  main_io p (2 + k) "add r0,5,r1
div r1,r0,r3
stop" = IO (Err DivByZero)
    ["0: [1, 0, 1, 5, 1] | add r0,5,r1"; "1: [4, 1, 0, 0, 3] | div r1,r0,r3"; "2: [0] | stop";
     "pc: 0 | hex: 0x082000a1"; "pc: 1 | hex: 0x20400003"; "pc: 2 | hex: 0x00000000";
     "regs = 0000 0000 0000 0000 0000 0000 0000 0000 "; "add r0 #5 r1";
     "regs = 0000 0005 0000 0000 0000 0000 0000 0000 "; "div r1 r0 r3"].
Proof. destruct p; vm_compute; reflexivity. Qed.

(** C27: what [eval] prints for the word of a well-formed instruction,
    in a state with eight registers whose [pc] can advance: the message
    of the instruction it executes ([instr_msg]: mnemonic and operands),
    except for a [jmp] to a literal target [t], which prints the message
    of a [seq] whose fields are bits of the word: [r{16 + t / 2^17}]
    (the immediate flag and the top bits of [t]) and [#{t mod 2^16}]. *)
Theorem eval_message p vm i w :
  vm_inv vm -> pc vm + 1 < u32_modulus -> wf i = true -> encode_instr p (to_vec i) = Ok w ->
  io_out (eval_io p vm (decode w)) =
    [match i with
     | IJmp (Imm t) rd => spaced ["seq"; reg_txt (16 + t / 2 ^ 17); imm_txt (t mod 2 ^ 16); reg_txt rd]
     | _ => instr_msg i
     end].
Proof. exact (eval_io_word_out p vm i w). Qed.

(** C17: what [VM::run] prints for an assembled program, in a release
    build: the register dumps and the messages of [eval], in order, are
    the trace of the spec's machine [arun] from zeroed registers: before
    each step the dump of its registers, then the message of the
    instruction at its [pc]; the trace ends where [arun] halts or
    faults (the faulting instruction's message included, as [eval]
    prints before it computes). *)
Theorem run_io_trace prog words fuel :
  Forall (λ i, wf i = true) prog -> assemble_prog Release prog = Ok words ->
  Z.of_nat (length prog) + 2 < u32_modulus ->
  io_out (run_io Release fuel (new words)) = arun_out prog fuel (St (replicate 8 0) 0).
Proof. intros Hwf Hasm Hlen. exact (run_io_out prog words fuel (new words) Hwf Hasm Hlen (new_inv words) eq_refl). Qed.

(** [add r0,5,r1; div r1,r0,r2; stop]: two dumps, the [add], and the
    [div] whose division by zero ends the run. *)
Lemma run_io_trace_witness :
  io_out (run_io Release 3 (new [136315041; 541065218; 0])) =
    arun_out [IAlu 1 0 (Imm 5) 1; IAlu 4 1 (Reg 0) 2; IStop] 3 (St (replicate 8 0) 0).
Proof.
  apply (run_io_trace [IAlu 1 0 (Imm 5) 1; IAlu 4 1 (Reg 0) 2; IStop]);
    [decide_prop | reflexivity | unfold u32_modulus; simpl; lia].
Defined.

(** [jmp 2,r1] at address 0 of a fresh machine prints ["seq r16 #2 r1"]. *)
Lemma eval_message_witness :
  io_out (eval_io Release (set_pc (new [2080374849]) 1) (decode 2080374849)) =
    [spaced ["seq"; reg_txt (16 + 2 / 2 ^ 17); imm_txt (2 mod 2 ^ 16); reg_txt 1]].
Proof.
  apply (eval_message Release (set_pc (new [2080374849]) 1) (IJmp (Imm 2) 1) 2080374849).
  - unfold vm_inv; cbn [regs pc set_pc new]; split_and!; [done | decide_prop | u32_lia].
  - cbn; u32_lia.
  - reflexivity.
  - reflexivity.
Defined.

End Output.
